(** * MV2DFusion: target assignment, NMS-free decoding, reference-point refinement

    A shallow embedding of routines of the repository:

    - [HungarianAssigner3D.assign]
      (projects/mmdet3d_plugin/core/bbox/assigners/hungarian_assigner_3d.py),
    - [NMSFreeCoder.decode_single] and [NMSFreeCoder.decode], and the
      same two methods of [TrackingNMSFreeCoder]
      (projects/mmdet3d_plugin/core/bbox/coders/nms_free_coder.py),
    - [MV2DFusionTransformerDecoder.__init__] and [forward],
      [MV2DFusionTransformerDecoderLayer.__init__], [_forward] and
      [forward], [PETRMultiheadFlashAttention.forward] and
      [MixedCrossAttention.pos2posemb2d]
      (projects/mmdet3d_plugin/models/utils/mv2dfusion_transformer.py).

    Conventions of the embedding.

    - A float is a value of [fval]: NaN, the two infinities, or a finite
      number, held as the rational it is.  Tensors are float32 (torch's
      default), so their entries are float32 numbers; a Python float of
      the configuration is a double and is rounded by [f32] where it is
      compared with a tensor or stored in one.  The rounding of sums and
      products is not modelled.  Comparisons follow IEEE 754: anything
      compared with NaN is false.
    - A 1-D tensor is a list, a 2-D tensor a list of rows.  Tensors are
      taken with the shapes their docstrings give.  Indexing checks what
      torch checks (an index out of range, a mask or a list of values of
      the wrong length); what torch does when two operands of an
      entrywise operation differ in shape (broadcasting, or a
      RuntimeError) is not modelled, and theorems that depend on shapes
      state them as hypotheses.
    - Python exceptions are values of [exn]; a call returns an [outcome].
      Routines that print, save files, call into scipy or mutate [self]
      run in the monad [M]: state passing plus a log of the external
      effects, in program order.
    - Library routines (torch.topk, scipy's linear_sum_assignment, the
      match costs of mmdet, the network layers) and the two helpers of
      core/bbox/util.py are parameters.  The documented contracts of topk
      and of the solver are stated as predicates, and executable
      reference implementations are proved to meet them. *)

From Stdlib Require Import Ascii ZArith QArith Qabs Lia Lqa.
From stdpp Require Import base list strings gmap sorting pretty.

Local Open Scope Z_scope.

(* ===================================================================== *)
(** * Floats *)
(* ===================================================================== *)

Module Float.

Inductive fval : Type :=
| NaN
| NInf
| PInf
| Fin (q : Q).

Definition is_finite (x : fval) : bool :=
  match x with Fin _ => true | _ => false end.

Definition is_nan (x : fval) : bool :=
  match x with NaN => true | _ => false end.

(** IEEE addition on the special values, exact on finite ones. *)
Definition fadd (x y : fval) : fval :=
  match x, y with
  | NaN, _ | _, NaN => NaN
  | PInf, NInf | NInf, PInf => NaN
  | PInf, _ | _, PInf => PInf
  | NInf, _ | _, NInf => NInf
  | Fin a, Fin b => Fin (a + b)
  end.

Definition fneg (x : fval) : fval :=
  match x with
  | NaN => NaN
  | NInf => PInf
  | PInf => NInf
  | Fin a => Fin (- a)
  end.

(** Sign of a finite number: [Lt], [Eq] or [Gt] against zero. *)
Definition qsign (a : Q) : comparison := (0 ?= a)%Q.

Definition inf_times (pos : bool) (a : Q) : fval :=
  match qsign a with
  | Eq => NaN
  | Lt => if pos then PInf else NInf
  | Gt => if pos then NInf else PInf
  end.

Definition fmul (x y : fval) : fval :=
  match x, y with
  | NaN, _ | _, NaN => NaN
  | PInf, PInf | NInf, NInf => PInf
  | PInf, NInf | NInf, PInf => NInf
  | PInf, Fin a | Fin a, PInf => inf_times true a
  | NInf, Fin a | Fin a, NInf => inf_times false a
  | Fin a, Fin b => Fin (a * b)
  end.

(** [x <= y] as the hardware decides it: false when either side is NaN. *)
Definition fle (x y : fval) : bool :=
  match x, y with
  | NaN, _ | _, NaN => false
  | NInf, _ => true
  | _, PInf => true
  | PInf, _ => false
  | _, NInf => false
  | Fin a, Fin b => Qle_bool a b
  end.

Definition fge (x y : fval) : bool := fle y x.

(** The order torch.sort and torch.topk use: as [fle] on numbers, with
    NaN ranked above everything (so it is total). *)
Definition tle (x y : fval) : bool :=
  match x, y with
  | _, NaN => true
  | NaN, _ => false
  | _, _ => fle x y
  end.

(** Python truthiness of a float: zero (of either sign) is false;
    NaN and the infinities are true. *)
Definition truthy (x : fval) : bool :=
  match x with
  | Fin a => negb (Qeq_bool a 0)
  | _ => true
  end.

(** [torch.nan_to_num(x, nan, posinf, neginf)] on one entry. *)
Definition nan_to_num (nan posinf neginf : Q) (x : fval) : fval :=
  match x with
  | NaN => Fin nan
  | PInf => Fin posinf
  | NInf => Fin neginf
  | Fin a => Fin a
  end.

(** ** Rounding to float32 *)

(** [2 ^ e] for an integer [e] of either sign. *)
Definition pow2 (e : Z) : Q :=
  if (0 <=? e)%Z then inject_Z (2 ^ e) else / inject_Z (2 ^ (- e)).

(** The integer nearest to [a / b] for [b > 0], the even one of two
    that are equally near. *)
Definition round_half_even (a b : Z) : Z :=
  let fl := (a / b)%Z in
  match (2 * (a mod b) ?= b)%Z with
  | Lt => fl
  | Gt => (fl + 1)%Z
  | Eq => if Z.even fl then fl else (fl + 1)%Z
  end.

(** The exponent of a positive rational: the [e] with
    [2 ^ e <= n / d < 2 ^ (e + 1)]. *)
Definition exponent (n d : positive) : Z :=
  let e := (Z.log2 (Zpos n) - Z.log2 (Zpos d))%Z in
  if Qle_bool (pow2 e) (Zpos n # d) then e else (e - 1)%Z.

(** The float32 nearest to a positive rational: 24 significant bits,
    exponents from -126 (below, the spacing stays [2 ^ -149]) to 127
    (above, infinity). *)
Definition f32_pos (n d : positive) : fval :=
  let e := Z.max (exponent n d) (-126) in
  let k := (e - 23)%Z in
  let m := if (0 <=? k)%Z
           then round_half_even (Zpos n) (Zpos d * 2 ^ k)
           else round_half_even (Zpos n * 2 ^ (- k)) (Zpos d) in
  let x := Qred (inject_Z m * pow2 k) in
  if Qle_bool (pow2 128) x then PInf else Fin x.

(** Rounding to float32, to nearest and ties to even: what happens to
    a Python float (a double) when it is compared with a float32 tensor
    or stored in one.  0.7 becomes 0.699999988..., 61.2 becomes
    61.20000076.... *)
Definition f32 (x : fval) : fval :=
  match x with
  | Fin (Zpos n # d) => f32_pos n d
  | Fin (Zneg n # d) => fneg (f32_pos n d)
  | Fin (0 # _) => Fin 0
  | _ => x
  end.

(** The number a finite value stands for (0 for the special values). *)
Definition to_Q (x : fval) : Q :=
  match x with Fin a => a | _ => 0%Q end.

Abbreviation vec := (list fval).
Abbreviation matrix := (list (list fval)).

(** [shape m r c]: [m] has [r] rows of [c] entries each. *)
Definition shape (m : matrix) (r c : nat) : Prop :=
  length m = r ∧ Forall (λ row, length row = c) m.

Definition all_finite (m : matrix) : Prop :=
  Forall (Forall (λ x, is_finite x = true)) m.

(** Elementwise sum of two matrices of one shape. *)
Definition madd (a b : matrix) : matrix :=
  zip_with (zip_with fadd) a b.

(** [t * w] with the 1-D [w] broadcast over the rows of [t]. *)
Definition mul_rows (t : matrix) (w : vec) : matrix :=
  (λ row, zip_with fmul row w) <$> t.

(** [t[:, :k]]. *)
Definition cols_to (k : nat) (t : matrix) : matrix := take k <$> t.

End Float.

(* ===================================================================== *)
(** * Python outcomes and effects *)
(* ===================================================================== *)

Module Py.

Inductive exn : Type :=
| AssertionError (msg : string)
| ImportError (msg : string)
| NotImplementedError (msg : string)
| KeyError (key : string)
| IndexError
| ZeroDivisionError
| RuntimeError
| ValueError.

Inductive outcome (A : Type) : Type :=
| Ok (a : A)
| Raise (e : exn).
Arguments Ok {A} a.
Arguments Raise {A} e.

#[global] Instance outcome_ret : MRet outcome := λ A a, Ok a.
#[global] Instance outcome_bind : MBind outcome := λ A B f o,
  match o with Ok a => f a | Raise e => Raise e end.
#[global] Instance outcome_fmap : FMap outcome := λ A B f o,
  match o with Ok a => Ok (f a) | Raise e => Raise e end.

(** [M S E A]: a computation over a state [S] (the attributes of
    [self] that the method writes) that logs effects of type [E] and
    ends in a value or an exception.  The state and the log survive an
    exception, as they do in Python. *)
Definition M (S E A : Type) : Type := S → S * list E * outcome A.

Section Monad.
Context {S E : Type}.

Definition ret {A} (a : A) : M S E A := λ s, (s, [], Ok a).

Definition bind {A B} (m : M S E A) (k : A → M S E B) : M S E B :=
  λ s,
    match m s with
    | (s1, l1, Ok a) =>
        match k a s1 with (s2, l2, r) => (s2, l1 ++ l2, r) end
    | (s1, l1, Raise e) => (s1, l1, Raise e)
    end.

Definition raise {A} (e : exn) : M S E A := λ s, (s, [], Raise e).
Definition emit (e : E) : M S E unit := λ s, (s, [e], Ok tt).
Definition get : M S E S := λ s, (s, [], Ok s).
Definition put (s' : S) : M S E unit := λ _, (s', [], Ok tt).
Definition lift {A} (o : outcome A) : M S E A := λ s, (s, [], o).

Definition result {A} (r : S * list E * outcome A) : outcome A := r.2.
Definition trace {A} (r : S * list E * outcome A) : list E := r.1.2.
End Monad.

#[global] Instance M_ret {S E} : MRet (M S E) := λ A, ret.
#[global] Instance M_bind {S E} : MBind (M S E) := λ A B k m, bind m k.

(** [xs[idx]] with a tensor of non-negative indices. *)
Definition gather {A} (xs : list A) (idx : list nat) : outcome (list A) :=
  mapM (M := outcome)
       (λ i, match xs !! i with Some x => Ok x | None => Raise IndexError end)
       idx.

(** [xs[idx]] with signed indices: a negative one counts from the end. *)
Definition gatherZ {A} (xs : list A) (idx : list Z) : outcome (list A) :=
  mapM (M := outcome)
       (λ i : Z,
          let j := if (i <? 0)%Z then (i + Z.of_nat (length xs))%Z else i in
          if (j <? 0)%Z then Raise IndexError
          else match xs !! Z.to_nat j with
               | Some x => Ok x
               | None => Raise IndexError
               end)
       idx.

(** [xs[idx] = vals] with one value per index, entry by entry in order
    (a later write to the same position wins). *)
Fixpoint index_put {A} (xs : list A) (idx : list nat) (vals : list A)
  : outcome (list A) :=
  match idx, vals with
  | [], [] => Ok xs
  | i :: idx', v :: vals' =>
      if decide (i < length xs)%nat
      then index_put (<[i := v]> xs) idx' vals'
      else Raise IndexError
  | _, _ => Raise RuntimeError
  end.

(** [xs[mask]] with a boolean mask over the first dimension. *)
Fixpoint select {A} (mask : list bool) (xs : list A) : list A :=
  match mask, xs with
  | b :: mask', x :: xs' => if b then x :: select mask' xs' else select mask' xs'
  | _, _ => []
  end.

Definition mask_select {A} (mask : list bool) (xs : list A) : outcome (list A) :=
  if decide (length mask = length xs) then Ok (select mask xs)
  else Raise IndexError.

(** [xs[mask] = vals] on a copy of [xs]: the rows of [vals] go, in
    order, to the positions where [mask] is true. *)
Fixpoint masked_put {A} (xs : list A) (mask : list bool) (vals : list A)
  : outcome (list A) :=
  match xs, mask with
  | [], [] => match vals with [] => Ok [] | _ => Raise RuntimeError end
  | x :: xs', b :: mask' =>
      if b then
        match vals with
        | v :: vals' => (v ::.) <$> masked_put xs' mask' vals'
        | [] => Raise RuntimeError
        end
      else (x ::.) <$> masked_put xs' mask' vals
  | _, _ => Raise IndexError
  end.

(** Number of true entries of a mask. *)
Definition count_true (mask : list bool) : nat :=
  length (filter (λ b, b = true) mask).

Definition dq : string := String "034"%char EmptyString.

End Py.

(* ===================================================================== *)
(** * HungarianAssigner3D *)
(* ===================================================================== *)

Module Hungarian.
Import Float Py.

(** mmdet's [AssignResult(num_gts, gt_inds, max_overlaps, labels)]. *)
Record AssignResult : Type := mkAssignResult {
  num_gts : nat;
  gt_inds : list Z;
  max_overlaps : option vec;
  labels : list Z
}.

(** The attributes [__init__] sets and [assign] only reads.  [debug] is
    [False] by default and otherwise the directory the dump goes to. *)
Record config : Type := mkConfig {
  pc_range : option vec;
  debug : option string;
  stats_one2one_matching : Z
}.

(** The attributes [assign] writes: [layer_indicator] and the counters
    [level_<i>_stats] (here keyed by [i]), each a pair
    (num_q_matched, num_prop_matched). *)
Record state : Type := mkState {
  layer_indicator : Z;
  level_stats : gmap Z (Z * Z)
}.

Definition init_state : state := mkState 0 ∅.

(** What [assign] does to the outside world, in program order: the
    calls of the two match costs and of [normalize_bbox] with their
    arguments, the debug dump (lines 78-101; of what it saves only the
    directory and the cost matrix are kept here), the call of the solver
    with the matrix it receives, and the printed statistics. *)
Inductive event : Type :=
| CallClsCost (cls_pred : matrix) (gt_labels : list Z)
| CallNormalize (gt_bboxes : matrix)
| CallRegCost (pred gt : matrix)
| SaveDebug (dir : string) (cost : matrix)
| CallLSA (cost : matrix)
| PrintStats (layer : Z) (q_share prop_share : fval).

Definition ignore_msg : string :=
  "Only case when gt_bboxes_ignore is None is supported.".

Definition scipy_msg : string :=
  "Please run " +:+ dq +:+ "pip install scipy" +:+ dq +:+ " to install scipy first.".

(** [a / total] on two integer tensors, as line 126 prints it (to two
    decimals): both are taken to float32 and divided there; 0 / 0 is
    NaN. *)
Definition share (a total : Z) : fval :=
  if decide (total = 0) then
    if decide (a = 0) then NaN else if decide (0 < a) then PInf else NInf
  else
    f32 (Fin (to_Q (f32 (Fin (inject_Z a))) / to_Q (f32 (Fin (inject_Z total))))).

(** Lines 114-130: the one-to-one matching statistics.  They count the
    matched rows below [num_q], add the counts to the counters of the
    current level, print the two shares of their sum and move to the next
    level. *)
Definition update_stats (cfg : config) (num_bboxes : nat) (rows : list nat)
  : M state event unit :=
  st ← get;
  if decide (stats_one2one_matching cfg > 0 ∧ layer_indicator st > 0) then
    let num_prop := stats_one2one_matching cfg in
    let num_q := Z.of_nat num_bboxes - num_prop in
    let num_q_matched :=
      Z.of_nat (length (filter (λ r : nat, Z.of_nat r < num_q) rows)) in
    let num_prop_matched := Z.of_nat (length rows) - num_q_matched in
    let old := default (0, 0) (level_stats st !! layer_indicator st) in
    let new := (old.1 + num_q_matched, old.2 + num_prop_matched) in
    let total := new.1 + new.2 in
    _ ← emit (PrintStats (layer_indicator st) (share new.1 total) (share new.2 total));
    put (mkState (layer_indicator st + 1)
                 (<[layer_indicator st := new]> (level_stats st)))
  else mret tt.

(** Line 109: [torch.nan_to_num(cost, nan=100.0, posinf=100.0, neginf=-100.0)]. *)
Definition sanitize_cost (cost : matrix) : matrix :=
  (λ row : vec, nan_to_num 100 100 (-100) <$> row) <$> cost.

Section Assign.
(** [self.cls_cost] and [self.reg_cost] (built by mmdet from the
    configuration), [normalize_bbox] (core/bbox/util.py) and scipy's
    solver, [None] when scipy could not be imported. *)
Variable cls_cost_fn : matrix → list Z → matrix.
Variable reg_cost_fn : matrix → matrix → matrix.
Variable normalize_bbox : matrix → option vec → matrix.
Variable linear_sum_assignment :
  option (matrix → outcome (list nat * list nat)).

(** Lines 65-73: the two arguments of the regression cost.  The
    ground truth is normalised, both sides are scaled by
    [code_weights] when given, and without [with_velo] only the first
    8 code dimensions are kept. *)
Definition reg_inputs (cfg : config) (bbox_pred gt_bboxes : matrix)
    (code_weights : option vec) (with_velo : bool) : matrix * matrix :=
  let normalized_gt_bboxes := normalize_bbox gt_bboxes (pc_range cfg) in
  let bbox_pred' :=
    match code_weights with
    | Some w => mul_rows bbox_pred w
    | None => bbox_pred
    end in
  let normalized_gt_bboxes' :=
    match code_weights with
    | Some w => mul_rows normalized_gt_bboxes w
    | None => normalized_gt_bboxes
    end in
  if with_velo then (bbox_pred', normalized_gt_bboxes')
  else (cols_to 8 bbox_pred', cols_to 8 normalized_gt_bboxes').

(** Lines 61-76: the cost matrix handed to the matching step. *)
Definition cost_matrix (cfg : config)
    (bbox_pred cls_pred gt_bboxes : matrix) (gt_labels : list Z)
    (code_weights : option vec) (with_velo : bool) : matrix :=
  let cls_cost := cls_cost_fn cls_pred gt_labels in
  let args := reg_inputs cfg bbox_pred gt_bboxes code_weights with_velo in
  let reg_cost := reg_cost_fn args.1 args.2 in
  madd cls_cost reg_cost.

(** Lines 103-112: the matching itself. *)
Definition hungarian_match (cost : matrix)
  : M state event (list nat * list nat) :=
  match linear_sum_assignment with
  | None => raise (ImportError scipy_msg)
  | Some lsa =>
      let cost' := sanitize_cost cost in
      _ ← emit (CallLSA cost');
      lift (lsa cost')
  end.

Definition assign (cfg : config)
    (bbox_pred cls_pred gt_bboxes : matrix) (gt_labels : list Z)
    (gt_bboxes_ignore : option matrix) (code_weights : option vec)
    (with_velo : bool) : M state event AssignResult :=
  match gt_bboxes_ignore with
  | Some _ => raise (AssertionError ignore_msg)
  | None =>
      let num_gts := length gt_bboxes in
      let num_bboxes := length bbox_pred in
      (* 1. assign -1 by default *)
      let assigned_gt_inds := replicate num_bboxes (-1) in
      let assigned_labels := replicate num_bboxes (-1) in
      if decide (num_gts = 0%nat ∨ num_bboxes = 0%nat) then
        let assigned_gt_inds :=
          if decide (num_gts = 0%nat)
          then (λ _, 0) <$> assigned_gt_inds
          else assigned_gt_inds in
        mret (mkAssignResult num_gts assigned_gt_inds None assigned_labels)
      else
        (* 2. compute the weighted costs *)
        _ ← emit (CallClsCost cls_pred gt_labels);
        _ ← emit (CallNormalize gt_bboxes);
        let args := reg_inputs cfg bbox_pred gt_bboxes code_weights with_velo in
        _ ← emit (CallRegCost args.1 args.2);
        let cost := cost_matrix cfg bbox_pred cls_pred gt_bboxes gt_labels
                                code_weights with_velo in
        _ ← match debug cfg with
            | Some dir =>
                (* [if self.debug:] an empty path is false *)
                if decide (dir = "") then mret tt else emit (SaveDebug dir cost)
            | None => mret tt
            end;
        (* 3. do Hungarian matching on CPU *)
        '(matched_row_inds, matched_col_inds) ← hungarian_match cost;
        _ ← update_stats cfg num_bboxes matched_row_inds;
        (* 4. assign backgrounds and foregrounds *)
        let assigned_gt_inds := (λ _, 0) <$> assigned_gt_inds in
        assigned_gt_inds ← lift (index_put assigned_gt_inds matched_row_inds
                                   ((λ c : nat, Z.of_nat c + 1) <$> matched_col_inds));
        picked ← lift (gather gt_labels matched_col_inds);
        assigned_labels ← lift (index_put assigned_labels matched_row_inds picked);
        mret (mkAssignResult num_gts assigned_gt_inds None assigned_labels)
  end.
End Assign.

(** Lines 133-139 as a function of the matched indices: every entry is
    background, then the matched rows receive their column (plus one)
    and the label found at that column. *)
Definition fill (num_gts num_bboxes : nat) (gt_labels : list Z)
    (rows cols : list nat) : outcome AssignResult :=
  inds ← index_put (replicate num_bboxes 0) rows ((λ c : nat, Z.of_nat c + 1) <$> cols);
  picked ← gather gt_labels cols;
  labs ← index_put (replicate num_bboxes (-1)) rows picked;
  Ok (mkAssignResult num_gts inds None labs).

Definition is_call_lsa (e : event) : bool :=
  match e with CallLSA _ => true | _ => false end.

(** ** The contract of scipy.optimize.linear_sum_assignment *)

Definition cost_at (cost : matrix) (p : nat * nat) : Q :=
  match cost !! p.1 with
  | Some row => match row !! p.2 with Some x => to_Q x | None => 0%Q end
  | None => 0%Q
  end.

(** [cost[rows, cols].sum()] for the pairs of a matching. *)
Definition total_cost (cost : matrix) (ps : list (nat * nat)) : Q :=
  foldr (λ p acc, (cost_at cost p + acc)%Q) 0%Q ps.

(** A one-to-one matching between rows below [n] and columns below [m]:
    no row and no column is used twice. *)
Definition one_to_one (n m : nat) (ps : list (nat * nat)) : Prop :=
  NoDup ps.*1 ∧ NoDup ps.*2 ∧ Forall (λ p, (p.1 < n)%nat ∧ (p.2 < m)%nat) ps.

(** On an [n] by [m] matrix of finite costs the solver returns the row
    and column indices of a one-to-one matching of size [min n m] whose
    total cost no such matching beats. *)
Definition lsa_contract (lsa : matrix → outcome (list nat * list nat)) : Prop :=
  ∀ (cost : matrix) (n m : nat),
    shape cost n m → all_finite cost →
    ∃ rows cols : list nat,
      lsa cost = Ok (rows, cols)
      ∧ length rows = Nat.min n m ∧ length cols = Nat.min n m
      ∧ one_to_one n m (zip rows cols)
      ∧ ∀ ps, one_to_one n m ps → length ps = Nat.min n m →
              (total_cost cost (zip rows cols) <= total_cost cost ps)%Q.

(** ** A reference solver: exhaustive search *)

(** All matchings of size [k] that use rows of [rows] in order and
    pairwise different columns of [cols]. *)
Fixpoint matchings (rows cols : list nat) (k : nat) : list (list (nat * nat)) :=
  match rows with
  | [] => match k with O => [[]] | S _ => [] end
  | r :: rows' =>
      match k with
      | O => [[]]
      | S k' =>
          (c ← cols;
           ((r, c) ::.) <$> matchings rows' (filter (λ x, x ≠ c) cols) k')
          ++ matchings rows' cols k
      end
  end.

(** The discipline [matchings] keeps, over lists of admissible rows and
    columns instead of bounds. *)
Definition matching_on (rows cols : list nat) (ps : list (nat * nat)) : Prop :=
  NoDup ps.*1 ∧ NoDup ps.*2 ∧ Forall (λ p, p.1 ∈ rows ∧ p.2 ∈ cols) ps.

Definition cheaper (cost : matrix) (best p : list (nat * nat)) : list (nat * nat) :=
  if Qle_bool (total_cost cost best) (total_cost cost p) then best else p.

Definition lsa_brute (cost : matrix) : outcome (list nat * list nat) :=
  if forallb (forallb is_finite) cost then
    let n := length cost in
    let m := from_option length 0%nat (head cost) in
    let k := Nat.min n m in
    let best := foldl (cheaper cost) (zip (seq 0 k) (seq 0 k))
                      (matchings (seq 0 n) (seq 0 m) k) in
    Ok (best.*1, best.*2)
  else Raise ValueError.

(** ** Reference costs, for running [assign] on examples *)

Definition fsub (x y : fval) : fval := fadd x (fneg y).

Definition fabs (x : fval) : fval :=
  match x with
  | NaN => NaN
  | NInf | PInf => PInf
  | Fin a => Fin (Qabs a)
  end.

(** The L1 distance between each prediction and each ground-truth box
    (mmdet's BBoxL1Cost with weight 1). *)
Definition l1_cost (pred gt : matrix) : matrix :=
  (λ p, (λ g, foldr fadd (Fin 0) (zip_with (λ a b, fabs (fsub a b)) p g)) <$> gt) <$> pred.

(** The negated score of each ground-truth label: a classification cost
    without the softmax of mmdet's ClassificationCost. *)
Definition neg_score_cost (cls_pred : matrix) (gt_labels : list Z) : matrix :=
  (λ row, (λ l : Z, fneg (default NaN (row !! Z.to_nat l))) <$> gt_labels) <$> cls_pred.

(** ** A worked example: three predictions, two ground-truth boxes *)

Definition ex_bbox_pred : matrix := [[Fin 1; Fin 2]; [Fin 5; Fin 5]; [NaN; Fin 0]].
Definition ex_cls_pred : matrix := [[Fin 1; Fin 0]; [Fin 0; Fin 1]; [Fin 0; Fin 0]].
Definition ex_gt_bboxes : matrix := [[Fin 5; Fin 4]; [Fin 1; Fin 1]].
Definition ex_gt_labels : list Z := [1; 0].
Definition ex_config : config := mkConfig None None 0.
Definition keep_bbox (b : matrix) (_ : option vec) : matrix := b.
Definition ex_assign (lsa : option (matrix → outcome (list nat * list nat)))
  : state * list event * outcome AssignResult :=
  assign neg_score_cost l1_cost keep_bbox lsa ex_config
         ex_bbox_pred ex_cls_pred ex_gt_bboxes ex_gt_labels None None false init_state.
Definition ex_cost : matrix :=
  cost_matrix neg_score_cost l1_cost keep_bbox ex_config
              ex_bbox_pred ex_cls_pred ex_gt_bboxes ex_gt_labels None false.
Definition repeat_column (_ : matrix) : outcome (list nat * list nat) :=
  Ok ([0; 1]%nat, [0; 0]%nat).

End Hungarian.

(* ===================================================================== *)
(** * NMSFreeCoder *)
(* ===================================================================== *)

Module NMSFree.
Import Float Py.

(** The attributes [__init__] sets.  [decode_single] rebinds
    [self.post_center_range] to a float32 tensor of its numbers; a later
    call makes the tensor again from values that are float32 already, so
    every call sees the same rounded range and the coder has no state
    here. *)
Record config : Type := mkConfig {
  pc_range : vec;
  voxel_size : option vec;
  post_center_range : option vec;
  max_num : Z;
  score_threshold : option fval;
  num_classes : Z
}.

(** The values of the prediction dict. *)
Inductive tensor : Type :=
| Boxes (b : matrix)
| Scores (s : vec)
| Labels (l : list Z).

Definition not_implemented_msg : string :=
  "Need to reorganize output as a batch, only " +:+
  "support post_center_range is not None for now!".

(** [i % n] and [torch.div(i, n, rounding_mode="floor")] on int64
    entries: both follow the sign of the divisor, as [Z.modulo] and
    [Z.div] do, and on a zero divisor both fail (on the CPU) with torch's
    RuntimeError, whose message is ZeroDivisionError. *)
Definition py_mod (n : Z) (i : Z) : outcome Z :=
  if decide (n = 0) then Raise RuntimeError else Ok (i mod n).

Definition floor_div (n : Z) (i : Z) : outcome Z :=
  if decide (n = 0) then Raise RuntimeError else Ok (i / n).

(** [(a >= b).all()] and [(a <= b).all()] over aligned entries. *)
Definition all_ge (a b : vec) : bool := forallb (λ p, fge p.1 p.2) (zip a b).
Definition all_le (a b : vec) : bool := forallb (λ p, fle p.1 p.2) (zip a b).

(** Python's [if x:] on an attribute that is [None] or a float. *)
Definition truthy_opt (x : option fval) : bool :=
  match x with Some t => truthy t | None => false end.

Definition getitem {V} (d : gmap string V) (key : string) : outcome V :=
  match d !! key with Some v => Ok v | None => Raise (KeyError key) end.

Definition item {A} (xs : list A) (i : nat) : outcome A :=
  match xs !! i with Some x => Ok x | None => Raise IndexError end.

(** Lines 74-78: the centre of a box (its first three columns) must
    lie in the range; [thresh_mask] is and-ed in when
    [self.score_threshold] is truthy. *)
Definition keep_mask (cfg : config) (r : vec) (final_box_preds : matrix)
    (thresh_mask : option (list bool)) : list bool :=
  let mask := (λ b : vec, all_ge (take 3 b) (take 3 r)) <$> final_box_preds in
  let mask :=
    zip_with andb mask
      ((λ b : vec, all_le (take 3 b) (drop 3 r)) <$> final_box_preds) in
  if truthy_opt (score_threshold cfg) then
    match thresh_mask with
    | Some tm => zip_with andb mask tm
    | None => mask
    end
  else mask.

(** Line 83: the prediction dict. *)
Definition predictions (boxes3d : matrix) (scores : vec) (labels : list Z)
  : gmap string tensor :=
  <["labels" := Labels labels]>
    (<["scores" := Scores scores]> {["bboxes" := Boxes boxes3d]}).

Section Decode.
(** [torch.sigmoid] on one entry, [Tensor.topk] on a 1-D tensor and
    [denormalize_bbox] (core/bbox/util.py). *)
Variable sigmoid : fval → fval.
Variable topk : vec → Z → outcome (vec * list nat).
Variable denormalize_bbox : matrix → vec → matrix.

(** [cls_scores.sigmoid().view(-1)]. *)
Definition flat_scores (cls_scores : matrix) : vec :=
  concat ((λ row : vec, sigmoid <$> row) <$> cls_scores).

Definition decode_single (cfg : config) (cls_scores bbox_preds : matrix)
  : outcome (gmap string tensor) :=
  let max_num_ := max_num cfg in
  let flat := flat_scores cls_scores in
  let max_num_ := Z.min (Z.of_nat (length flat)) max_num_ in
  '(scores, indexs) ← topk flat max_num_;
  labels ← mapM (λ i : nat, py_mod (num_classes cfg) (Z.of_nat i)) indexs;
  bbox_index ← mapM (λ i : nat, floor_div (num_classes cfg) (Z.of_nat i)) indexs;
  bbox_preds ← gatherZ bbox_preds bbox_index;
  let final_box_preds := denormalize_bbox bbox_preds (pc_range cfg) in
  let final_scores := scores in
  let final_preds := labels in
  (* use score threshold *)
  let thresh_mask :=
    match score_threshold cfg with
    | Some t => Some ((λ s, fge s (f32 t)) <$> final_scores)
    | None => None
    end in
  match post_center_range cfg with
  | Some r =>
      (* the range as a float32 tensor *)
      let post_center_range_ := f32 <$> r in
      let mask := keep_mask cfg post_center_range_ final_box_preds thresh_mask in
      boxes3d ← mask_select mask final_box_preds;
      scores ← mask_select mask final_scores;
      labels ← mask_select mask final_preds;
      Ok (predictions boxes3d scores labels)
  | None => Raise (NotImplementedError not_implemented_msg)
  end.

(** [preds_dicts] maps a name to a tensor of shape
    [nb_dec, bs, num_query, channels]; the last decoder layer is decoded,
    one sample at a time. *)
Definition decode (cfg : config) (preds_dicts : gmap string (list (list matrix)))
  : outcome (list (gmap string tensor)) :=
  cls ← getitem preds_dicts "all_cls_scores";
  all_cls_scores ← item cls (length cls - 1);
  box ← getitem preds_dicts "all_bbox_preds";
  all_bbox_preds ← item box (length box - 1);
  let batch_size := length all_cls_scores in
  mapM (λ i : nat,
          c ← item all_cls_scores i;
          b ← item all_bbox_preds i;
          decode_single cfg c b)
       (seq 0 batch_size).
End Decode.

(** ** The contract of Tensor.topk *)

(** For [0 <= k <= len(xs)], [xs.topk(k)] returns [k] different
    positions of [xs] with the values found there, and no position left
    out holds a value ranked above a chosen one. *)
Definition topk_contract (topk : vec → Z → outcome (vec * list nat)) : Prop :=
  ∀ (xs : vec) (k : Z),
    0 ≤ k ≤ Z.of_nat (length xs) →
    ∃ (vals : vec) (idxs : list nat),
      topk xs k = Ok (vals, idxs)
      ∧ length idxs = Z.to_nat k
      ∧ NoDup idxs
      ∧ Forall2 (λ v i, xs !! i = Some v) vals idxs
      ∧ ∀ i j x y, i ∈ idxs → j ∉ idxs →
                   xs !! i = Some x → xs !! j = Some y → tle y x = true.

(** ** A reference top-k: sort the positions, keep the first [k] *)

Definition ranks_above (xs : vec) (i j : nat) : Prop :=
  tle (default NaN (xs !! j)) (default NaN (xs !! i)) = true.

#[global] Instance ranks_above_dec xs i j : Decision (ranks_above xs i j).
Proof. unfold ranks_above. apply _. Defined.

Definition topk_sort (xs : vec) (k : Z) : outcome (vec * list nat) :=
  if decide (0 ≤ k ≤ Z.of_nat (length xs)) then
    let idxs := take (Z.to_nat k) (merge_sort (ranks_above xs) (seq 0 (length xs))) in
    Ok ((λ i, default NaN (xs !! i)) <$> idxs, idxs)
  else Raise RuntimeError.

(** ** Stand-ins for running [decode_single] on examples *)

(** A rational function with the shape of the logistic sigmoid (values
    strictly between 0 and 1, one half at 0), exact on the special values. *)
Definition sigmoid_like (x : fval) : fval :=
  match x with
  | NaN => NaN
  | NInf => Fin 0
  | PInf => Fin 1
  | Fin a => Fin ((1 # 2) + a / (2 * (1 + Qabs a)))
  end.

(** Moves the centre (columns 0, 1 and 4 of the normalised layout
    cx, cy, w, l, cz, h, ...) to the first three columns. *)
Definition centers_first (b : matrix) (_ : vec) : matrix :=
  (λ row : vec,
     match row with
     | cx :: cy :: w :: l :: cz :: rest => cx :: cy :: cz :: w :: l :: rest
     | _ => row
     end) <$> b.

(** ** Worked examples *)

Definition ex_range : vec := [Fin (-5); Fin (-5); Fin (-5); Fin 5; Fin 5; Fin 5].
Definition ex_config : config := mkConfig [] None (Some ex_range) 4 (Some (Fin (3 # 5))) 2.
Definition ex_cls_scores : matrix := [[Fin 1; Fin (-2)]; [Fin 3; NaN]; [Fin 0; Fin 0]].
Definition ex_bbox_preds : matrix :=
  [[Fin 0; Fin 0; Fin 1; Fin 1; Fin 0; Fin 1];
   [Fin 9; Fin 0; Fin 1; Fin 1; Fin 0; Fin 1];
   [Fin 1; Fin 1; Fin 1; Fin 1; Fin 1; Fin 1]].
Definition ex_decoded : gmap string tensor :=
  predictions [[Fin 0; Fin 0; Fin 0; Fin 1; Fin 1; Fin 1]] [Fin (6 # 8)] [0].
Definition unit_range : vec := [Fin (-1); Fin (-1); Fin (-1); Fin 1; Fin 1; Fin 1].
Definition origin_box : vec :=
  [Fin 0; Fin 0; Fin 0; Fin 0; Fin 0; Fin 0; Fin 0; Fin 1; Fin 0; Fin 0].
Definition zero_threshold_config : config :=
  mkConfig [] None (Some unit_range) 1 (Some (Fin 0)) 1.
Definition top1_config : config :=
  mkConfig [] None (Some unit_range) 1 None 2.
Definition no_range_config : config := mkConfig [] None None 4 None 2.

(** A threshold and a range that are not float32 numbers, 0.7 and
    61.2, with a score and a centre at their float32 neighbours,
    0.699999988... below 0.7 and 61.20000076... above 61.2; the scores are
    given as they are after the sigmoid. *)
Definition f32_range : vec :=
  [Fin (-612 # 10); Fin (-612 # 10); Fin (-612 # 10);
   Fin (612 # 10); Fin (612 # 10); Fin (612 # 10)].
Definition f32_config : config :=
  mkConfig [] None (Some f32_range) 1 (Some (Fin (7 # 10))) 1.
Definition f32_score : fval := Fin (11744051 # 16777216).
Definition f32_box : vec :=
  [Fin (16043213 # 262144); Fin 0; Fin 0; Fin 0; Fin 0; Fin 0; Fin 0; Fin 1; Fin 0; Fin 0].
Definition after_sigmoid (x : fval) : fval := x.

End NMSFree.

(* ===================================================================== *)
(** * MV2DFusionTransformerDecoder *)
(* ===================================================================== *)

Module Decoder.
Import Float Py.

(** [query], [query_pos] and [reference_points] are kept one row per
    (batch, query) position, in the order [dyn_q_mask] lists them; the
    transposes between [num_queries, B, C] and [B, num_queries, C] in the
    source only change that layout.  [dyn_q_coords] has one matrix of
    sample coordinates, [sample_size] by 3, per dynamic query. *)

Definition dot (a b : vec) : fval := foldr fadd (Fin 0) (zip_with fmul a b).

Definition column (d : nat) (m : matrix) : vec :=
  (λ row : vec, default NaN (row !! d)) <$> m.

(** The row vector [p] times the matrix [m]. *)
Definition vec_mat (p : vec) (m : matrix) : vec :=
  (λ d, dot p (column d m)) <$> seq 0 (from_option length 0%nat (head m)).

(** [(dyn_q_probs[:, None] @ dyn_q_coords)[:, 0]]: for each dynamic
    query the combination of its sample coordinates, weighted by its
    probabilities. *)
Definition weighted_coords (dyn_q_probs : matrix) (dyn_q_coords : list matrix)
  : matrix :=
  zip_with vec_mat dyn_q_probs dyn_q_coords.

(** [torch.stack] refuses an empty list. *)
Definition stack {A} (xs : list A) : outcome (list A) :=
  match xs with [] => Raise RuntimeError | _ => Ok xs end.

(** The variables the loop of [forward] rebinds or appends to. *)
Record loop_state : Type := mkLoop {
  query : matrix;
  query_pos : matrix;
  reference_points : matrix;
  dyn_q_logits : matrix;
  intermediate : list matrix;
  intermediate_reference_points : list matrix;
  intermediate_dyn_q_logits : list matrix
}.

Section Forward.
(** [self.layers] (each closed over [*args] and [**kwargs]),
    [self.post_norm], [self.return_intermediate], and the entrywise
    logarithm and row softmax of torch. *)
Variable layers : list (matrix → matrix → matrix → matrix).
Variable post_norm : option (matrix → matrix).
Variable return_intermediate : bool.
Variable flog : fval → fval.
Variable softmax : vec → vec.

(** The keyword arguments that stay fixed through the loop. *)
Variable dyn_q_coords : list matrix.
Variable dyn_q_mask : list bool.
Variable dyn_q_pos_branch : matrix → matrix.
Variable dyn_q_pos_with_prob_branch : matrix → matrix → matrix.
Variable dyn_q_prob_branch : list (matrix → matrix).

(** One pass through the body of the loop, for layer number [i]. *)
Definition step (i : nat) (layer : matrix → matrix → matrix → matrix)
    (st : loop_state) : outcome loop_state :=
  let query_ := layer (query st) (query_pos st) (reference_points st) in
  let interm_q :=
    match post_norm with Some norm => norm query_ | None => query_ end in
  (* get new dyn_q_probs *)
  branch ← NMSFree.item dyn_q_prob_branch i;
  selected ← mask_select dyn_q_mask query_;
  let dyn_q_logits_res := branch selected in
  let dyn_q_logits_ := madd (dyn_q_logits st) dyn_q_logits_res in
  let dyn_q_probs := softmax <$> dyn_q_logits_ in
  (* update reference_points *)
  let dyn_q_ref := weighted_coords dyn_q_probs dyn_q_coords in
  new_reference_points ← masked_put (reference_points st) dyn_q_mask dyn_q_ref;
  (* update query_pos *)
  let dyn_q_pos := dyn_q_pos_branch ((λ m : matrix, concat m) <$> dyn_q_coords) in
  let dyn_q_pos := dyn_q_pos_with_prob_branch dyn_q_pos dyn_q_probs in
  new_query_pos ← masked_put (query_pos st) dyn_q_mask dyn_q_pos;
  Ok (if return_intermediate then
        mkLoop query_ new_query_pos new_reference_points dyn_q_logits_
               (intermediate st ++ [interm_q])
               (intermediate_reference_points st ++ [new_reference_points])
               (intermediate_dyn_q_logits st ++ [dyn_q_logits_])
      else
        mkLoop query_ new_query_pos new_reference_points dyn_q_logits_
               (intermediate st)
               (intermediate_reference_points st)
               (intermediate_dyn_q_logits st)).

(** [for i, layer in enumerate(self.layers)], from layer number [i]. *)
Fixpoint run_layers (i : nat) (ls : list (matrix → matrix → matrix → matrix))
    (st : loop_state) : outcome loop_state :=
  match ls with
  | [] => Ok st
  | layer :: ls' => st' ← step i layer st; run_layers (S i) ls' st'
  end.

Definition forward (query_ query_pos_ reference_points_ dyn_q_probs : matrix)
  : outcome (list matrix * list matrix * list matrix) :=
  if return_intermediate then
    let dyn_q_logits_ := (λ row : vec, flog <$> row) <$> dyn_q_probs in
    st ← run_layers 0 layers
           (mkLoop query_ query_pos_ reference_points_ dyn_q_logits_
                   [] [reference_points_] []);
    out_queries ← stack (intermediate st);
    out_ref_points ← stack (intermediate_reference_points st);
    out_dyn_logits ← stack (intermediate_dyn_q_logits st);
    Ok (out_queries, out_ref_points, out_dyn_logits)
  else Raise (AssertionError "").
End Forward.

(** The position among the dynamic queries of the query at position
    [j] of the mask: the number of true entries before it. *)
Definition dyn_rank (mask : list bool) (j : nat) : nat :=
  count_true (take j mask).

(** [r] is [ref0] wherever the mask is false. *)
Definition static_kept (dyn_q_mask : list bool) (ref0 r : matrix) : Prop :=
  length r = length ref0
  ∧ ∀ j, dyn_q_mask !! j = Some false → r !! j = ref0 !! j.

(** Wherever the mask is true, [r] holds the combination of
    [dyn_q_coords] weighted by the softmax of the logits [lg]. *)
Definition dynamic_set (softmax : vec → vec) (dyn_q_coords : list matrix)
    (dyn_q_mask : list bool) (r lg : matrix) : Prop :=
  ∀ j, dyn_q_mask !! j = Some true →
       r !! j = weighted_coords (softmax <$> lg) dyn_q_coords !! dyn_rank dyn_q_mask j.

(** The invariant of the loop of [forward]: the collected reference
    points start with the initial ones, and every later entry keeps the
    static rows and sets the dynamic ones from the logits of its layer. *)
Definition loop_inv (softmax : vec → vec) (dyn_q_coords : list matrix)
    (dyn_q_mask : list bool) (ref0 : matrix) (st : loop_state) : Prop :=
  static_kept dyn_q_mask ref0 (reference_points st)
  ∧ ∃ rest, intermediate_reference_points st = ref0 :: rest
            ∧ Forall (static_kept dyn_q_mask ref0) rest
            ∧ Forall2 (dynamic_set softmax dyn_q_coords dyn_q_mask) rest
                      (intermediate_dyn_q_logits st)
            ∧ length (intermediate st) = length rest.

(** The row counts [forward] relies on: one row per mask position in
    the three query tensors, and one row per dynamic query elsewhere. *)
Definition loop_shapes (dyn_q_mask : list bool) (num_dyn : nat) (st : loop_state)
  : Prop :=
  length (query st) = length dyn_q_mask
  ∧ length (query_pos st) = length dyn_q_mask
  ∧ length (reference_points st) = length dyn_q_mask
  ∧ length (dyn_q_logits st) = num_dyn.

(** ** Stand-ins for running [forward] on examples *)

Definition same_queries (q _ _ : matrix) : matrix := q.
Definition no_residual (x : matrix) : matrix := (λ _, [Fin 0; Fin 0]) <$> x.
Definition same_entry (x : fval) : fval := x.
Definition same_row (v : vec) : vec := v.
Definition same_matrix (m : matrix) : matrix := m.
Definition first_matrix (a _ : matrix) : matrix := a.

Definition ex_mask : list bool := [true; false; true].
Definition ex_points : matrix :=
  [[Fin 1; Fin 1; Fin 1]; [Fin 2; Fin 2; Fin 2]; [Fin 3; Fin 3; Fin 3]].
Definition ex_coords : list matrix :=
  [[[Fin 0; Fin 0; Fin 0]; [Fin 2; Fin 2; Fin 2]];
   [[Fin 4; Fin 4; Fin 4]; [Fin 6; Fin 6; Fin 6]]].
Definition ex_probs : matrix := [[Fin (1 # 2); Fin (1 # 2)]; [Fin (1 # 4); Fin (3 # 4)]].
Definition ex_forward : outcome (list matrix * list matrix * list matrix) :=
  forward [same_queries; same_queries] None true same_entry same_row
          ex_coords ex_mask same_matrix first_matrix [no_residual; no_residual]
          ex_points ex_points ex_points ex_probs.

End Decoder.

(* ===================================================================== *)
(** * Further examples and observers for HungarianAssigner3D *)
(* ===================================================================== *)

Module HungarianMore.
Import Float Py Hungarian.

Definition is_print_stats (e : event) : bool :=
  match e with PrintStats _ _ _ => true | _ => false end.

(** The attributes of [self] after a call. *)
Definition final_state {A} (r : state * list event * outcome A) : state := r.1.1.

(** Two predictions that differ only in their velocity (columns 8, 9). *)
Definition slow_pred : matrix :=
  [[Fin 1; Fin 2; Fin 0; Fin 0; Fin 3; Fin 0; Fin 0; Fin 1; Fin 0; Fin 0]].
Definition fast_pred : matrix :=
  [[Fin 1; Fin 2; Fin 0; Fin 0; Fin 3; Fin 0; Fin 0; Fin 1; Fin 7; Fin (-4)]].
Definition one_gt : matrix :=
  [[Fin 1; Fin 1; Fin 0; Fin 0; Fin 3; Fin 0; Fin 0; Fin 1; Fin 2; Fin 2]].

(** An assigner in the middle of a run: statistics for 1 proposal, at
    decoder level 2, with earlier counts (4, 1). *)
Definition stats_config : config := mkConfig None None 1.
Definition stats_state : state := mkState 2 {[ 2 := (4, 1) ]}.

(** The example of the previous section without its NaN. *)
Definition finite_bbox_pred : matrix := [[Fin 1; Fin 2]; [Fin 5; Fin 5]; [Fin 0; Fin 0]].

End HungarianMore.

(* ===================================================================== *)
(** * Further examples for NMSFreeCoder *)
(* ===================================================================== *)

Module NMSFreeMore.
Import Float Py NMSFree.

(** Two decoder layers, one sample; only the last layer is well formed. *)
Definition ex_preds : gmap string (list (list matrix)) :=
  <["all_bbox_preds" := [[]; [ex_bbox_preds]]]>
    {["all_cls_scores" := [[[[NaN]]]; [ex_cls_scores]]]}.

(** The config with another [score_threshold]. *)
Definition with_threshold (cfg : config) (t : option fval) : config :=
  mkConfig (pc_range cfg) (voxel_size cfg) (post_center_range cfg)
           (max_num cfg) t (num_classes cfg).

(** [centers_first] on one row. *)
Definition center_first (row : vec) : vec :=
  match row with
  | cx :: cy :: w :: l :: cz :: rest => cx :: cy :: cz :: w :: l :: rest
  | _ => row
  end.

End NMSFreeMore.

(* ===================================================================== *)
(** * Further observers and stand-ins for MV2DFusionTransformerDecoder *)
(* ===================================================================== *)

Module DecoderAux.
Import Float Py Decoder.

(** A loop state with its collected queries normalised. *)
Definition normed (norm : matrix → matrix) (st : loop_state) : loop_state :=
  mkLoop (query st) (query_pos st) (reference_points st) (dyn_q_logits st)
         (norm <$> intermediate st)
         (intermediate_reference_points st) (intermediate_dyn_q_logits st).

(** The three stacks with every tensor of the first one normalised. *)
Definition norm_queries (norm : matrix → matrix)
    (out : list matrix * list matrix * list matrix)
  : list matrix * list matrix * list matrix :=
  (norm <$> out.1.1, out.1.2, out.2).

(** A position branch that gives every dynamic query a row of three
    channels. *)
Definition zero_pos (_ b : matrix) : matrix := (λ _, [Fin 0; Fin 0; Fin 0]) <$> b.

Section Shapes.
(** The sizes the docstring of [forward] names: [n] positions (batch
    times [num_queries]), [C] channels, [D] coordinates, [num_dyn]
    dynamic queries of [sample_size] samples each (at least one). *)
Variables (n C D num_dyn sample_size : nat).

(** What the docstring says of the arguments that stay fixed through
    the loop, and what the modules passed in do to shapes: a layer and
    [post_norm] keep the shape of the queries, a probability branch
    gives one logit per sample, the position branches give one row of
    [C] channels per dynamic query, and the softmax keeps the length of
    a row. *)
Record documented_shapes
    (layers : list (matrix → matrix → matrix → matrix))
    (post_norm : option (matrix → matrix)) (softmax : vec → vec)
    (dyn_q_coords : list matrix) (dyn_q_mask : list bool)
    (dyn_q_pos_branch : matrix → matrix)
    (dyn_q_pos_with_prob_branch : matrix → matrix → matrix)
    (dyn_q_prob_branch : list (matrix → matrix)) : Prop := {
  mask_positions : length dyn_q_mask = n;
  mask_dynamic : count_true dyn_q_mask = num_dyn;
  coords_dynamic : length dyn_q_coords = num_dyn;
  coords_samples : Forall (λ m, shape m sample_size D) dyn_q_coords;
  samples_positive : (0 < sample_size)%nat;
  layers_keep_shape :
    Forall (λ layer, ∀ q p r, shape q n C → shape p n C → shape r n D →
                              shape (layer q p r) n C) layers;
  post_norm_keeps_shape :
    ∀ norm q, post_norm = Some norm → shape q n C → shape (norm q) n C;
  softmax_keeps_length : ∀ v, length (softmax v) = length v;
  prob_branch_shape :
    Forall (λ branch, ∀ x, shape x num_dyn C → shape (branch x) num_dyn sample_size)
           dyn_q_prob_branch;
  pos_branch_shape :
    ∀ probs, shape probs num_dyn sample_size →
      shape (dyn_q_pos_with_prob_branch
               (dyn_q_pos_branch ((λ m : matrix, concat m) <$> dyn_q_coords)) probs)
            num_dyn C
}.

(** The shapes of the variables of the loop. *)
Definition loop_columns (st : loop_state) : Prop :=
  shape (query st) n C
  ∧ shape (query_pos st) n C
  ∧ shape (reference_points st) n D
  ∧ shape (dyn_q_logits st) num_dyn sample_size
  ∧ Forall (λ q, shape q n C) (intermediate st)
  ∧ Forall (λ r, shape r n D) (intermediate_reference_points st)
  ∧ Forall (λ l, shape l num_dyn sample_size) (intermediate_dyn_q_logits st).
End Shapes.

End DecoderAux.

(* ===================================================================== *)
(** * core/bbox/coders/nms_free_coder.py: TrackingNMSFreeCoder *)
(* ===================================================================== *)

Module TrackingNMSFree.
Import Float Py NMSFree.

(** What the methods of this class can raise: the exceptions of [Py],
    and the [TypeError] of [len(None)] and [None[mask]]. *)
Inductive raised : Type :=
| Std (e : exn)
| TypeError (msg : string).

Inductive answer (A : Type) : Type :=
| Done (a : A)
| Fail (e : raised).
Arguments Done {A} a.
Arguments Fail {A} e.

#[global] Instance answer_ret : MRet answer := λ A a, Done a.
#[global] Instance answer_bind : MBind answer := λ A B f o,
  match o with Done a => f a | Fail e => Fail e end.

Definition std {A} (o : outcome A) : answer A :=
  match o with Ok a => Done a | Raise e => Fail (Std e) end.

Definition no_len_msg : string := "object of type 'NoneType' has no len()".
Definition not_subscriptable_msg : string := "'NoneType' object is not subscriptable".

(** Lines 189-193: the two entries added for tracked objects.  The
    object ids are a 1-D integer tensor, as the labels are. *)
Definition with_tracks (d : gmap string tensor) (track_scores : vec) (obj_idxes : list Z)
  : gmap string tensor :=
  <["obj_idxes" := Labels obj_idxes]> (<["track_scores" := Scores track_scores]> d).

Section Decode.
(** [torch.sigmoid] on one entry, [Tensor.topk] on a 1-D tensor,
    [Tensor.max(dim=-1)] on a 2-D tensor (the largest entry of each row
    and its column) and [denormalize_bbox] (core/bbox/util.py). *)
Variable sigmoid : fval → fval.
Variable topk : vec → Z → outcome (vec * list nat).
Variable max_dim : matrix → outcome (vec * list nat).
Variable denormalize_bbox : matrix → vec → matrix.

(** Lines 143-160: the scores, labels, boxes, object ids and track
    scores before filtering. *)
Definition candidates (cfg : config) (tracking_decoding : bool)
    (cls_scores bbox_preds : matrix)
    (obj_idxes : option (list Z)) (track_scores : option vec)
  : answer (vec * list Z * matrix * option (list Z) * option vec) :=
  let max_num_ := max_num cfg in
  let cls_scores := (λ row : vec, sigmoid <$> row) <$> cls_scores in
  if negb tracking_decoding then
    let flat := concat cls_scores in
    let max_num_ := Z.min (Z.of_nat (length flat)) max_num_ in
    '(scores, indexs) ← std (topk flat max_num_);
    labels ← std (mapM (λ i : nat, py_mod (num_classes cfg) (Z.of_nat i)) indexs);
    bbox_index ← std (mapM (λ i : nat, floor_div (num_classes cfg) (Z.of_nat i)) indexs);
    bbox_preds ← std (gatherZ bbox_preds bbox_index);
    match obj_idxes with
    | Some o =>
        obj_idxes ← std (gatherZ o bbox_index);
        let track_scores := scores in
        mret (scores, labels, bbox_preds, Some obj_idxes, Some track_scores)
    | None => mret (scores, labels, bbox_preds, None, track_scores)
    end
  else
    '(track_scores, indexs) ← std (max_dim cls_scores);
    labels ← std (mapM (λ i : nat, py_mod (num_classes cfg) (Z.of_nat i)) indexs);
    n ← match obj_idxes with
        | Some o => mret (length o)
        | None => Fail (TypeError no_len_msg)
        end;
    '(_, bbox_index) ← std (topk track_scores (Z.min max_num_ (Z.of_nat n)));
    track_scores ← std (gather track_scores bbox_index);
    obj_idxes ← match obj_idxes with
                | Some o => std (gather o bbox_index)
                | None => Fail (TypeError not_subscriptable_msg)
                end;
    bbox_preds ← std (gather bbox_preds bbox_index);
    labels ← std (gather labels bbox_index);
    let scores := track_scores in
    mret (scores, labels, bbox_preds, Some obj_idxes, Some track_scores).

Definition decode_single (cfg : config) (tracking_decoding : bool)
    (cls_scores bbox_preds : matrix)
    (obj_idxes : option (list Z)) (track_scores : option vec)
  : answer (gmap string tensor) :=
  '(scores, labels, bbox_preds, obj_idxes, track_scores) ←
    candidates cfg tracking_decoding cls_scores bbox_preds obj_idxes track_scores;
  let final_box_preds := denormalize_bbox bbox_preds (pc_range cfg) in
  let final_scores := scores in
  let final_preds := labels in
  (* use score threshold *)
  let thresh_mask :=
    match score_threshold cfg with
    | Some t => Some ((λ s, fge s (f32 t)) <$> final_scores)
    | None => None
    end in
  match post_center_range cfg with
  | Some r =>
      (* the range as a float32 tensor *)
      let post_center_range_ := f32 <$> r in
      let mask := keep_mask cfg post_center_range_ final_box_preds thresh_mask in
      boxes3d ← std (mask_select mask final_box_preds);
      scores ← std (mask_select mask final_scores);
      labels ← std (mask_select mask final_preds);
      let predictions_dict := predictions boxes3d scores labels in
      match obj_idxes with
      | Some o =>
          track_scores ← match track_scores with
                         | Some ts => std (mask_select mask ts)
                         | None => Fail (TypeError not_subscriptable_msg)
                         end;
          obj_idxes ← std (mask_select mask o);
          mret (with_tracks predictions_dict track_scores obj_idxes)
      | None => mret predictions_dict
      end
  | None => Fail (Std (NotImplementedError not_implemented_msg))
  end.

(** [preds_dicts] with its float tensors (shape
    [nb_dec, bs, num_query, channels]) under their names and the integer
    tensor of the key ["obj_idxes"] (shape [bs, num_query]), if the key is
    there, beside them. *)
Definition decode (cfg : config) (tracking_decoding : bool)
    (preds_dicts : gmap string (list (list matrix)))
    (preds_obj_idxes : option (list (list Z)))
  : answer (list (gmap string tensor)) :=
  cls ← std (getitem preds_dicts "all_cls_scores");
  all_cls_scores ← std (item cls (length cls - 1));
  box ← std (getitem preds_dicts "all_bbox_preds");
  all_bbox_preds ← std (item box (length box - 1));
  let batch_size := length all_cls_scores in
  mapM (λ i : nat,
          c ← std (item all_cls_scores i);
          b ← std (item all_bbox_preds i);
          o ← match preds_obj_idxes with
              | Some obj_idxes => x ← std (item obj_idxes i); mret (Some x)
              | None => mret None
              end;
          decode_single cfg tracking_decoding c b o None)
       (seq 0 batch_size).
End Decode.

(** ** Stand-ins and examples *)

(** The largest entry of each row under the order of [topk] (NaN above
    everything) with the first column where it stands; a row without
    entries has no largest one. *)
Fixpoint row_max (row : vec) : option (fval * nat) :=
  match row with
  | [] => None
  | x :: rest =>
      match row_max rest with
      | Some (y, j) => if tle y x then Some (x, 0%nat) else Some (y, S j)
      | None => Some (x, 0%nat)
      end
  end.

Definition max_rows (m : matrix) : outcome (vec * list nat) :=
  rows ← mapM (M := outcome)
            (λ row, match row_max row with
                    | Some p => Ok p
                    | None => Raise IndexError
                    end) m;
  Ok (rows.*1, rows.*2).

Definition ex_obj_idxes : list Z := [7; -1; 9].

End TrackingNMSFree.

(* ===================================================================== *)
(** * models/utils/mv2dfusion_transformer.py: MV2DFusionTransformerDecoderLayer *)
(* ===================================================================== *)

Module DecoderLayer.
Import Float Py.

(** The layer only routes tensors between its modules, so tensors stay
    abstract: [T] is the type of tensors, [F] the bundle of image and
    point-cloud arguments ([feat_flatten_img], [spatial_flatten_img],
    [level_start_index_img], [pc_range], [lidar2img], [img_metas],
    [feat_flatten_pts], [pos_flatten_pts]) that is handed on unchanged.
    [query_pos] is a tensor, and [temp_memory] comes with its [temp_pos],
    as MV2DFusionTransformer.forward passes them. *)

Definition attn_ops : list string := ["self_attn"; "cross_attn"].
Definition ops : list string := ["norm"; "ffn"] ++ attn_ops.

(** [list.count]. *)
Definition count (x : string) (l : list string) : nat :=
  length (filter (λ y, y = x) l).

(** The message of the assertion on [attn_masks]. *)
Definition masks_msg (given expected : nat) : string :=
  "The length of attn_masks " +:+ pretty given +:+
  " must be equal to the number of attention in operation_order " +:+ pretty expected.

(** A config dict of an attention: its type, its [batch_first] entry
    if it has one, and the rest. *)
Record attn_cfg (C : Type) : Type := mkAttnCfg {
  cfg_type : string;
  cfg_batch_first : option bool;
  cfg_rest : C
}.
Arguments mkAttnCfg {C} _ _ _.
Arguments cfg_type {C} _.
Arguments cfg_batch_first {C} _.
Arguments cfg_rest {C} _.

(** A config dict of a feed-forward network: its [embed_dims] entry if
    it has one, and the rest. *)
Record ffn_cfg (C : Type) : Type := mkFfnCfg {
  ffn_embed_dims : option Z;
  ffn_rest : C
}.
Arguments mkFfnCfg {C} _ _.
Arguments ffn_embed_dims {C} _.
Arguments ffn_rest {C} _.

(** [ffn_cfgs] is one dict or a list of dicts. *)
Inductive ffn_cfgs_arg (C : Type) : Type :=
| FfnDict (c : ffn_cfg C)
| FfnList (l : list (ffn_cfg C)).
Arguments FfnDict {C} c.
Arguments FfnList {C} l.

Section Layer.
Variable T : Type.
Variable F : Type.
(** [Tensor.transpose(0, 1)] and [torch.cat([a, b], dim=0)]. *)
Variable transpose01 : T → T.
Variable cat0 : T → T → T.

(** What an attention module is called with: the arguments of the
    [self_attn] branch and of the [cross_attn] branch. *)
Inductive attn_args : Type :=
| SelfArgs (query key value : T) (identity : option T) (query_pos key_pos : T)
           (attn_mask key_padding_mask : option T)
| CrossArgs (query query_pos : T) (prev_ref_point : option T) (features : F).

Record attention : Type := mkAttention {
  attn_embed_dims : Z;
  attn_call : attn_args → T
}.

Record layer : Type := mkLayer {
  batch_first : bool;
  num_attn : nat;
  operation_order : list string;
  pre_norm : bool;
  attentions : list attention;
  embed_dims : Z;
  ffns : list (T → option T → T);
  norms : list (T → T);
  use_checkpoint : bool
}.

(** ** __init__ *)

Section Init.
Variable CA CF : Type.
(** mmcv's builders, and the two assertion messages that print
    [operation_order]. *)
Variable build_attention : attn_cfg CA → attention.
Variable build_feedforward_network : ffn_cfg CF → T → option T → T.
Variable build_norm_layer : Z → T → T.
Variable order_msg : list string → string.
Variable attn_msg : nat → list string → string.

(** Lines 106-121: one attention per attention operation, each from
    the next config. *)
Fixpoint build_attentions (self_batch_first : bool) (attn_cfgs : list (attn_cfg CA))
    (operation_order : list string) (index : nat) : outcome (list attention) :=
  match operation_order with
  | [] => Ok []
  | operation_name :: rest =>
      if decide (operation_name ∈ attn_ops) then
        cfg ← NMSFree.item attn_cfgs index;
        cfg ← match cfg_batch_first cfg with
              | Some b =>
                  if decide (self_batch_first = b
                             ∨ cfg_type cfg = "PETRMultiheadFlashAttention")
                  then Ok cfg
                  else Raise (AssertionError "")
              | None => Ok (mkAttnCfg (cfg_type cfg) (Some self_batch_first) (cfg_rest cfg))
              end;
        let attention := build_attention cfg in
        others ← build_attentions self_batch_first attn_cfgs rest (S index);
        Ok (attention :: others)
      else build_attentions self_batch_first attn_cfgs rest index
  end.

(** Lines 132-139: one feed-forward network per config. *)
Definition build_ffns (self_embed_dims : Z) (ffn_cfgs : list (ffn_cfg CF)) (num_ffns : nat)
  : outcome (list (T → option T → T)) :=
  mapM (M := outcome)
       (λ ffn_index : nat,
          cfg ← NMSFree.item ffn_cfgs ffn_index;
          cfg ← match ffn_embed_dims cfg with
                | None => Ok (mkFfnCfg (Some self_embed_dims) (ffn_rest cfg))
                | Some d =>
                    if decide (d = self_embed_dims) then Ok cfg
                    else Raise (AssertionError "")
                end;
          Ok (build_feedforward_network cfg))
       (seq 0 num_ffns).

Definition init (attn_cfgs : list (attn_cfg CA)) (ffn_cfgs : ffn_cfgs_arg CF)
    (operation_order : list string) (batch_first with_cp : bool) : outcome layer :=
  if decide (Forall (λ op, op ∈ ops) operation_order) then
    let num_attn := (count "self_attn" operation_order
                     + count "cross_attn" operation_order)%nat in
    if decide (num_attn = length attn_cfgs) then
      first ← NMSFree.item operation_order 0;
      let pre_norm := bool_decide (first = "norm") in
      attentions ← build_attentions batch_first attn_cfgs operation_order 0;
      attention0 ← NMSFree.item attentions 0;
      let embed_dims := attn_embed_dims attention0 in
      let num_ffns := count "ffn" operation_order in
      let ffn_cfgs :=
        match ffn_cfgs with
        | FfnDict c => replicate num_ffns c
        | FfnList l => l
        end in
      if decide (length ffn_cfgs = num_ffns) then
        ffns ← build_ffns embed_dims ffn_cfgs num_ffns;
        let num_norms := count "norm" operation_order in
        let norms := replicate num_norms (build_norm_layer embed_dims) in
        Ok (mkLayer batch_first num_attn operation_order pre_norm attentions
                    embed_dims ffns norms with_cp)
      else Raise (AssertionError "")
    else Raise (AssertionError (attn_msg num_attn operation_order))
  else Raise (AssertionError (order_msg operation_order)).
End Init.

(** ** _forward *)

(** [attn_masks]: None, one tensor, or a list with an entry (a tensor
    or None) per attention. *)
Inductive masks : Type :=
| NoMasks
| OneMask (m : T)
| MaskList (l : list (option T)).

(** The variables the loop over [operation_order] rebinds. *)
Record loop : Type := mkLoop {
  query : T;
  identity : T;
  temp_pos : T;
  norm_index : nat;
  attn_index : nat;
  ffn_index : nat
}.

Section Forward.
Variable self : layer.
Variable query_pos : T.
Variable temp_memory : option T.
Variable features : F.
Variable attn_masks : list (option T).
Variable query_key_padding_mask : option T.
Variable prev_ref_point : option T.

(** The body of the loop for one entry of [operation_order]. *)
Definition apply_op (op : string) (st : loop) : outcome loop :=
  if decide (op = "self_attn") then
    (* Concatenate history query queue *)
    let temp_key :=
      match temp_memory with
      | Some m => cat0 (query st) m
      | None => query st
      end in
    let temp_value := temp_key in
    let temp_pos_ :=
      match temp_memory with
      | Some _ => cat0 query_pos (temp_pos st)
      | None => query_pos
      end in
    attention ← NMSFree.item (attentions self) (attn_index st);
    attn_mask ← NMSFree.item attn_masks (attn_index st);
    let query_ :=
      attn_call attention
        (SelfArgs (query st) temp_key temp_value
                  (if pre_norm self then Some (identity st) else None)
                  query_pos temp_pos_ attn_mask query_key_padding_mask) in
    Ok (mkLoop query_ query_ temp_pos_
               (norm_index st) (S (attn_index st)) (ffn_index st))
  else if decide (op = "norm") then
    norm ← NMSFree.item (norms self) (norm_index st);
    Ok (mkLoop (norm (query st)) (identity st) (temp_pos st)
               (S (norm_index st)) (attn_index st) (ffn_index st))
  else if decide (op = "cross_attn") then
    attention ← NMSFree.item (attentions self) (attn_index st);
    let query_ :=
      attn_call attention
        (CrossArgs (transpose01 (query st)) (transpose01 query_pos)
                   prev_ref_point features) in
    let query_ := transpose01 query_ in
    Ok (mkLoop query_ query_ (temp_pos st)
               (norm_index st) (S (attn_index st)) (ffn_index st))
  else if decide (op = "ffn") then
    ffn ← NMSFree.item (ffns self) (ffn_index st);
    Ok (mkLoop (ffn (query st) (if pre_norm self then Some (identity st) else None))
               (identity st) (temp_pos st)
               (norm_index st) (attn_index st) (S (ffn_index st)))
  else Raise (NotImplementedError "").

Fixpoint run_ops (order : list string) (st : loop) : outcome loop :=
  match order with
  | [] => Ok st
  | op :: rest => st' ← apply_op op st; run_ops rest st'
  end.
End Forward.

Definition _forward (self : layer) (query_ query_pos : T) (temp : option (T * T))
    (features : F) (attn_masks : masks)
    (query_key_padding_mask prev_ref_point : option T) : outcome T :=
  attn_masks ←
    match attn_masks with
    | NoMasks => Ok (replicate (num_attn self) None)
    | OneMask m => Ok (replicate (num_attn self) (Some m))
    | MaskList l =>
        if decide (length l = num_attn self) then Ok l
        else Raise (AssertionError (masks_msg (length l) (num_attn self)))
    end;
  let temp_pos_ := match temp with Some (_, p) => p | None => query_pos end in
  st ← run_ops self query_pos (fst <$> temp) features attn_masks
               query_key_padding_mask prev_ref_point
               (operation_order self) (mkLoop query_ query_ temp_pos_ 0 0 0);
  Ok (query st).

(** [forward] runs [_forward], under torch's checkpointing when
    [use_checkpoint] is set and the module is training; checkpointing
    changes what is kept for the backward pass, not the value. *)
Definition forward (self : layer) (training : bool) (query_ query_pos : T)
    (temp : option (T * T)) (features : F) (attn_masks : masks)
    (query_key_padding_mask prev_ref_point : option T) : outcome T :=
  if use_checkpoint self && training then
    _forward self query_ query_pos temp features attn_masks
             query_key_padding_mask prev_ref_point
  else
    _forward self query_ query_pos temp features attn_masks
             query_key_padding_mask prev_ref_point.

(** MV2DFusionTransformer.forward, line 627: the masks every layer of
    the decoder receives. *)
Definition transformer_masks (attn_masks : option T) : masks :=
  MaskList [attn_masks; None].

(** What __init__ leaves true of a layer. *)
Definition well_formed (self : layer) : Prop :=
  Forall (λ op, op ∈ ops) (operation_order self)
  ∧ num_attn self = (count "self_attn" (operation_order self)
                     + count "cross_attn" (operation_order self))%nat
  ∧ length (attentions self) = num_attn self
  ∧ length (ffns self) = count "ffn" (operation_order self)
  ∧ length (norms self) = count "norm" (operation_order self).

(** [attn_masks] is None, a tensor, or a list of [num_attn] entries. *)
Definition masks_fit (self : layer) (attn_masks : masks) : Prop :=
  match attn_masks with
  | MaskList l => length l = num_attn self
  | _ => True
  end.
End Layer.

Arguments SelfArgs {T F}.
Arguments CrossArgs {T F}.
Arguments mkAttention {T F}.
Arguments attn_embed_dims {T F}.
Arguments attn_call {T F}.
Arguments mkLayer {T F}.
Arguments batch_first {T F}.
Arguments num_attn {T F}.
Arguments operation_order {T F}.
Arguments pre_norm {T F}.
Arguments attentions {T F}.
Arguments embed_dims {T F}.
Arguments ffns {T F}.
Arguments norms {T F}.
Arguments use_checkpoint {T F}.
Arguments NoMasks {T}.
Arguments OneMask {T}.
Arguments MaskList {T}.
Arguments mkLoop {T}.
Arguments query {T}.
Arguments identity {T}.
Arguments temp_pos {T}.
Arguments norm_index {T}.
Arguments attn_index {T}.
Arguments ffn_index {T}.
Arguments build_attentions {T F CA}.
Arguments build_ffns {T CF}.
Arguments init {T F CA CF}.
Arguments apply_op {T F}.
Arguments run_ops {T F}.
Arguments _forward {T F}.
Arguments forward {T F}.
Arguments transformer_masks {T}.
Arguments well_formed {T F}.
Arguments masks_fit {T F}.

(** ** Stand-ins for running a layer on examples *)

(** Tensors are lists of the names of the modules applied so far. *)
Definition ex_attention (name : string) : attention (list string) unit :=
  mkAttention 256
    (λ args, match args with
             | SelfArgs q _ _ _ _ _ _ _ => q ++ [name]
             | CrossArgs q _ _ _ => q ++ [name]
             end).
Definition ex_build_attention (cfg : attn_cfg string) : attention (list string) unit :=
  ex_attention (cfg_type cfg).
Definition ex_build_ffn (_ : ffn_cfg unit) (q : list string) (_ : option (list string))
  : list string := q ++ ["FFN"].
Definition ex_build_norm (_ : Z) (q : list string) : list string := q ++ ["LN"].
Definition ex_order_msg (_ : list string) : string := "operation_order".
Definition ex_attn_msg (_ : nat) (_ : list string) : string := "attn_cfgs".

Definition ex_attn_cfgs : list (attn_cfg string) :=
  [mkAttnCfg "PETRMultiheadFlashAttention" None "self";
   mkAttnCfg "MixedCrossAttention" None "cross"].
Definition ex_operation_order : list string :=
  ["self_attn"; "norm"; "cross_attn"; "norm"; "ffn"; "norm"].

Definition ex_layer : layer (list string) unit :=
  mkLayer false 2 ex_operation_order false
    [ex_attention "PETRMultiheadFlashAttention"; ex_attention "MixedCrossAttention"]
    256 [ex_build_ffn (mkFfnCfg (Some 256) tt)]
    (replicate 3 (ex_build_norm 256)) true.

End DecoderLayer.

(* ===================================================================== *)
(** * models/utils/mv2dfusion_transformer.py: PETRMultiheadFlashAttention *)
(* ===================================================================== *)

Module FlashAttention.
Import Float Py DecoderLayer.

Section Forward.
(** Tensors [T] with their shapes [S], [a + b], [Tensor.transpose(0, 1)],
    [self.attn(q=, k=, v=, key_padding_mask=None)[0]] and
    [self.dropout_layer(self.proj_drop(out))]. *)
Context {T S : Type} `{EqDecision S}.
Variable shape : T → S.
Variable add : T → T → T.
Variable transpose01 : T → T.
Variable attn : T → T → T → T.
Variable dropout : T → T.

Definition forward (batch_first : bool) (query : T)
    (key value identity query_pos key_pos attn_mask key_padding_mask : option T) : T :=
  let key := match key with None => query | Some k => k end in
  let value := match value with None => key | Some v => v end in
  let identity := match identity with None => query | Some i => i end in
  let key_pos :=
    match key_pos with
    | None =>
        match query_pos with
        | Some qp =>
            (* use query_pos if key_pos is not available *)
            if decide (shape qp = shape key) then Some qp else None
        | None => None
        end
    | Some kp => Some kp
    end in
  let query := match query_pos with Some qp => add query qp | None => query end in
  let key := match key_pos with Some kp => add key kp | None => key end in
  let query := if batch_first then transpose01 query else query in
  let key := if batch_first then transpose01 key else key in
  let value := if batch_first then transpose01 value else value in
  let out := attn query key value in
  let out := if batch_first then transpose01 out else out in
  add identity (dropout out).

End Forward.

(** An attention module of a decoder layer that answers the call of
    the [self_attn] branch as this class does, with its own attention
    weights and dropout. *)
Definition petr_flash {T S F : Type} `{EqDecision S} (shape : T → S) (add : T → T → T)
    (transpose01 : T → T) (att : attention T F) : Prop :=
  ∃ (batch_first : bool) (attn : T → T → T → T) (dropout : T → T),
    ∀ (query key value : T) (identity : option T) (query_pos key_pos : T)
      (attn_mask key_padding_mask : option T),
      attn_call att (SelfArgs query key value identity query_pos key_pos
                              attn_mask key_padding_mask)
      = forward shape add transpose01 attn dropout batch_first query (Some key)
                (Some value) identity (Some query_pos) (Some key_pos)
                attn_mask key_padding_mask.

(** The attention operations of [operation_order], in order: the
    i-th of them is served by [self.attentions[i]]. *)
Definition attn_kinds (operation_order : list string) : list string :=
  filter (λ op, op ∈ attn_ops) operation_order.

(** From position [index] of [self.attentions] on, the modules that
    the [self_attn] operations of [order] call are
    PETRMultiheadFlashAttention modules. *)
Definition flash_from {T S F : Type} `{EqDecision S} (shape : T → S)
    (add : T → T → T) (transpose01 : T → T) (self : layer T F)
    (order : list string) (index : nat) : Prop :=
  ∀ (i : nat) (att : attention T F),
    attn_kinds order !! i = Some "self_attn" →
    attentions self !! (index + i)%nat = Some att →
    petr_flash shape add transpose01 att.

(** Every attention module that a [self_attn] operation of the layer
    calls is a PETRMultiheadFlashAttention. *)
Definition self_attn_is_flash {T S F : Type} `{EqDecision S} (shape : T → S)
    (add : T → T → T) (transpose01 : T → T) (self : layer T F) : Prop :=
  flash_from shape add transpose01 self (operation_order self) 0.

(** ** Stand-ins *)

(** [ex_attention] with the self-attention call answered by [forward]:
    adding writes the second tensor after the first, attention keeps the
    query and marks it. *)
Definition ex_flash : attention (list string) unit :=
  mkAttention 256
    (λ args, match args with
             | SelfArgs q k v i qp kp m kpm =>
                 forward (λ t : list string, length t) (λ a b, a ++ b) (λ t, t)
                         (λ q _ _, q ++ ["flash"]) (λ t, t)
                         false q (Some k) (Some v) i (Some qp) (Some kp) m kpm
             | CrossArgs q _ _ _ => q ++ ["cross"]
             end).

Definition ex_flash_layer : layer (list string) unit :=
  mkLayer false 2 ex_operation_order false [ex_flash; ex_attention "MixedCrossAttention"]
    256 [ex_build_ffn (mkFfnCfg (Some 256) tt)]
    (replicate 3 (ex_build_norm 256)) true.

End FlashAttention.

(* ===================================================================== *)
(** * models/utils/mv2dfusion_transformer.py: MixedCrossAttention.pos2posemb2d *)
(* ===================================================================== *)

Module PosEmbed.
Import Float Py.

(** [xs[0::2]]; [xs[1::2]] is [stride2 (tail xs)]. *)
Fixpoint stride2 {A} (xs : list A) : list A :=
  match xs with
  | x :: _ :: rest => x :: stride2 rest
  | [x] => [x]
  | [] => []
  end.

(** [torch.stack((a, b), dim=-1).flatten(-2)] on 1-D tensors: the
    entries of [a] and [b] in turn; tensors of different sizes cannot be
    stacked. *)
Fixpoint interleave {A} (a b : list A) : list A :=
  match a, b with
  | x :: a', y :: b' => x :: y :: interleave a' b'
  | _, _ => []
  end.

Definition stack_flatten {A} (a b : list A) : outcome (list A) :=
  if decide (length a = length b) then Ok (interleave a b) else Raise RuntimeError.

Section Pos.
(** Float arithmetic stays abstract: sine, cosine, product, quotient,
    [2 * math.pi], and [temperature ** (a / num_pos_feats)] as a function
    of the integer [a] and of [num_pos_feats]. *)
Variable fsin fcos : fval → fval.
Variable mul div : fval → fval → fval.
Variable two_pi : fval.
Variable power : nat → nat → fval.

(** [temperature ** (2 * floor(arange(n) / 2) / n)]. *)
Definition dim_t (num_pos_feats : nat) : vec :=
  (λ i : nat, power (2 * (i / 2)) num_pos_feats) <$> seq 0 num_pos_feats.

(** The embedding of one coordinate: sines at the even positions,
    cosines at the odd ones. *)
Definition embed_coord (p : fval) (num_pos_feats : nat) : outcome vec :=
  let scaled := (λ d, div p d) <$> dim_t num_pos_feats in
  stack_flatten (fsin <$> stride2 scaled) (fcos <$> stride2 (tail scaled)).

(** [pos] is the last dimension of the tensor, one point. *)
Definition pos2posemb2d (pos : vec) (num_pos_feats : nat) : outcome vec :=
  let pos := (λ p, mul p two_pi) <$> pos in
  x ← NMSFree.item pos 0;
  y ← NMSFree.item pos 1;
  pos_x ← embed_coord x num_pos_feats;
  pos_y ← embed_coord y num_pos_feats;
  Ok (pos_y ++ pos_x).
End Pos.

End PosEmbed.

(* ===================================================================== *)
(** * models/utils/mv2dfusion_transformer.py: MV2DFusionTransformerDecoder.__init__ *)
(* ===================================================================== *)

Module DecoderInit.
Import Float Py.

(** [transformerlayers]: one config dict, a list of them, or anything
    else. *)
Inductive layers_cfg (C : Type) : Type :=
| CfgDict (c : C)
| CfgList (l : list C)
| CfgOther.
Arguments CfgDict {C} c.
Arguments CfgList {C} l.
Arguments CfgOther {C}.

(** The attributes [__init__] sets. *)
Record decoder (L N : Type) : Type := mkDecoder {
  num_layers : Z;
  layers : list L;
  embed_dims : Z;
  pre_norm : bool;
  return_intermediate : bool;
  post_norm : option N
}.
Arguments mkDecoder {L N}.
Arguments num_layers {L N}.
Arguments layers {L N}.
Arguments embed_dims {L N}.
Arguments pre_norm {L N}.
Arguments return_intermediate {L N}.
Arguments post_norm {L N}.

Section Init.
(** Layer configs [C], layers [L] with their attributes [embed_dims]
    and [pre_norm], norm configs [NC] and norm modules [N]; mmcv's
    builders, of which the first runs the [__init__] of the layer and
    raises what it raises. *)
Context {C L N NC : Type}.
Variable build_transformer_layer : C → outcome L.
Variable layer_embed_dims : L → Z.
Variable layer_pre_norm : L → bool.
Variable build_norm_layer : NC → Z → N.

Definition init (transformerlayers : layers_cfg C) (num_layers_ : Z)
    (post_norm_cfg : option NC) (return_intermediate_ : bool) : outcome (decoder L N) :=
  (* base transformer decoder *)
  transformerlayers ←
    match transformerlayers with
    | CfgDict c => Ok (replicate (Z.to_nat num_layers_) c)
    | CfgList l =>
        if decide (Z.of_nat (length l) = num_layers_) then Ok l
        else Raise (AssertionError "")
    | CfgOther => Raise (AssertionError "")
    end;
  layers_ ← mapM (M := outcome)
                 (λ i : nat,
                    cfg ← NMSFree.item transformerlayers i;
                    build_transformer_layer cfg)
                 (seq 0 (Z.to_nat num_layers_));
  first ← NMSFree.item layers_ 0;
  let embed_dims_ := layer_embed_dims first in
  let pre_norm_ := layer_pre_norm first in
  (* custom transformer decoder *)
  let post_norm_ :=
    match post_norm_cfg with
    | Some cfg => Some (build_norm_layer cfg embed_dims_)
    | None => None
    end in
  Ok (mkDecoder num_layers_ layers_ embed_dims_ pre_norm_ return_intermediate_ post_norm_).
End Init.

(** ** Stand-ins *)

(** Layers are their names; a config without a name cannot be built. *)
Definition ex_build (cfg : string) : outcome string :=
  if decide (cfg = "") then Raise (AssertionError "") else Ok cfg.

Definition ex_decoder : decoder string Z :=
  mkDecoder 2 ["layer"; "layer"] 5 false true (Some 5).

End DecoderInit.

(* ===================================================================== *)
(** * Facts about the Python operations *)
(* ===================================================================== *)

Module PyFacts.
Import Float Py.

Lemma mapM_outcome_Ok {A B} (f : A → outcome B) (l : list A) (k : list B) :
  mapM (M := outcome) f l = Ok k ↔ Forall2 (λ x y, f x = Ok y) l k.
Proof.
  revert k. induction l as [|x l IH]; intros k; simpl.
  - split.
    + intros [= <-]. constructor.
    + intros H. inversion H. reflexivity.
  - unfold mbind, outcome_bind at 1. destruct (f x) as [y|e] eqn:Hfx.
    + unfold mbind, outcome_bind at 1. destruct (mapM f l) as [k'|e] eqn:Hl.
      * split.
        -- intros [= <-]. constructor; [done|]. by apply IH.
        -- intros H. inversion H as [|? y' ? k'' Hy Hk]; subst.
           rewrite Hfx in Hy. injection Hy as <-.
           apply IH in Hk. by injection Hk as <-.
      * split; [done|].
        intros H. inversion H as [|? y' ? k'' Hy Hk]; subst.
        apply IH in Hk. done.
    + split; [done|].
      intros H. inversion H as [|? y' ? k'' Hy Hk]; subst. congruence.
Qed.

Lemma mapM_outcome_total {A B} (f : A → outcome B) (l : list A) :
  Forall (λ x, ∃ y, f x = Ok y) l → ∃ k, mapM (M := outcome) f l = Ok k.
Proof.
  induction 1 as [|x l [y Hy] _ [k Hk]].
  - exists []. reflexivity.
  - exists (y :: k). apply mapM_outcome_Ok. constructor; [done|].
    by apply mapM_outcome_Ok.
Qed.

Lemma gather_Ok {A} (xs : list A) (idx : list nat) (ys : list A) :
  gather xs idx = Ok ys ↔ Forall2 (λ i y, xs !! i = Some y) idx ys.
Proof.
  unfold gather. rewrite mapM_outcome_Ok.
  split; intros H; induction H; constructor; auto.
  - destruct (xs !! x); congruence.
  - rewrite H. reflexivity.
Qed.

Lemma gather_total {A} (xs : list A) (idx : list nat) :
  Forall (λ i, (i < length xs)%nat) idx → ∃ ys, gather xs idx = Ok ys.
Proof.
  intros H. apply mapM_outcome_total.
  eapply Forall_impl; [exact H|]. intros i Hi; simpl in Hi.
  destruct (lookup_lt_is_Some_2 xs i Hi) as [x Hx]. exists x. by rewrite Hx.
Qed.

(** [index_put] succeeds when every index is in range and there is one
    value per index; positions that are not written keep their entry. *)
Lemma index_put_total {A} (idx : list nat) : ∀ (xs vals : list A),
  Forall (λ i, (i < length xs)%nat) idx → length idx = length vals →
  ∃ ys, index_put xs idx vals = Ok ys.
Proof.
  induction idx as [|i idx IH]; intros xs [|v vals] Hin Hlen; simpl in *; try lia.
  - eauto.
  - inversion Hin as [|? ? Hi Hin']; subst.
    rewrite decide_True by done. apply IH; [|lia].
    eapply Forall_impl; [exact Hin'|]. intros j Hj. simpl in *.
    by rewrite length_insert.
Qed.

Lemma index_put_length {A} (idx : list nat) : ∀ (xs vals ys : list A),
  index_put xs idx vals = Ok ys → length ys = length xs.
Proof.
  induction idx as [|i idx IH]; intros xs [|v vals] ys H; simpl in *; try done.
  - by injection H as <-.
  - case_decide; [|done]. apply IH in H. by rewrite length_insert in H.
Qed.

Lemma index_put_frame {A} (idx : list nat) : ∀ (xs vals ys : list A) (j : nat),
  index_put xs idx vals = Ok ys → j ∉ idx → ys !! j = xs !! j.
Proof.
  induction idx as [|i idx IH]; intros xs [|v vals] ys j H Hj; simpl in *; try done.
  - by injection H as <-.
  - case_decide; [|done]. apply not_elem_of_cons in Hj as [Hji Hj].
    rewrite (IH _ _ _ j H Hj). by apply list_lookup_insert_ne.
Qed.

(** With pairwise different indices, each written position holds the
    value paired with it. *)
Lemma index_put_written {A} (idx : list nat) : ∀ (xs vals ys : list A) (k i : nat) (v : A),
  index_put xs idx vals = Ok ys → NoDup idx →
  idx !! k = Some i → vals !! k = Some v → ys !! i = Some v.
Proof.
  induction idx as [|i0 idx IH]; intros xs [|v0 vals] ys k i v H Hnd Hi Hv;
    simpl in *; try done.
  case_decide as Hlt; [|done]. inversion Hnd as [|? ? Hnotin Hnd']; subst.
  destruct k as [|k]; simpl in *.
  - injection Hi as <-. injection Hv as <-.
    rewrite (index_put_frame _ _ _ _ _ H Hnotin).
    by apply list_lookup_insert_eq.
  - eapply IH; eauto.
Qed.

Lemma select_length_le {A} (mask : list bool) : ∀ xs : list A,
  (length (select mask xs) ≤ length xs)%nat.
Proof.
  induction mask as [|b mask IH]; intros [|x xs]; simpl; try lia.
  specialize (IH xs). destruct b; simpl; lia.
Qed.

(** Every selected entry sits at a position where the mask is true. *)
Lemma select_elem {A} (mask : list bool) : ∀ (xs : list A) (x : A),
  x ∈ select mask xs → ∃ i, mask !! i = Some true ∧ xs !! i = Some x.
Proof.
  induction mask as [|b mask IH]; intros [|y xs] x Hx; simpl in *;
    try (by apply elem_of_nil in Hx).
  destruct b.
  - apply elem_of_cons in Hx as [->|Hx].
    + exists 0%nat. done.
    + destruct (IH _ _ Hx) as (i & ? & ?). by exists (S i).
  - destruct (IH _ _ Hx) as (i & ? & ?). by exists (S i).
Qed.

(** Two tensors filtered by one mask stay aligned. *)
Lemma select_zip {A B} (mask : list bool) : ∀ (xs : list A) (ys : list B),
  select mask (zip xs ys) = zip (select mask xs) (select mask ys).
Proof.
  induction mask as [|b mask IH]; intros [|x xs] [|y ys]; simpl; try done.
  - by destruct b, (select mask xs).
  - destruct b; simpl; by rewrite IH.
Qed.

Lemma masked_put_length {A} (xs : list A) : ∀ (mask : list bool) (vals ys : list A),
  masked_put xs mask vals = Ok ys → length ys = length xs.
Proof.
  induction xs as [|x xs IH]; intros [|b mask] vals ys H; simpl in *; try done.
  - destruct vals; [|done]. by injection H as <-.
  - destruct b.
    + destruct vals as [|v vals]; [done|].
      destruct (masked_put xs mask vals) as [ys'|] eqn:E; [|done].
      injection H as <-. simpl. f_equal. eauto.
    + destruct (masked_put xs mask vals) as [ys'|] eqn:E; [|done].
      injection H as <-. simpl. f_equal. eauto.
Qed.

(** Frame property of a masked write: where the mask is false the
    entry is the old one. *)
Lemma masked_put_frame {A} (xs : list A) : ∀ (mask : list bool) (vals ys : list A) (j : nat),
  masked_put xs mask vals = Ok ys → mask !! j = Some false → ys !! j = xs !! j.
Proof.
  induction xs as [|x xs IH]; intros [|b mask] vals ys j H Hj; simpl in *; try done.
  destruct b.
  - destruct vals as [|v vals]; [done|].
    destruct (masked_put xs mask vals) as [ys'|] eqn:E; [|done].
    injection H as <-. destruct j as [|j]; [done|]. simpl in *. eauto.
  - destruct (masked_put xs mask vals) as [ys'|] eqn:E; [|done].
    injection H as <-. destruct j as [|j]; [done|]. simpl in *. eauto.
Qed.

Lemma count_true_cons (b : bool) (mask : list bool) :
  count_true (b :: mask) = ((if b then 1 else 0) + count_true mask)%nat.
Proof.
  unfold count_true. destruct b.
  - by rewrite filter_cons_True.
  - by rewrite filter_cons_False.
Qed.

(** Where the mask is true the entry is the value of that rank. *)
Lemma masked_put_written {A} (xs : list A) : ∀ (mask : list bool) (vals ys : list A) (j : nat),
  masked_put xs mask vals = Ok ys → mask !! j = Some true →
  ys !! j = vals !! count_true (take j mask).
Proof.
  induction xs as [|x xs IH]; intros [|b mask] vals ys j H Hj; try done.
  destruct j as [|j].
  - injection Hj as ->. simpl in H. destruct vals as [|v vals]; [done|].
    destruct (masked_put xs mask vals) as [ys'|] eqn:E; [|done].
    by injection H as <-.
  - change (take (S j) (b :: mask)) with (b :: take j mask).
    rewrite count_true_cons. change ((b :: mask) !! S j) with (mask !! j) in Hj.
    simpl in H. destruct b.
    + destruct vals as [|v vals]; [done|].
      destruct (masked_put xs mask vals) as [ys'|] eqn:E; [|done].
      injection H as <-. simpl. by apply (IH _ _ _ _ E).
    + destruct (masked_put xs mask vals) as [ys'|] eqn:E; [|done].
      injection H as <-. simpl. by apply (IH _ _ _ _ E).
Qed.

Lemma masked_put_total {A} (xs : list A) : ∀ (mask : list bool) (vals : list A),
  length mask = length xs → length vals = count_true mask →
  ∃ ys, masked_put xs mask vals = Ok ys.
Proof.
  induction xs as [|x xs IH]; intros [|b mask] vals Hm Hv; simpl in Hm; try lia.
  - destruct vals; [eauto|]. done.
  - rewrite count_true_cons in Hv. simpl. destruct b.
    + destruct vals as [|v vals]; [done|].
      simpl in Hv. destruct (IH mask vals) as [ys Hys]; [lia|lia|].
      rewrite Hys. eauto.
    + destruct (IH mask vals) as [ys Hys]; [lia|done|]. rewrite Hys. eauto.
Qed.

End PyFacts.

(* ===================================================================== *)
(** * Facts about HungarianAssigner3D.assign *)
(* ===================================================================== *)

Module HungarianFacts.
Import Float Py Hungarian PyFacts.

Lemma sanitize_cost_finite (cost : matrix) : all_finite (sanitize_cost cost).
Proof.
  unfold all_finite, sanitize_cost.
  apply Forall_fmap, Forall_true. intros row. simpl.
  apply Forall_fmap, Forall_true. intros x. by destruct x.
Qed.

Lemma sanitize_cost_shape (cost : matrix) (n m : nat) :
  shape cost n m → shape (sanitize_cost cost) n m.
Proof.
  unfold shape, sanitize_cost. intros [Hn Hm]. split.
  - by rewrite length_fmap.
  - apply Forall_fmap. eapply Forall_impl; [exact Hm|].
    intros row Hrow. simpl. by rewrite length_fmap.
Qed.

Lemma sanitize_cost_lookup (cost : matrix) (r c : nat) (row : vec) (x : fval) :
  cost !! r = Some row → row !! c = Some x →
  ∃ row', sanitize_cost cost !! r = Some row'
          ∧ row' !! c = Some (nan_to_num 100 100 (-100) x).
Proof.
  intros Hr Hc. exists (nan_to_num 100 100 (-100) <$> row). split.
  - unfold sanitize_cost. by rewrite list_lookup_fmap, Hr.
  - by rewrite list_lookup_fmap, Hc.
Qed.

Section Assign.
Variable cls_cost_fn : matrix → list Z → matrix.
Variable reg_cost_fn : matrix → matrix → matrix.
Variable normalize_bbox : matrix → option vec → matrix.

Abbreviation assign_ lsa := (assign cls_cost_fn reg_cost_fn normalize_bbox lsa).
Abbreviation cost_matrix_ := (cost_matrix cls_cost_fn reg_cost_fn normalize_bbox).

Lemma assign_degenerate lsa cfg bbox_pred cls_pred gt_bboxes gt_labels cw velo st :
  length gt_bboxes = 0%nat ∨ length bbox_pred = 0%nat →
  assign_ lsa cfg bbox_pred cls_pred gt_bboxes gt_labels None cw velo st
  = (st, [], Ok (mkAssignResult (length gt_bboxes)
                   (if decide (length gt_bboxes = 0%nat)
                    then replicate (length bbox_pred) 0
                    else replicate (length bbox_pred) (-1))
                   None (replicate (length bbox_pred) (-1)))).
Proof.
  intros Hdeg. unfold assign. rewrite decide_True by done.
  case_decide; [|done]. by rewrite fmap_replicate.
Qed.

Lemma assign_result lsa cfg bbox_pred cls_pred gt_bboxes gt_labels cw velo st :
  length gt_bboxes ≠ 0%nat → length bbox_pred ≠ 0%nat →
  result (assign_ (Some lsa) cfg bbox_pred cls_pred gt_bboxes gt_labels None cw velo st)
  = (p ← lsa (sanitize_cost (cost_matrix_ cfg bbox_pred cls_pred gt_bboxes gt_labels cw velo));
     fill (length gt_bboxes) (length bbox_pred) gt_labels p.1 p.2).
Proof.
  intros Hg Hb. unfold assign. rewrite decide_False by tauto.
  unfold fill, hungarian_match, update_stats, result.
  unfold mbind, M_bind, bind, emit, lift, get, put, mret, M_ret, ret, outcome_bind.
  simpl. destruct (debug cfg) as [dir|]; [destruct (decide (dir = "")) as [Hdir|Hdir]|]; simpl;
    (destruct (lsa _) as [[rows cols]|e]; simpl; [|done]);
    rewrite fmap_replicate;
    (case_decide; simpl);
    (destruct (index_put (replicate _ 0) _ _); simpl; [|done]);
    (destruct (gather _ _); simpl; [|done]);
    (destruct (index_put (replicate _ (-1)) _ _); simpl; done).
Qed.

(** The run depends on the solver only through its answer on the
    sanitised cost matrix. *)
Lemma assign_solver_ext lsa lsa' cfg bbox_pred cls_pred gt_bboxes gt_labels ign cw velo st :
  lsa (sanitize_cost (cost_matrix_ cfg bbox_pred cls_pred gt_bboxes gt_labels cw velo))
  = lsa' (sanitize_cost (cost_matrix_ cfg bbox_pred cls_pred gt_bboxes gt_labels cw velo)) →
  assign_ (Some lsa) cfg bbox_pred cls_pred gt_bboxes gt_labels ign cw velo st
  = assign_ (Some lsa') cfg bbox_pred cls_pred gt_bboxes gt_labels ign cw velo st.
Proof.
  intros H. unfold assign, hungarian_match. destruct ign; [reflexivity|].
  case_decide; [reflexivity|]. by rewrite H.
Qed.

Lemma assign_ignored lsa cfg bbox_pred cls_pred gt_bboxes gt_labels ign cw velo st :
  assign_ lsa cfg bbox_pred cls_pred gt_bboxes gt_labels (Some ign) cw velo st
  = (st, [], Raise (AssertionError ignore_msg)).
Proof. reflexivity. Qed.

Lemma assign_no_scipy cfg bbox_pred cls_pred gt_bboxes gt_labels cw velo st :
  length gt_bboxes ≠ 0%nat → length bbox_pred ≠ 0%nat →
  result (assign_ None cfg bbox_pred cls_pred gt_bboxes gt_labels None cw velo st)
  = Raise (ImportError scipy_msg)
  ∧ Forall (λ e, is_call_lsa e = false)
      (trace (assign_ None cfg bbox_pred cls_pred gt_bboxes gt_labels None cw velo st)).
Proof.
  intros Hg Hb. unfold assign. rewrite decide_False by tauto.
  unfold hungarian_match, result, trace.
  unfold mbind, M_bind, bind, emit, raise, mret, M_ret, ret.
  destruct (debug cfg) as [dir|]; [destruct (decide (dir = "")) as [Hdir|Hdir]|]; simpl; (split; [done|]); repeat constructor.

Qed.

(** Every call of the solver that [assign] logs is on the sanitised
    cost matrix, and a non-degenerate call with scipy present logs one. *)
Lemma assign_trace lsa cfg bbox_pred cls_pred gt_bboxes gt_labels ign cw velo st :
  Forall (λ e, match e with
               | CallLSA m =>
                   m = sanitize_cost
                         (cost_matrix_ cfg bbox_pred cls_pred gt_bboxes gt_labels cw velo)
               | _ => True
               end)
         (trace (assign_ lsa cfg bbox_pred cls_pred gt_bboxes gt_labels ign cw velo st)).
Proof.
  destruct ign as [ign|]; [constructor|].
  unfold assign. case_decide; [constructor|].
  unfold hungarian_match, update_stats, trace.
  unfold mbind, M_bind, bind, emit, raise, lift, get, put, mret, M_ret, ret.
  destruct lsa as [lsa|]; simpl.
  - destruct (debug cfg) as [dir|]; [destruct (decide (dir = "")) as [Hdir|Hdir]|]; simpl;
      (destruct (lsa _) as [[rows cols]|e]; simpl; [|by repeat constructor]);
      (case_decide; simpl);
      (destruct (index_put _ _ _); simpl; [|by repeat constructor]);
      (destruct (gather _ _); simpl; [|by repeat constructor]);
      (destruct (index_put _ _ _); simpl; by repeat constructor).
  - destruct (debug cfg) as [dir|]; [destruct (decide (dir = "")) as [Hdir|Hdir]|]; simpl; by repeat constructor.
Qed.

Lemma assign_calls_lsa lsa cfg bbox_pred cls_pred gt_bboxes gt_labels cw velo st :
  length gt_bboxes ≠ 0%nat → length bbox_pred ≠ 0%nat →
  CallLSA (sanitize_cost
             (cost_matrix_ cfg bbox_pred cls_pred gt_bboxes gt_labels cw velo))
  ∈ trace (assign_ (Some lsa) cfg bbox_pred cls_pred gt_bboxes gt_labels None cw velo st).
Proof.
  intros Hg Hb. unfold assign. rewrite decide_False by tauto.
  unfold hungarian_match, update_stats, trace.
  unfold mbind, M_bind, bind, emit, raise, lift, get, put, mret, M_ret, ret.
  simpl.
  destruct (debug cfg) as [dir|]; [destruct (decide (dir = "")) as [Hdir|Hdir]|]; simpl;
    (destruct (lsa _) as [[rows cols]|e]; simpl; [|(apply list_elem_of_In; simpl; tauto)]);
    (case_decide; simpl);
    (destruct (index_put _ _ _); simpl; [|(apply list_elem_of_In; simpl; tauto)]);
    (destruct (gather _ _); simpl; [|(apply list_elem_of_In; simpl; tauto)]);
    (destruct (index_put _ _ _); simpl; (apply list_elem_of_In; simpl; tauto)).
Qed.
End Assign.

(** ** The assignment step *)

Lemma fill_Ok num_gts num_bboxes gt_labels rows cols res :
  fill num_gts num_bboxes gt_labels rows cols = Ok res →
  ∃ picked,
    index_put (replicate num_bboxes 0) rows ((λ c : nat, Z.of_nat c + 1) <$> cols)
    = Ok (gt_inds res)
    ∧ gather gt_labels cols = Ok picked
    ∧ index_put (replicate num_bboxes (-1)) rows picked = Ok (labels res)
    ∧ Hungarian.num_gts res = num_gts ∧ max_overlaps res = None.
Proof.
  unfold fill, mbind, outcome_bind. intros H.
  destruct (index_put (replicate _ 0) _ _) as [inds|] eqn:E1; [|discriminate].
  destruct (gather _ _) as [picked|] eqn:E2; [|discriminate].
  destruct (index_put (replicate _ (-1)) _ _) as [labs|] eqn:E3; [|discriminate].
  injection H as <-. exists picked. simpl. auto.
Qed.

Lemma fill_total num_gts num_bboxes gt_labels rows cols :
  Forall (λ i, (i < num_bboxes)%nat) rows →
  Forall (λ c, (c < length gt_labels)%nat) cols →
  length rows = length cols →
  ∃ res, fill num_gts num_bboxes gt_labels rows cols = Ok res.
Proof.
  intros Hrows Hcols Hlen. unfold fill, mbind, outcome_bind.
  destruct (index_put_total rows (replicate num_bboxes 0)
              ((λ c : nat, Z.of_nat c + 1) <$> cols)) as [inds ->].
  { by rewrite length_replicate. }
  { by rewrite length_fmap. }
  destruct (gather_total gt_labels cols Hcols) as [picked Hp]. rewrite Hp.
  apply gather_Ok, Forall2_length in Hp.
  destruct (index_put_total rows (replicate num_bboxes (-1)) picked) as [labs ->].
  { by rewrite length_replicate. }
  { lia. }
  eauto.
Qed.

(** What the assignment step leaves in the result. *)
Lemma fill_spec num_gts num_bboxes gt_labels rows cols res :
  fill num_gts num_bboxes gt_labels rows cols = Ok res →
  length (gt_inds res) = num_bboxes ∧ length (labels res) = num_bboxes
  ∧ (∀ i, (i < num_bboxes)%nat → i ∉ rows →
          gt_inds res !! i = Some 0 ∧ labels res !! i = Some (-1))
  ∧ (NoDup rows → ∀ k i c, rows !! k = Some i → cols !! k = Some c →
          gt_inds res !! i = Some (Z.of_nat c + 1)
          ∧ ∃ l, gt_labels !! c = Some l ∧ labels res !! i = Some l).
Proof.
  intros H. destruct (fill_Ok _ _ _ _ _ _ H) as (picked & Hi & Hg & Hl & _ & _).
  split; [|split; [|split]].
  - apply index_put_length in Hi. by rewrite length_replicate in Hi.
  - apply index_put_length in Hl. by rewrite length_replicate in Hl.
  - intros i Hlt Hout. split.
    + rewrite (index_put_frame _ _ _ _ _ Hi) by done. by apply lookup_replicate_2.
    + rewrite (index_put_frame _ _ _ _ _ Hl) by done. by apply lookup_replicate_2.
  - intros Hnd k i c Hk Hc. split.
    + eapply index_put_written; eauto. by rewrite list_lookup_fmap, Hc.
    + apply gather_Ok in Hg.
      destruct (Forall2_lookup_l _ _ _ _ _ Hg Hc) as (l & Hpl & Hgl).
      exists l. split; [done|]. eapply index_put_written; eauto.
Qed.

(** Rows written with pairwise different columns hold pairwise
    different foreground entries. *)
Lemma fill_distinct num_gts num_bboxes gt_labels rows cols res :
  fill num_gts num_bboxes gt_labels rows cols = Ok res →
  NoDup rows → NoDup cols → length rows = length cols →
  ∀ i j a b, i ≠ j → gt_inds res !! i = Some a → gt_inds res !! j = Some b →
             1 ≤ a → 1 ≤ b → a ≠ b.
Proof.
  intros H Hrows Hcols Hlen i j a b Hij Ha Hb Ha1 Hb1.
  destruct (fill_spec _ _ _ _ _ _ H) as (Hli & _ & Hbg & Hfg).
  assert (∀ i a, gt_inds res !! i = Some a → 1 ≤ a →
                 ∃ k c, rows !! k = Some i ∧ cols !! k = Some c ∧ a = Z.of_nat c + 1)
    as Hfore.
  { clear i j a b Hij Ha Hb Ha1 Hb1. intros i a Ha Ha1.
    destruct (decide (i ∈ rows)) as [Hin|Hout].
    - apply list_elem_of_lookup in Hin as [k Hk].
      destruct (lookup_lt_is_Some_2 cols k) as [c Hc].
      { rewrite <- Hlen. by eapply lookup_lt_Some. }
      exists k, c. destruct (Hfg Hrows k i c Hk Hc) as [Hi _]. split; [done|].
      split; [done|]. congruence.
    - destruct (Hbg i) as [Hi _]; [|done|].
      + rewrite <- Hli. by eapply lookup_lt_Some.
      + rewrite Hi in Ha. injection Ha as <-. lia. }
  destruct (Hfore i a Ha Ha1) as (k1 & c1 & Hk1 & Hc1 & ->).
  destruct (Hfore j b Hb Hb1) as (k2 & c2 & Hk2 & Hc2 & ->).
  intros Heq. assert (c1 = c2) as -> by lia.
  assert (k1 = k2) as -> by (by eapply NoDup_lookup).
  congruence.
Qed.

(** A non-degenerate call with a solver that meets its contract runs to
    the end: the solver returns [rows] and [cols], and the result is the
    assignment step on them. *)
Lemma assign_nondegenerate
    (cls_cost_fn : matrix → list Z → matrix) (reg_cost_fn : matrix → matrix → matrix)
    (normalize_bbox : matrix → option vec → matrix)
    (lsa : matrix → outcome (list nat * list nat)) (cfg : config)
    (bbox_pred cls_pred gt_bboxes : matrix) (gt_labels : list Z)
    (code_weights : option vec) (with_velo : bool) (st : state) :
  let cost := cost_matrix cls_cost_fn reg_cost_fn normalize_bbox cfg
                          bbox_pred cls_pred gt_bboxes gt_labels code_weights with_velo in
  lsa_contract lsa →
  length gt_bboxes ≠ 0%nat → length bbox_pred ≠ 0%nat →
  shape cost (length bbox_pred) (length gt_bboxes) →
  length gt_labels = length gt_bboxes →
  ∃ (rows cols : list nat) (res : AssignResult),
    lsa (sanitize_cost cost) = Ok (rows, cols)
    ∧ NoDup rows
    ∧ fill (length gt_bboxes) (length bbox_pred) gt_labels rows cols = Ok res
    ∧ result (assign cls_cost_fn reg_cost_fn normalize_bbox (Some lsa) cfg
                     bbox_pred cls_pred gt_bboxes gt_labels None code_weights with_velo st)
      = Ok res.
Proof.
  intros cost Hlsa Hg Hb Hshape Hlabels.
  destruct (Hlsa (sanitize_cost cost) (length bbox_pred) (length gt_bboxes))
    as (rows & cols & Hrun & Hlr & Hlc & (Hnr & Hnc & Hrange) & _).
  { by apply sanitize_cost_shape. }
  { apply sanitize_cost_finite. }
  rewrite fst_zip in Hnr by lia.
  assert (Forall (λ i, (i < length bbox_pred)%nat) rows) as Hrows.
  { apply Forall_forall. intros i Hi.
    apply list_elem_of_lookup in Hi as [k Hk].
    destruct (lookup_lt_is_Some_2 cols k) as [c Hc].
    { rewrite Hlc, <- Hlr. by eapply lookup_lt_Some. }
    rewrite Forall_forall in Hrange.
    destruct (Hrange (i, c)) as [Hi _]; [|done].
    apply list_elem_of_lookup. exists k. by apply lookup_zip_Some. }
  assert (Forall (λ c, (c < length gt_labels)%nat) cols) as Hcols.
  { apply Forall_forall. intros c Hc.
    apply list_elem_of_lookup in Hc as [k Hk].
    destruct (lookup_lt_is_Some_2 rows k) as [i Hi].
    { rewrite Hlr, <- Hlc. by eapply lookup_lt_Some. }
    rewrite Forall_forall in Hrange.
    destruct (Hrange (i, c)) as [_ Hc]; [|simpl in Hc; lia].
    apply list_elem_of_lookup. exists k. by apply lookup_zip_Some. }
  destruct (fill_total (length gt_bboxes) (length bbox_pred) gt_labels rows cols)
    as [res Hres]; [done|done|lia|].
  exists rows, cols, res. split; [done|]. split; [done|]. split; [done|].
  rewrite assign_result by done. fold cost. by rewrite Hrun.
Qed.

End HungarianFacts.

Module BruteForce.
Import Float Py Hungarian PyFacts.

Lemma total_cost_perm (cost : matrix) (ps qs : list (nat * nat)) :
  ps ≡ₚ qs → (total_cost cost ps == total_cost cost qs)%Q.
Proof.
  induction 1 as [|p ps qs _ IH|p q ps|ps qs rs _ IH1 _ IH2]; simpl.
  - reflexivity.
  - by rewrite IH.
  - ring.
  - by rewrite IH1.
Qed.

Lemma matchings_sound (rows : list nat) : ∀ (cols : list nat) (k : nat) (p : list (nat * nat)),
  NoDup rows → p ∈ matchings rows cols k →
  matching_on rows cols p ∧ length p = k.
Proof.
  induction rows as [|r rows IH]; intros cols k p Hrows Hp; simpl in Hp.
  - destruct k; [|by apply elem_of_nil in Hp].
    apply list_elem_of_singleton in Hp as ->.
    repeat split; simpl; constructor.
  - destruct k as [|k].
    { apply list_elem_of_singleton in Hp as ->.
      repeat split; simpl; constructor. }
    inversion Hrows as [|? ? Hr Hrows']; subst.
    apply elem_of_app in Hp as [Hp|Hp].
    + apply list_elem_of_bind in Hp as (c & Hp & Hc).
      apply list_elem_of_fmap in Hp as (p' & -> & Hp').
      destruct (IH _ _ _ Hrows' Hp') as [(Hn1 & Hn2 & Hall) Hlen].
      split; [|simpl; lia]. repeat split; simpl.
      * constructor; [|done]. intros Hin.
        apply list_elem_of_fmap in Hin as (q & Hq1 & Hq).
        rewrite Forall_forall in Hall. destruct (Hall q Hq) as [Hin _].
        by rewrite <- Hq1 in Hin.
      * constructor; [|done]. intros Hin.
        apply list_elem_of_fmap in Hin as (q & Hq1 & Hq).
        rewrite Forall_forall in Hall. destruct (Hall q Hq) as [_ Hin].
        apply list_elem_of_filter in Hin as [Hne _]. by rewrite <- Hq1 in Hne.
      * constructor; simpl.
        -- split; [left|done].
        -- eapply Forall_impl; [exact Hall|]. intros q [Hq1 Hq2]. split.
           ++ by right.
           ++ by apply list_elem_of_filter in Hq2 as [_ ?].
    + destruct (IH _ _ _ Hrows' Hp) as [(Hn1 & Hn2 & Hall) Hlen].
      split; [|done]. repeat split; try done.
      eapply Forall_impl; [exact Hall|]. intros q [Hq1 Hq2]. split; [by right|done].
Qed.

Lemma matchings_complete (rows : list nat) : ∀ (cols : list nat) (ps : list (nat * nat)),
  matching_on rows cols ps →
  ∃ p, p ∈ matchings rows cols (length ps) ∧ p ≡ₚ ps.
Proof.
  induction rows as [|r rows IH]; intros cols ps (Hn1 & Hn2 & Hall).
  - destruct ps as [|q ps].
    + exists []. split; [simpl; left|done].
    + inversion Hall as [|? ? [Hq _] _]; subst. by apply elem_of_nil in Hq.
  - destruct ps as [|q0 ps0] eqn:Eps.
    { exists []. split; [simpl; left|done]. }
    rewrite <- Eps in *. assert (length ps = S (length ps0)) as Hlen by (by subst).
    rewrite Hlen. simpl.
    destruct (decide (r ∈ ps.*1)) as [Hr|Hr].
    + apply list_elem_of_fmap in Hr as ([r' c] & Hr' & Hq). simpl in Hr'. subst r'.
      apply elem_of_Permutation in Hq as [ps' Hperm].
      assert (NoDup (r :: ps'.*1)) as Hn1'.
      { change (NoDup (((r, c) :: ps').*1)). by rewrite <- Hperm. }
      assert (NoDup (c :: ps'.*2)) as Hn2'.
      { change (NoDup (((r, c) :: ps').*2)). by rewrite <- Hperm. }
      assert (Forall (λ p, p.1 ∈ r :: rows ∧ p.2 ∈ cols) ((r, c) :: ps')) as Hall'
        by (by rewrite <- Hperm).
      inversion Hn1' as [|? ? Hr1 Hn1'']; subst.
      inversion Hn2' as [|? ? Hc1 Hn2'']; subst.
      inversion Hall' as [|? ? [_ Hc] Hall'']; subst. simpl in Hc.
      destruct (IH (filter (λ x, x ≠ c) cols) ps') as (p' & Hp' & Hperm').
      { repeat split; try done. rewrite Forall_forall in Hall'' |- *.
        intros q Hq. destruct (Hall'' q Hq) as [Hq1 Hq2]. split.
        - apply elem_of_cons in Hq1 as [Hq1|Hq1]; [|done].
          exfalso. apply Hr1. apply list_elem_of_fmap. by exists q.
        - apply list_elem_of_filter. split; [|done].
          intros Heq. apply Hc1. rewrite <- Heq. by apply list_elem_of_fmap_2. }
      assert (length ps' = length ps0) as Hlen'.
      { apply Permutation_length in Hperm. simpl in Hperm. lia. }
      rewrite Hlen' in Hp'.
      exists ((r, c) :: p'). split.
      * apply elem_of_app. left. apply list_elem_of_bind. exists c. split; [|done].
        apply list_elem_of_fmap. by exists p'.
      * rewrite Hperm. by constructor.
    + destruct (IH cols ps) as (p & Hp & Hperm).
      { repeat split; try done. rewrite Forall_forall in Hall |- *.
        intros q Hq. destruct (Hall q Hq) as [Hq1 Hq2]. split; [|done].
        apply elem_of_cons in Hq1 as [Hq1|Hq1]; [|done].
        exfalso. apply Hr. apply list_elem_of_fmap. by exists q. }
      rewrite Hlen in Hp. exists p. split; [|done].
      apply elem_of_app. by right.
Qed.

Lemma cheaper_spec (cost : matrix) (cands : list (list (nat * nat))) :
  ∀ init : list (nat * nat),
    let best := foldl (cheaper cost) init cands in
    best ∈ init :: cands
    ∧ ∀ p, p ∈ init :: cands → (total_cost cost best <= total_cost cost p)%Q.
Proof.
  induction cands as [|c cands IH]; intros init; simpl.
  - split; [left|]. intros p Hp. apply list_elem_of_singleton in Hp as ->.
    apply Qle_refl.
  - destruct (IH (cheaper cost init c)) as [Hin Hmin]. split.
    + apply elem_of_cons in Hin as [Hin|Hin].
      * rewrite Hin. unfold cheaper. destruct (Qle_bool _ _); [left|right; left].
      * by do 2 right.
    + intros p Hp.
      assert (total_cost cost (cheaper cost init c) <= total_cost cost init
              ∧ total_cost cost (cheaper cost init c) <= total_cost cost c)%Q
        as [Hi Hc].
      { unfold cheaper. destruct (Qle_bool _ _) eqn:E.
        - apply Qle_bool_iff in E. split; [apply Qle_refl|done].
        - split; [|apply Qle_refl]. apply Qlt_le_weak, Qnot_le_lt.
          intros Hle. apply Qle_bool_iff in Hle. congruence. }
      apply elem_of_cons in Hp as [->|Hp].
      * eapply Qle_trans; [|exact Hi]. apply Hmin. left.
      * apply elem_of_cons in Hp as [->|Hp].
        -- eapply Qle_trans; [|exact Hc]. apply Hmin. left.
        -- apply Hmin. by right.
Qed.

Lemma matching_on_seq (n m : nat) (ps : list (nat * nat)) :
  matching_on (seq 0 n) (seq 0 m) ps ↔ one_to_one n m ps.
Proof.
  unfold matching_on, one_to_one.
  assert (Forall (λ p : nat * nat, p.1 ∈ seq 0 n ∧ p.2 ∈ seq 0 m) ps
          ↔ Forall (λ p : nat * nat, (p.1 < n)%nat ∧ (p.2 < m)%nat) ps) as ->; [|done].
  apply Forall_proper; [|done]. intros p. rewrite !elem_of_seq. lia.
Qed.

Lemma diagonal_one_to_one (n m : nat) :
  one_to_one n m (zip (seq 0 (n `min` m)) (seq 0 (n `min` m)))
  ∧ length (zip (seq 0 (n `min` m)) (seq 0 (n `min` m))) = (n `min` m)%nat.
Proof.
  split.
  - unfold one_to_one. rewrite fst_zip, snd_zip by done.
    repeat split; try apply NoDup_seq.
    apply Forall_forall. intros [a b] Hab.
    apply elem_of_zip_l in Hab as Ha. apply elem_of_zip_r in Hab as Hb.
    apply elem_of_seq in Ha, Hb. simpl. lia.
  - rewrite length_zip, length_seq. lia.
Qed.

Lemma all_finite_forallb (cost : matrix) :
  all_finite cost → forallb (forallb is_finite) cost = true.
Proof.
  intros H. apply forallb_forall. intros row Hrow.
  apply forallb_forall. intros x Hx.
  apply list_elem_of_In in Hrow, Hx.
  unfold all_finite in H. rewrite Forall_forall in H.
  specialize (H row Hrow). rewrite Forall_forall in H. by apply H.
Qed.

(** Exhaustive search meets the contract of the solver. *)
Lemma lsa_brute_contract : lsa_contract lsa_brute.
Proof.
  intros cost n m [Hn Hm] Hfin. unfold lsa_brute.
  rewrite all_finite_forallb by done.
  set (m' := from_option length 0%nat (head cost)).
  assert (n `min` m' = n `min` m)%nat as Hk.
  { subst m'. destruct cost as [|row cost]; simpl in *; [lia|].
    inversion Hm; subst. lia. }
  rewrite Hn.
  set (k := (n `min` m')%nat) in *.
  set (cands := matchings (seq 0 n) (seq 0 m') k).
  destruct (cheaper_spec cost cands (zip (seq 0 k) (seq 0 k))) as [Hin Hmin].
  set (best := foldl (cheaper cost) (zip (seq 0 k) (seq 0 k)) cands) in *.
  assert (one_to_one n m' best ∧ length best = k) as [Hone Hlen].
  { apply elem_of_cons in Hin as [->|Hin].
    - apply diagonal_one_to_one.
    - apply matchings_sound in Hin as [Hon Hl]; [|apply NoDup_seq].
      split; [|done]. by apply matching_on_seq. }
  assert (one_to_one n m best) as Hone'.
  { destruct cost as [|row cost]; simpl in *.
    - subst n. destruct best; [|simpl in Hlen; subst k; simpl in Hlen; lia].
      repeat split; constructor.
    - inversion Hm; subst. exact Hone. }
  exists best.*1, best.*2. rewrite zip_fst_snd, !length_fmap.
  repeat split; try done; try lia; try apply Hone'.
  intros ps Hps Hpslen.
  assert (one_to_one n m' ps) as Hps'.
  { destruct cost as [|row cost]; simpl in *.
    - subst n. destruct ps; [|simpl in Hpslen; lia]. repeat split; constructor.
    - inversion Hm; subst. exact Hps. }
  apply matching_on_seq in Hps'.
  destruct (matchings_complete _ _ _ Hps') as (p & Hp & Hperm).
  rewrite Hpslen, <- Hk in Hp.
  rewrite <- (total_cost_perm cost p ps Hperm).
  apply Hmin. by right.
Qed.

End BruteForce.

Module HungarianClaims.
Import Float Py Hungarian PyFacts HungarianFacts BruteForce.

Lemma ex_cost_shape : shape ex_cost 3 2.
Proof. split; [reflexivity|]. repeat constructor. Qed.

(** C1.  On a non-degenerate input (at least one ground-truth box and
    at least one prediction) the row and column indices that [assign]
    obtains from the solver form a one-to-one matching between
    prediction indices and ground-truth indices, of size
    min(num_gts, num_bboxes), and no one-to-one matching of that size
    has a smaller total cost over the sanitised cost matrix.  [assign]
    hands the solver the sanitised matrix, one row per prediction and
    one column per ground truth, and uses its answer unchanged; the
    solver is any function that meets [lsa_contract]. *)
Theorem matched_pairs_optimal
    (cls_cost_fn : matrix → list Z → matrix) (reg_cost_fn : matrix → matrix → matrix)
    (normalize_bbox : matrix → option vec → matrix)
    (lsa : matrix → outcome (list nat * list nat)) (cfg : config)
    (bbox_pred cls_pred gt_bboxes : matrix) (gt_labels : list Z)
    (code_weights : option vec) (with_velo : bool) (st : state) :
  let cost := cost_matrix cls_cost_fn reg_cost_fn normalize_bbox cfg
                          bbox_pred cls_pred gt_bboxes gt_labels code_weights with_velo in
  let num_gts := length gt_bboxes in
  let num_bboxes := length bbox_pred in
  lsa_contract lsa →
  (0 < num_gts)%nat → (0 < num_bboxes)%nat →
  shape cost num_bboxes num_gts →
  ∃ rows cols : list nat,
    result (hungarian_match (Some lsa) cost st) = Ok (rows, cols)
    ∧ result (assign cls_cost_fn reg_cost_fn normalize_bbox (Some lsa) cfg
                     bbox_pred cls_pred gt_bboxes gt_labels None code_weights with_velo st)
      = fill num_gts num_bboxes gt_labels rows cols
    ∧ one_to_one num_bboxes num_gts (zip rows cols)
    ∧ length (zip rows cols) = Nat.min num_gts num_bboxes
    ∧ ∀ ps, one_to_one num_bboxes num_gts ps →
            length ps = Nat.min num_gts num_bboxes →
            (total_cost (sanitize_cost cost) (zip rows cols)
             <= total_cost (sanitize_cost cost) ps)%Q.
Proof.
  intros cost num_gts num_bboxes Hlsa Hg Hb Hshape.
  destruct (Hlsa (sanitize_cost cost) num_bboxes num_gts)
    as (rows & cols & Hrun & Hlr & Hlc & Hone & Hopt).
  { by apply sanitize_cost_shape. }
  { apply sanitize_cost_finite. }
  exists rows, cols. split; [|split; [|split; [|split]]].
  - unfold hungarian_match, result, mbind, M_bind, bind, emit, lift. simpl.
    by rewrite Hrun.
  - rewrite assign_result by (subst num_gts num_bboxes; lia).
    fold cost. by rewrite Hrun.
  - exact Hone.
  - rewrite length_zip. lia.
  - intros ps Hps Hlen. apply Hopt; [done|]. lia.
Qed.

Lemma matched_pairs_optimal_witness :
  lsa_contract lsa_brute
  ∧ shape ex_cost 3 2
  ∧ ∃ rows cols : list nat,
      result (hungarian_match (Some lsa_brute) ex_cost init_state) = Ok (rows, cols)
      ∧ result (ex_assign (Some lsa_brute)) = fill 2 3 ex_gt_labels rows cols
      ∧ one_to_one 3 2 (zip rows cols)
      ∧ length (zip rows cols) = Nat.min 2 3
      ∧ ∀ ps, one_to_one 3 2 ps → length ps = Nat.min 2 3 →
              (total_cost (sanitize_cost ex_cost) (zip rows cols)
               <= total_cost (sanitize_cost ex_cost) ps)%Q.
Proof.
  split; [exact lsa_brute_contract|]. split; [exact ex_cost_shape|].
  apply (matched_pairs_optimal neg_score_cost l1_cost keep_bbox lsa_brute ex_config
           ex_bbox_pred ex_cls_pred ex_gt_bboxes ex_gt_labels None false init_state).
  - exact lsa_brute_contract.
  - simpl. lia.
  - simpl. lia.
  - exact ex_cost_shape.
Defined.

(** C2.  On a non-degenerate input the result of [assign] gives every
    prediction outside the matched rows the background value 0 with
    label -1, and gives the prediction matched at position [k] the value
    (matched ground-truth index + 1) with the ground-truth label at that
    index.  The cost matrix behind the matching is the classification
    cost plus the regression cost, the latter on the first 8 code
    dimensions unless [with_velo] is set. *)
Theorem assign_foreground_background
    (cls_cost_fn : matrix → list Z → matrix) (reg_cost_fn : matrix → matrix → matrix)
    (normalize_bbox : matrix → option vec → matrix)
    (lsa : matrix → outcome (list nat * list nat)) (cfg : config)
    (bbox_pred cls_pred gt_bboxes : matrix) (gt_labels : list Z)
    (code_weights : option vec) (with_velo : bool) (st : state) :
  let cost := cost_matrix cls_cost_fn reg_cost_fn normalize_bbox cfg
                          bbox_pred cls_pred gt_bboxes gt_labels code_weights with_velo in
  let num_gts := length gt_bboxes in
  let num_bboxes := length bbox_pred in
  let pred := match code_weights with
              | Some w => mul_rows bbox_pred w
              | None => bbox_pred
              end in
  let gt := match code_weights with
            | Some w => mul_rows (normalize_bbox gt_bboxes (pc_range cfg)) w
            | None => normalize_bbox gt_bboxes (pc_range cfg)
            end in
  lsa_contract lsa →
  (0 < num_gts)%nat → (0 < num_bboxes)%nat →
  shape cost num_bboxes num_gts →
  length gt_labels = num_gts →
  cost = madd (cls_cost_fn cls_pred gt_labels)
              (if with_velo then reg_cost_fn pred gt
               else reg_cost_fn (cols_to 8 pred) (cols_to 8 gt))
  ∧ ∃ (rows cols : list nat) (res : AssignResult),
      lsa (sanitize_cost cost) = Ok (rows, cols)
      ∧ result (assign cls_cost_fn reg_cost_fn normalize_bbox (Some lsa) cfg
                       bbox_pred cls_pred gt_bboxes gt_labels None code_weights with_velo st)
        = Ok res
      ∧ length (gt_inds res) = num_bboxes
      ∧ length (labels res) = num_bboxes
      ∧ (∀ i, (i < num_bboxes)%nat → i ∉ rows →
              gt_inds res !! i = Some 0 ∧ labels res !! i = Some (-1))
      ∧ (∀ k i c, rows !! k = Some i → cols !! k = Some c →
              gt_inds res !! i = Some (Z.of_nat c + 1)
              ∧ ∃ l, gt_labels !! c = Some l ∧ labels res !! i = Some l).
Proof.
  intros cost num_gts num_bboxes pred gt Hlsa Hg Hb Hshape Hlabels.
  assert (length gt_bboxes ≠ 0%nat) as Hg' by (unfold num_gts in Hg; lia).
  assert (length bbox_pred ≠ 0%nat) as Hb' by (unfold num_bboxes in Hb; lia).
  split.
  { subst cost pred gt. unfold cost_matrix, reg_inputs. by destruct with_velo. }
  destruct (assign_nondegenerate cls_cost_fn reg_cost_fn normalize_bbox lsa cfg
              bbox_pred cls_pred gt_bboxes gt_labels code_weights with_velo st)
    as (rows & cols & res & Hrun & Hnr & Hfill & Hres); try done.
  destruct (fill_spec _ _ _ _ _ _ Hfill) as (Hli & Hll & Hbg & Hfg).
  exists rows, cols, res.
  split; [done|]. split; [done|]. split; [done|]. split; [done|].
  split; [exact Hbg|]. by apply Hfg.
Qed.

Lemma assign_foreground_background_witness :
  lsa_contract lsa_brute ∧ shape ex_cost 3 2
  ∧ ∃ (rows cols : list nat) (res : AssignResult),
      lsa_brute (sanitize_cost ex_cost) = Ok (rows, cols)
      ∧ result (ex_assign (Some lsa_brute)) = Ok res
      ∧ length (gt_inds res) = 3%nat
      ∧ length (labels res) = 3%nat
      ∧ (∀ i, (i < 3)%nat → i ∉ rows →
              gt_inds res !! i = Some 0 ∧ labels res !! i = Some (-1))
      ∧ (∀ k i c, rows !! k = Some i → cols !! k = Some c →
              gt_inds res !! i = Some (Z.of_nat c + 1)
              ∧ ∃ l, ex_gt_labels !! c = Some l ∧ labels res !! i = Some l).
Proof.
  split; [exact lsa_brute_contract|]. split; [exact ex_cost_shape|].
  apply (assign_foreground_background neg_score_cost l1_cost keep_bbox lsa_brute
           ex_config ex_bbox_pred ex_cls_pred ex_gt_bboxes ex_gt_labels None false
           init_state).
  - exact lsa_brute_contract.
  - simpl. lia.
  - simpl. lia.
  - exact ex_cost_shape.
  - reflexivity.
Defined.

(** C4, as amended.  Whenever the solver returns a one-to-one matching
    (it meets [lsa_contract]), the foreground entries (values >= 1) of
    [gt_inds] in a result of [assign] are pairwise different: no
    ground-truth index is given to two predictions.  This holds for
    every input, degenerate ones included. *)
Theorem foreground_distinct
    (cls_cost_fn : matrix → list Z → matrix) (reg_cost_fn : matrix → matrix → matrix)
    (normalize_bbox : matrix → option vec → matrix)
    (lsa : option (matrix → outcome (list nat * list nat))) (cfg : config)
    (bbox_pred cls_pred gt_bboxes : matrix) (gt_labels : list Z)
    (gt_bboxes_ignore : option matrix)
    (code_weights : option vec) (with_velo : bool) (st : state) (res : AssignResult) :
  let cost := cost_matrix cls_cost_fn reg_cost_fn normalize_bbox cfg
                          bbox_pred cls_pred gt_bboxes gt_labels code_weights with_velo in
  let num_gts := length gt_bboxes in
  let num_bboxes := length bbox_pred in
  (∀ f, lsa = Some f → lsa_contract f) →
  ((0 < num_gts)%nat → (0 < num_bboxes)%nat → shape cost num_bboxes num_gts) →
  result (assign cls_cost_fn reg_cost_fn normalize_bbox lsa cfg
                 bbox_pred cls_pred gt_bboxes gt_labels gt_bboxes_ignore
                 code_weights with_velo st) = Ok res →
  ∀ i j a b, i ≠ j →
             gt_inds res !! i = Some a → gt_inds res !! j = Some b →
             1 ≤ a → 1 ≤ b → a ≠ b.
Proof.
  intros cost num_gts num_bboxes Hlsa Hshape Hres i j a b Hij Ha Hb Ha1 Hb1.
  destruct gt_bboxes_ignore as [ign|]; [by rewrite assign_ignored in Hres|].
  destruct (decide (length gt_bboxes = 0%nat ∨ length bbox_pred = 0%nat)) as [Hdeg|Hnon].
  - rewrite assign_degenerate in Hres by done. injection Hres as <-. simpl in Ha.
    case_decide; apply lookup_replicate in Ha as [-> _]; lia.
  - destruct lsa as [f|].
    + rewrite assign_result in Hres by tauto. fold cost in Hres.
      destruct (Hlsa f eq_refl (sanitize_cost cost) num_bboxes num_gts)
        as (rows & cols & Hrun & Hlr & Hlc & (Hnr & Hnc & _) & _).
      { apply sanitize_cost_shape, Hshape; unfold num_gts, num_bboxes; lia. }
      { apply sanitize_cost_finite. }
      rewrite Hrun in Hres. simpl in Hres.
      rewrite fst_zip in Hnr by lia. rewrite snd_zip in Hnc by lia.
      eapply (fill_distinct _ _ _ _ _ _ Hres Hnr Hnc); eauto. lia.
    + destruct (assign_no_scipy cls_cost_fn reg_cost_fn normalize_bbox cfg
                  bbox_pred cls_pred gt_bboxes gt_labels code_weights with_velo st)
        as [Hr _]; [tauto|tauto|]. congruence.
Qed.

Lemma foreground_distinct_witness :
  result (ex_assign (Some lsa_brute)) = Ok (mkAssignResult 2 [2; 1; 0] None [0; 1; -1])
  ∧ ∀ i j a b, i ≠ j →
               [2; 1; 0] !! i = Some a → [2; 1; 0] !! j = Some b →
               1 ≤ a → 1 ≤ b → a ≠ b.
Proof.
  split; [vm_compute; reflexivity|].
  apply (foreground_distinct neg_score_cost l1_cost keep_bbox (Some lsa_brute)
           ex_config ex_bbox_pred ex_cls_pred ex_gt_bboxes ex_gt_labels None None false
           init_state (mkAssignResult 2 [2; 1; 0] None [0; 1; -1])).
  - intros f [= <-]. exact lsa_brute_contract.
  - intros _ _. exact ex_cost_shape.
  - vm_compute. reflexivity.
Defined.

(** C4, counterexample.  Nothing in [assign] asserts uniqueness: with a
    solver that answers ([0, 1], [0, 0]) the call returns normally and
    predictions 0 and 1 both hold the foreground entry 1. *)
Lemma repeated_column_not_rejected :
  result (ex_assign (Some repeat_column))
  = Ok (mkAssignResult 2 [1; 1; 0] None [1; 1; -1])
  ∧ ¬ (∀ i j a b, i ≠ j →
                  [1; 1; 0] !! i = Some a → [1; 1; 0] !! j = Some b →
                  1 ≤ a → 1 ≤ b → a ≠ b).
Proof.
  split; [vm_compute; reflexivity|].
  intros H. by apply (H 0%nat 1%nat 1 1).
Qed.

(** C6.  [assign] fails with the assertion message
    "Only case when gt_bboxes_ignore is None is supported." exactly when
    [gt_bboxes_ignore] is not [None].  When it is [None] the check
    passes and the call produces an [AssignResult], provided scipy is
    present or the input is degenerate.  The solver is assumed to meet
    its contract and the cost matrix and labels to have one entry per
    ground truth. *)
Theorem ignore_assertion_iff
    (cls_cost_fn : matrix → list Z → matrix) (reg_cost_fn : matrix → matrix → matrix)
    (normalize_bbox : matrix → option vec → matrix)
    (lsa : option (matrix → outcome (list nat * list nat))) (cfg : config)
    (bbox_pred cls_pred gt_bboxes : matrix) (gt_labels : list Z)
    (gt_bboxes_ignore : option matrix)
    (code_weights : option vec) (with_velo : bool) (st : state) :
  let cost := cost_matrix cls_cost_fn reg_cost_fn normalize_bbox cfg
                          bbox_pred cls_pred gt_bboxes gt_labels code_weights with_velo in
  let num_gts := length gt_bboxes in
  let num_bboxes := length bbox_pred in
  let run := assign cls_cost_fn reg_cost_fn normalize_bbox lsa cfg
                    bbox_pred cls_pred gt_bboxes gt_labels gt_bboxes_ignore
                    code_weights with_velo st in
  (∀ f, lsa = Some f → lsa_contract f) →
  ((0 < num_gts)%nat → (0 < num_bboxes)%nat →
   shape cost num_bboxes num_gts ∧ length gt_labels = num_gts) →
  (result run = Raise (AssertionError ignore_msg) ↔ gt_bboxes_ignore ≠ None)
  ∧ (gt_bboxes_ignore = None →
     is_Some lsa ∨ num_gts = 0%nat ∨ num_bboxes = 0%nat →
     ∃ res, result run = Ok res).
Proof.
  intros cost num_gts num_bboxes run Hlsa Hshape. subst run.
  destruct gt_bboxes_ignore as [ign|].
  { rewrite assign_ignored. split; [done|]. intros [=]. }
  assert (is_Some lsa ∨ num_gts = 0%nat ∨ num_bboxes = 0%nat →
          ∃ res, result (assign cls_cost_fn reg_cost_fn normalize_bbox lsa cfg
                           bbox_pred cls_pred gt_bboxes gt_labels None
                           code_weights with_velo st) = Ok res) as Hok.
  { intros Havail.
    destruct (decide (length gt_bboxes = 0%nat ∨ length bbox_pred = 0%nat)) as [Hdeg|Hnon].
    { rewrite assign_degenerate by done. eauto. }
    destruct Havail as [[f ->]|Hdeg]; [|unfold num_gts, num_bboxes in Hdeg; tauto].
    destruct (Hshape ltac:(unfold num_gts; lia) ltac:(unfold num_bboxes; lia))
      as [Hsh Hlab].
    destruct (assign_nondegenerate cls_cost_fn reg_cost_fn normalize_bbox f cfg
                bbox_pred cls_pred gt_bboxes gt_labels code_weights with_velo st)
      as (rows & cols & res & _ & _ & _ & Hres); eauto; tauto. }
  split; [|intros _; exact Hok].
  split; [|done]. intros Hraise. exfalso.
  destruct (decide (length gt_bboxes = 0%nat ∨ length bbox_pred = 0%nat)) as [Hdeg|Hnon].
  { by rewrite assign_degenerate in Hraise. }
  destruct lsa as [f|].
  - destruct Hok as [res Hres]; [left; eauto|]. congruence.
  - destruct (assign_no_scipy cls_cost_fn reg_cost_fn normalize_bbox cfg
                bbox_pred cls_pred gt_bboxes gt_labels code_weights with_velo st)
      as [Hr _]; [tauto|tauto|]. congruence.
Qed.

Lemma ignore_assertion_iff_witness :
  (result (ex_assign (Some lsa_brute)) = Raise (AssertionError ignore_msg)
   ↔ @None matrix ≠ None)
  ∧ (@None matrix = None →
     is_Some (Some lsa_brute) ∨ length ex_gt_bboxes = 0%nat ∨ length ex_bbox_pred = 0%nat →
     ∃ res, result (ex_assign (Some lsa_brute)) = Ok res).
Proof.
  apply (ignore_assertion_iff neg_score_cost l1_cost keep_bbox (Some lsa_brute)
           ex_config ex_bbox_pred ex_cls_pred ex_gt_bboxes ex_gt_labels None None false
           init_state).
  - intros f [= <-]. exact lsa_brute_contract.
  - intros _ _. split; [exact ex_cost_shape|reflexivity].
Defined.

(** C8.  Without ground truth every prediction is background (all
    [gt_inds] 0, all labels -1); with ground truth but without
    predictions the two tensors of the result are empty.  In both cases
    [max_overlaps] is [None], nothing is logged (no cost is computed and
    the solver is not called, present or not) and [self] is unchanged. *)
Theorem empty_input_assignment
    (cls_cost_fn : matrix → list Z → matrix) (reg_cost_fn : matrix → matrix → matrix)
    (normalize_bbox : matrix → option vec → matrix)
    (lsa : option (matrix → outcome (list nat * list nat))) (cfg : config)
    (bbox_pred cls_pred : matrix) (gt_box : vec) (gt_boxes : matrix)
    (gt_labels : list Z) (code_weights : option vec) (with_velo : bool) (st : state) :
  assign cls_cost_fn reg_cost_fn normalize_bbox lsa cfg
         bbox_pred cls_pred [] gt_labels None code_weights with_velo st
  = (st, [], Ok (mkAssignResult 0 (replicate (length bbox_pred) 0) None
                                (replicate (length bbox_pred) (-1))))
  ∧ assign cls_cost_fn reg_cost_fn normalize_bbox lsa cfg
           [] cls_pred (gt_box :: gt_boxes) gt_labels None code_weights with_velo st
    = (st, [], Ok (mkAssignResult (S (length gt_boxes)) [] None [])).
Proof.
  split.
  - rewrite assign_degenerate by (left; reflexivity). reflexivity.
  - rewrite assign_degenerate by (right; reflexivity). reflexivity.
Qed.

(** C10.  Before the solver is called every NaN entry of the cost
    matrix is replaced by 100, every +infinity by 100 and every
    -infinity by -100, finite entries are kept, so the solver only ever
    receives finite values: on a non-degenerate input the result of
    [assign] is made from the answer of the solver on the sanitised
    matrix, two solvers that agree on finite matrices give the same run
    (result, log and state), and the one solver call logged is on the
    sanitised matrix.  Without scipy the call raises ImportError and no
    solver call is logged. *)
Theorem cost_sanitized_before_matching
    (cls_cost_fn : matrix → list Z → matrix) (reg_cost_fn : matrix → matrix → matrix)
    (normalize_bbox : matrix → option vec → matrix) (cfg : config)
    (pred_box : vec) (pred_boxes : matrix) (cls_pred : matrix)
    (gt_box : vec) (gt_boxes : matrix) (gt_labels : list Z)
    (code_weights : option vec) (with_velo : bool) (st : state) :
  let bbox_pred := pred_box :: pred_boxes in
  let gt_bboxes := gt_box :: gt_boxes in
  let cost := cost_matrix cls_cost_fn reg_cost_fn normalize_bbox cfg
                          bbox_pred cls_pred gt_bboxes gt_labels code_weights with_velo in
  let run lsa := assign cls_cost_fn reg_cost_fn normalize_bbox lsa cfg
                        bbox_pred cls_pred gt_bboxes gt_labels None
                        code_weights with_velo st in
  (nan_to_num 100 100 (-100) NaN = Fin 100
   ∧ nan_to_num 100 100 (-100) PInf = Fin 100
   ∧ nan_to_num 100 100 (-100) NInf = Fin (-100)
   ∧ ∀ q, nan_to_num 100 100 (-100) (Fin q) = Fin q)
  ∧ (∀ r c row x, cost !! r = Some row → row !! c = Some x →
       ∃ row', sanitize_cost cost !! r = Some row'
               ∧ row' !! c = Some (nan_to_num 100 100 (-100) x))
  ∧ all_finite (sanitize_cost cost)
  ∧ (∀ lsa,
       result (run (Some lsa))
       = (p ← lsa (sanitize_cost cost);
          fill (length gt_bboxes) (length bbox_pred) gt_labels p.1 p.2))
  ∧ (∀ lsa lsa',
       (∀ m, all_finite m → lsa m = lsa' m) → run (Some lsa) = run (Some lsa'))
  ∧ (∀ lsa,
       CallLSA (sanitize_cost cost) ∈ trace (run (Some lsa))
       ∧ Forall (λ e, match e with
                      | CallLSA m => m = sanitize_cost cost
                      | _ => True
                      end) (trace (run (Some lsa))))
  ∧ result (run None) = Raise (ImportError scipy_msg)
  ∧ Forall (λ e, is_call_lsa e = false) (trace (run None)).
Proof.
  intros bbox_pred gt_bboxes cost run.
  split; [by repeat split|].
  split; [intros r c row x; apply sanitize_cost_lookup|].
  split; [apply sanitize_cost_finite|].
  split; [intros lsa; by apply assign_result|].
  split.
  { intros lsa lsa' Hagree. apply assign_solver_ext.
    apply Hagree, sanitize_cost_finite. }
  split.
  - intros lsa. split.
    + by apply assign_calls_lsa.
    + apply assign_trace.
  - by apply assign_no_scipy.
Qed.

End HungarianClaims.

(* ===================================================================== *)
(** * Facts about NMSFreeCoder *)
(* ===================================================================== *)

Module TopK.
Import Float Py NMSFree PyFacts.

Lemma tle_total (x y : fval) : tle x y = true ∨ tle y x = true.
Proof.
  destruct x as [| | |a], y as [| | |b]; simpl; auto.
  destruct (Qlt_le_dec b a) as [Hlt|Hle].
  - right. apply Qle_bool_iff. by apply Qlt_le_weak.
  - left. by apply Qle_bool_iff.
Qed.

Lemma tle_trans (x y z : fval) : tle x y = true → tle y z = true → tle x z = true.
Proof.
  destruct x as [| | |a], y as [| | |b], z as [| | |c]; simpl; try done.
  rewrite !Qle_bool_iff. apply Qle_trans.
Qed.

(** Off NaN the ranking of topk is the comparison of the hardware. *)
Lemma tle_fge (x y : fval) : tle y x = true → is_nan x = false → fge x y = true.
Proof. by destruct x as [| | |a], y as [| | |b]. Qed.

#[local] Instance ranks_above_total xs : Total (ranks_above xs).
Proof. intros i j. unfold ranks_above. destruct (tle_total (default NaN (xs !! j)) (default NaN (xs !! i))); auto. Qed.

#[local] Instance ranks_above_trans xs : Transitive (ranks_above xs).
Proof. intros i j k Hij Hjk. unfold ranks_above in *. by eapply tle_trans. Qed.

(** Sorting the positions and keeping the first [k] meets the contract. *)
Lemma topk_sort_contract : topk_contract topk_sort.
Proof.
  intros xs k Hk. unfold topk_sort. rewrite decide_True by done.
  set (order := merge_sort (ranks_above xs) (seq 0 (length xs))).
  assert (order ≡ₚ seq 0 (length xs)) as Hperm by apply merge_sort_Permutation.
  assert (StronglySorted (ranks_above xs) order) as Hsorted
    by apply (StronglySorted_merge_sort _).
  assert (length order = length xs) as Hlen
    by (by rewrite Hperm, length_seq).
  assert (NoDup order) as Hnd by (rewrite Hperm; apply NoDup_seq).
  set (idxs := take (Z.to_nat k) order).
  assert (∀ i, i ∈ idxs → (i < length xs)%nat) as Hrange.
  { intros i Hi. apply elem_of_take in Hi as (p & Hp & _).
    apply list_elem_of_lookup_2 in Hp. rewrite Hperm in Hp.
    apply elem_of_seq in Hp. lia. }
  eexists _, idxs. split; [reflexivity|]. split; [|split; [|split]].
  - subst idxs. rewrite length_take. lia.
  - rewrite <- (take_drop (Z.to_nat k) order) in Hnd.
    by apply NoDup_app in Hnd as [? _].
  - apply Forall2_fmap_l, Forall_Forall2_diag, Forall_forall.
    intros i Hi. destruct (lookup_lt_is_Some_2 xs i (Hrange i Hi)) as [x Hx].
    simpl. by rewrite Hx.
  - intros i j x y Hi Hj Hx Hy.
    assert (j ∈ drop (Z.to_nat k) order) as Hj'.
    { assert (j ∈ order) as Hin.
      { rewrite Hperm. apply elem_of_seq. apply lookup_lt_Some in Hy. lia. }
      rewrite <- (take_drop (Z.to_nat k) order) in Hin.
      apply elem_of_app in Hin as [Hin|Hin]; [done|done]. }
    rewrite <- (take_drop (Z.to_nat k) order) in Hsorted.
    pose proof (StronglySorted_app_1_elem_of _ _ _ i j Hsorted Hi Hj') as Hr.
    unfold ranks_above in Hr. by rewrite Hx, Hy in Hr.
Qed.

End TopK.

Module NMSFreeFacts.
Import Float Py NMSFree PyFacts TopK.

Lemma all_ge_lookup (a b : vec) (i : nat) (x y : fval) :
  all_ge a b = true → a !! i = Some x → b !! i = Some y → fge x y = true.
Proof.
  unfold all_ge. rewrite forallb_forall. intros H Ha Hb.
  apply (H (x, y)). apply list_elem_of_In, list_elem_of_lookup.
  exists i. by apply lookup_zip_Some.
Qed.

Lemma all_le_lookup (a b : vec) (i : nat) (x y : fval) :
  all_le a b = true → a !! i = Some x → b !! i = Some y → fle x y = true.
Proof.
  unfold all_le. rewrite forallb_forall. intros H Ha Hb.
  apply (H (x, y)). apply list_elem_of_In, list_elem_of_lookup.
  exists i. by apply lookup_zip_Some.
Qed.

(** A row the mask keeps has its centre in the range, and its score
    passed the threshold when the threshold is truthy. *)
Lemma keep_mask_true (cfg : config) (r : vec) (boxes : matrix) (scores : vec)
    (p : nat) (box : vec) :
  let thresh_mask :=
    match score_threshold cfg with
    | Some t => Some ((λ s, fge s (f32 t)) <$> scores)
    | None => None
    end in
  keep_mask cfg r boxes thresh_mask !! p = Some true →
  boxes !! p = Some box →
  all_ge (take 3 box) (take 3 r) = true
  ∧ all_le (take 3 box) (drop 3 r) = true
  ∧ ∀ t s, score_threshold cfg = Some t → truthy t = true →
           scores !! p = Some s → fge s (f32 t) = true.
Proof.
  intros thresh_mask Hmask Hbox. subst thresh_mask. unfold keep_mask in Hmask.
  assert (∀ b : bool,
            zip_with andb ((λ b : vec, all_ge (take 3 b) (take 3 r)) <$> boxes)
              ((λ b : vec, all_le (take 3 b) (drop 3 r)) <$> boxes) !! p = Some b →
            b = true →
            all_ge (take 3 box) (take 3 r) = true
            ∧ all_le (take 3 box) (drop 3 r) = true) as Hcentre.
  { intros b Hb ->. apply lookup_zip_with_Some in Hb as (b1 & b2 & Hand & H1 & H2).
    rewrite list_lookup_fmap, Hbox in H1, H2. simpl in H1, H2.
    injection H1 as <-. injection H2 as <-.
    symmetry in Hand. by apply andb_true_iff in Hand. }
  destruct (score_threshold cfg) as [t|] eqn:Ht; simpl in Hmask.
  - destruct (truthy t) eqn:Htruthy.
    + apply lookup_zip_with_Some in Hmask as (b1 & b2 & Hand & H1 & H2).
      symmetry in Hand. apply andb_true_iff in Hand as [-> ->].
      destruct (Hcentre true H1 eq_refl) as [Hge Hle].
      split; [done|]. split; [done|].
      intros t' s [= <-] _ Hs. rewrite list_lookup_fmap, Hs in H2.
      by injection H2.
    + destruct (Hcentre true Hmask eq_refl) as [Hge Hle].
      split; [done|]. split; [done|]. intros t' s [= <-]. congruence.
  - destruct (Hcentre true Hmask eq_refl) as [Hge Hle].
    split; [done|]. split; [done|]. intros t' s [=].
Qed.

Lemma mapM_py_mod (nc : Z) (idxs : list nat) (labels : list Z) :
  mapM (M := outcome) (λ i : nat, py_mod nc (Z.of_nat i)) idxs = Ok labels →
  Forall2 (λ (i : nat) l, nc ≠ 0 ∧ l = Z.of_nat i mod nc) idxs labels.
Proof.
  rewrite mapM_outcome_Ok. intros H. eapply Forall2_impl; [exact H|].
  intros i l. unfold py_mod.
  case_decide; [done|]. by intros [= <-].
Qed.

Lemma mapM_floor_div (nc : Z) (idxs : list nat) (bidx : list Z) :
  mapM (M := outcome) (λ i : nat, floor_div nc (Z.of_nat i)) idxs = Ok bidx →
  Forall2 (λ (i : nat) b, nc ≠ 0 ∧ b = Z.of_nat i / nc) idxs bidx.
Proof.
  rewrite mapM_outcome_Ok. intros H. eapply Forall2_impl; [exact H|].
  intros i l. unfold floor_div.
  case_decide; [done|]. by intros [= <-].
Qed.

Lemma mapM_py_mod_total (nc : Z) (idxs : list nat) :
  nc ≠ 0 →
  mapM (M := outcome) (λ i : nat, py_mod nc (Z.of_nat i)) idxs
  = Ok ((λ i : nat, Z.of_nat i mod nc) <$> idxs).
Proof.
  intros Hnc. apply mapM_outcome_Ok, Forall2_fmap_r, Forall_Forall2_diag, Forall_true.
  intros i. unfold py_mod. by rewrite decide_False.
Qed.

Lemma mapM_floor_div_total (nc : Z) (idxs : list nat) :
  nc ≠ 0 →
  mapM (M := outcome) (λ i : nat, floor_div nc (Z.of_nat i)) idxs
  = Ok ((λ i : nat, Z.of_nat i / nc) <$> idxs).
Proof.
  intros Hnc. apply mapM_outcome_Ok, Forall2_fmap_r, Forall_Forall2_diag, Forall_true.
  intros i. unfold floor_div. by rewrite decide_False.
Qed.

Lemma gatherZ_total {A} (xs : list A) (idx : list Z) :
  Forall (λ i, 0 ≤ i < Z.of_nat (length xs)) idx →
  ∃ ys, gatherZ xs idx = Ok ys ∧ length ys = length idx.
Proof.
  intros H.
  destruct (mapM_outcome_total
              (λ i : Z,
                 let j := if i <? 0 then i + Z.of_nat (length xs) else i in
                 if j <? 0 then Raise IndexError
                 else match xs !! Z.to_nat j with
                      | Some x => Ok x
                      | None => Raise IndexError
                      end) idx) as [ys Hys].
  { eapply Forall_impl; [exact H|]. intros i Hi. simpl in *.
    destruct (Z.ltb_spec i 0) as [?|_]; [lia|].
    destruct (Z.ltb_spec i 0) as [?|_]; [lia|].
    destruct (lookup_lt_is_Some_2 xs (Z.to_nat i)) as [x Hx]; [lia|].
    rewrite Hx. eauto. }
  exists ys. split; [exact Hys|].
  apply mapM_outcome_Ok, Forall2_length in Hys. lia.
Qed.

Lemma gatherZ_length {A} (xs : list A) (idx : list Z) (ys : list A) :
  gatherZ xs idx = Ok ys → length ys = length idx.
Proof. intros H. apply mapM_outcome_Ok, Forall2_length in H. lia. Qed.

Section Decode.
Variable sigmoid : fval → fval.
Variable topk : vec → Z → outcome (vec * list nat).
Variable denormalize_bbox : matrix → vec → matrix.

Abbreviation decode_single_ := (decode_single sigmoid topk denormalize_bbox).
Abbreviation decode_ := (decode sigmoid topk denormalize_bbox).

(** What a successful call went through. *)
Lemma decode_single_Ok (cfg : config) (cls_scores bbox_preds : matrix)
    (d : gmap string tensor) :
  decode_single_ cfg cls_scores bbox_preds = Ok d →
  ∃ (scores : vec) (idxs : list nat) (labels bidx : list Z) (picked : matrix) (r : vec),
    topk (flat_scores sigmoid cls_scores)
         (Z.min (Z.of_nat (length (flat_scores sigmoid cls_scores))) (max_num cfg))
    = Ok (scores, idxs)
    ∧ Forall2 (λ (i : nat) l, num_classes cfg ≠ 0 ∧ l = Z.of_nat i mod num_classes cfg)
              idxs labels
    ∧ Forall2 (λ (i : nat) b, num_classes cfg ≠ 0 ∧ b = Z.of_nat i / num_classes cfg)
              idxs bidx
    ∧ gatherZ bbox_preds bidx = Ok picked
    ∧ post_center_range cfg = Some r
    ∧ let boxes := denormalize_bbox picked (pc_range cfg) in
      let mask := keep_mask cfg (f32 <$> r) boxes
                    match score_threshold cfg with
                    | Some t => Some ((λ s, fge s (f32 t)) <$> scores)
                    | None => None
                    end in
      length mask = length boxes ∧ length mask = length scores
      ∧ length mask = length labels
      ∧ d = predictions (select mask boxes) (select mask scores) (select mask labels).
Proof.
  unfold decode_single. intros H.
  destruct (topk _ _) as [[scores idxs]|] eqn:Htopk; [|discriminate].
  simpl in H. unfold mbind at 1, outcome_bind in H.
  destruct (mapM _ idxs) as [labels|] eqn:Hlabels in H; [|discriminate].
  unfold mbind at 1, outcome_bind in H.
  destruct (mapM _ idxs) as [bidx|] eqn:Hbidx in H; [|discriminate].
  unfold mbind at 1, outcome_bind in H.
  destruct (gatherZ _ _) as [picked|] eqn:Hpicked; [|discriminate].
  destruct (post_center_range cfg) as [r|] eqn:Hr; [|discriminate].
  unfold mask_select, mbind, outcome_bind in H.
  repeat (case_decide; [|discriminate]). injection H as <-.
  exists scores, idxs, labels, bidx, picked, r.
  split; [done|]. split; [by apply mapM_py_mod|]. split; [by apply mapM_floor_div|].
  done.
Qed.

(** On inputs of the documented shapes the only way to fail is the
    missing range. *)
Lemma decode_single_total (cfg : config) (cls_scores bbox_preds : matrix) (C : nat) :
  topk_contract topk →
  (∀ b r, length (denormalize_bbox b r) = length b) →
  0 ≤ max_num cfg → 0 < num_classes cfg →
  shape cls_scores (length bbox_preds) C → Z.of_nat C ≤ num_classes cfg →
  match post_center_range cfg with
  | Some r => ∃ boxes scores labels,
      decode_single_ cfg cls_scores bbox_preds = Ok (predictions boxes scores labels)
  | None =>
      decode_single_ cfg cls_scores bbox_preds
      = Raise (NotImplementedError not_implemented_msg)
  end.
Proof.
  intros Hcontract Hrows Hmax Hnc [Hn HC] HCnc.
  set (flat := flat_scores sigmoid cls_scores).
  assert (length flat = (length bbox_preds * C)%nat) as Hflat.
  { subst flat. unfold flat_scores. rewrite <- Hn. clear Hn.
    induction HC as [|row rows Hrow _ IH]; csimpl; [done|].
    rewrite length_app, length_fmap, IH. lia. }
  destruct (Hcontract flat (Z.min (Z.of_nat (length flat)) (max_num cfg)))
    as (scores & idxs & Htopk & Hlen & Hnd & Hvals & _); [lia|].
  pose proof (Forall2_length _ _ _ Hvals) as Hlv.
  destruct (gatherZ_total bbox_preds ((λ i : nat, Z.of_nat i / num_classes cfg) <$> idxs))
    as (picked & Hpicked & Hlp).
  { apply Forall_fmap, Forall_forall. intros i Hi. simpl.
    apply list_elem_of_lookup in Hi as [p Hp].
    destruct (Forall2_lookup_r _ _ _ _ _ Hvals Hp) as (v & _ & Hv).
    apply lookup_lt_Some in Hv. split.
    - apply Z.div_pos; lia.
    - apply Z.div_lt_upper_bound; [lia|]. nia. }
  rewrite length_fmap in Hlp.
  unfold decode_single. fold flat. rewrite Htopk. simpl.
  rewrite mapM_py_mod_total, mapM_floor_div_total by lia. simpl.
  rewrite Hpicked. simpl.
  destruct (post_center_range cfg) as [r|]; [|done].
  set (boxes := denormalize_bbox picked (pc_range cfg)).
  set (mask := keep_mask cfg (f32 <$> r) boxes _).
  assert (length boxes = length idxs) as Hlb by (subst boxes; rewrite Hrows; lia).
  assert (length mask = length boxes) as Hlm.
  { subst mask. unfold keep_mask.
    destruct (score_threshold cfg) as [t|]; simpl;
      [destruct (truthy t)|];
      rewrite ?length_zip_with, ?length_fmap; lia. }
  unfold mask_select. rewrite !decide_True by (rewrite ?length_fmap; lia).
  simpl. eauto.
Qed.

(** An error of [decode_single] on the first sample of the batch is
    the error of [decode]. *)
Lemma decode_propagates (cfg : config) (preds_dicts : gmap string (list (list matrix)))
    (cls box : list (list matrix)) (c0 b0 : matrix) (cs bs : list matrix) (e : exn) :
  preds_dicts !! "all_cls_scores" = Some cls → last cls = Some (c0 :: cs) →
  preds_dicts !! "all_bbox_preds" = Some box → last box = Some (b0 :: bs) →
  decode_single_ cfg c0 b0 = Raise e →
  decode_ cfg preds_dicts = Raise e.
Proof.
  intros Hcls Hlc Hbox Hlb Hraise. unfold decode, getitem, item.
  rewrite Hcls, Hbox. simpl.
  rewrite last_lookup in Hlc, Hlb.
  replace (length cls - 1)%nat with (pred (length cls)) by lia.
  replace (length box - 1)%nat with (pred (length box)) by lia.
  rewrite Hlc, Hlb. simpl. by rewrite Hraise.
Qed.
End Decode.
End NMSFreeFacts.

Module NMSFreeClaims.
Import Float Py NMSFree PyFacts TopK NMSFreeFacts.

(** C3, as amended.  A dict returned by [decode_single] (so
    [post_center_range] is set) holds at most [max_num] boxes, with one
    score and one label per box.  Its scores are among those at the
    min(max_num, num_query * cls_out_channels) positions chosen by topk,
    and no position left out holds a score ranked above a returned one
    in the order of topk, which puts NaN above every number; a returned
    score that is not NaN is [>=] every score left out.  The three centre
    coordinates of every returned box lie within the range as the
    float32 tensor of line 70 holds it, bounds included: each bound is
    the float32 nearest to the configured number.  When [score_threshold]
    is truthy (set and not zero) every returned score is [>=] the float32
    nearest to it, which is what line 68 compares with. *)
Theorem decode_single_selection
    (sigmoid : fval → fval) (topk : vec → Z → outcome (vec * list nat))
    (denormalize_bbox : matrix → vec → matrix)
    (cfg : config) (cls_scores bbox_preds : matrix) (r : vec)
    (d : gmap string tensor) :
  let flat := flat_scores sigmoid cls_scores in
  topk_contract topk →
  0 ≤ max_num cfg →
  post_center_range cfg = Some r →
  decode_single sigmoid topk denormalize_bbox cfg cls_scores bbox_preds = Ok d →
  ∃ (boxes : matrix) (scores : vec) (labels : list Z) (idxs : list nat),
    d = predictions boxes scores labels
    ∧ Z.of_nat (length boxes) ≤ max_num cfg
    ∧ length scores = length boxes ∧ length labels = length boxes
    ∧ length idxs = Z.to_nat (Z.min (Z.of_nat (length flat)) (max_num cfg))
    ∧ NoDup idxs
    ∧ (∀ s, s ∈ scores →
            ∃ i, i ∈ idxs ∧ flat !! i = Some s
                 ∧ ∀ j y, j ∉ idxs → flat !! j = Some y →
                          tle y s = true ∧ (is_nan s = false → fge s y = true))
    ∧ (∀ box, box ∈ boxes →
            ∀ a x lo hi, (a < 3)%nat → box !! a = Some x →
                         r !! a = Some lo → r !! (3 + a)%nat = Some hi →
                         fge x (f32 lo) = true ∧ fle x (f32 hi) = true)
    ∧ (∀ t, score_threshold cfg = Some t → truthy t = true →
            ∀ s, s ∈ scores → fge s (f32 t) = true).
Proof.
  intros flat Hcontract Hmax Hr Hd.
  destruct (decode_single_Ok _ _ _ _ _ _ _ Hd)
    as (scores & idxs & labels & bidx & picked & r' & Htopk & Hlabels & Hbidx
        & Hpicked & Hr' & Hlb & Hls & Hll & ->).
  rewrite Hr in Hr'. injection Hr' as <-. fold flat in Htopk.
  set (boxes := denormalize_bbox picked (pc_range cfg)) in *.
  set (mask := keep_mask cfg (f32 <$> r) boxes _) in *.
  destruct (Hcontract flat (Z.min (Z.of_nat (length flat)) (max_num cfg)))
    as (scores' & idxs' & Htopk' & Hlen & Hnd & Hvals & Hrank); [lia|].
  rewrite Htopk in Htopk'. injection Htopk' as <- <-.
  pose proof (Forall2_length _ _ _ Hvals) as Hlv.
  exists (select mask boxes), (select mask scores), (select mask labels), idxs.
  split; [done|].
  assert (∀ {A B} (xs : list A) (ys : list B),
            length mask = length xs → length mask = length ys →
            length (select mask xs) = length (select mask ys)) as Hsel.
  { clear. intros A B. induction mask as [|b mask IH]; intros [|x xs] [|y ys] Hx Hy;
      simpl in *; try lia. destruct b; simpl; rewrite (IH xs ys); lia. }
  split.
  { pose proof (select_length_le mask boxes). lia. }
  split; [by apply Hsel|]. split; [by apply Hsel|].
  split; [done|]. split; [done|]. split; [|split].
  - intros s Hs. apply select_elem in Hs as (p & _ & Hp).
    destruct (Forall2_lookup_l _ _ _ _ _ Hvals Hp) as (i & Hi & Hflat).
    exists i. split; [by eapply list_elem_of_lookup_2|]. split; [done|].
    intros j y Hj Hy.
    assert (tle y s = true) as Htle.
    { eapply Hrank; eauto. by eapply list_elem_of_lookup_2. }
    split; [done|]. intros Hnan. by apply tle_fge.
  - intros box Hbox a x lo hi Ha Hx Hlo Hhi.
    apply select_elem in Hbox as (p & Hmask & Hp).
    destruct (keep_mask_true cfg (f32 <$> r) boxes scores p box Hmask Hp)
      as (Hge & Hle & _).
    split.
    + eapply (all_ge_lookup _ _ a); [exact Hge| |].
      * by rewrite lookup_take_lt.
      * by rewrite lookup_take_lt, list_lookup_fmap, Hlo.
    + eapply (all_le_lookup _ _ a); [exact Hle| |].
      * by rewrite lookup_take_lt.
      * by rewrite lookup_drop, list_lookup_fmap, Hhi.
  - intros t Ht Htruthy s Hs.
    assert (select mask (zip boxes scores) = zip (select mask boxes) (select mask scores))
      as Hzip by apply select_zip.
    apply list_elem_of_lookup in Hs as [q Hq].
    destruct (lookup_lt_is_Some_2 (select mask boxes) q) as [box Hbox].
    { rewrite (Hsel _ _ boxes scores) by done. by eapply lookup_lt_Some. }
    assert ((box, s) ∈ select mask (zip boxes scores)) as Hin.
    { rewrite Hzip. apply list_elem_of_lookup. exists q. by apply lookup_zip_Some. }
    apply select_elem in Hin as (p & Hmask & Hp).
    apply lookup_zip_Some in Hp as [Hpb Hps].
    destruct (keep_mask_true cfg (f32 <$> r) boxes scores p box Hmask Hpb)
      as (_ & _ & Hthr).
    by eapply Hthr.
Qed.

Lemma decode_single_selection_witness :
  topk_contract topk_sort
  ∧ decode_single sigmoid_like topk_sort centers_first ex_config
                  ex_cls_scores ex_bbox_preds = Ok ex_decoded
  ∧ ∃ (boxes : matrix) (scores : vec) (labels : list Z) (idxs : list nat),
      ex_decoded = predictions boxes scores labels
      ∧ Z.of_nat (length boxes) ≤ 4
      ∧ length scores = length boxes ∧ length labels = length boxes
      ∧ length idxs = 4%nat
      ∧ NoDup idxs
      ∧ (∀ s, s ∈ scores →
              ∃ i, i ∈ idxs ∧ flat_scores sigmoid_like ex_cls_scores !! i = Some s
                   ∧ ∀ j y, j ∉ idxs →
                            flat_scores sigmoid_like ex_cls_scores !! j = Some y →
                            tle y s = true ∧ (is_nan s = false → fge s y = true))
      ∧ (∀ box, box ∈ boxes →
              ∀ a x lo hi, (a < 3)%nat → box !! a = Some x →
                           ex_range !! a = Some lo → ex_range !! (3 + a)%nat = Some hi →
                           fge x (f32 lo) = true ∧ fle x (f32 hi) = true)
      ∧ (∀ t, Some (Fin (3 # 5)) = Some t → truthy t = true →
              ∀ s, s ∈ scores → fge s (f32 t) = true).
Proof.
  split; [exact topk_sort_contract|].
  split; [vm_compute; reflexivity|].
  apply (decode_single_selection sigmoid_like topk_sort centers_first ex_config
           ex_cls_scores ex_bbox_preds ex_range ex_decoded).
  - exact topk_sort_contract.
  - vm_compute. discriminate.
  - reflexivity.
  - vm_compute. reflexivity.
Defined.

(** The zero threshold lets a NaN score through whatever sigmoid, topk
    and box decoding are used, as long as the sigmoid of NaN is NaN,
    topk meets its contract and decoding leaves the box at the origin
    inside the range. *)
Lemma zero_threshold_keeps_nan
    (sigmoid : fval → fval) (topk : vec → Z → outcome (vec * list nat))
    (denormalize_bbox : matrix → vec → matrix) (box : vec) :
  sigmoid NaN = NaN → topk_contract topk →
  denormalize_bbox [box] [] = [origin_box] →
  decode_single sigmoid topk denormalize_bbox zero_threshold_config [[NaN]] [box]
  = Ok (predictions [origin_box] [NaN] [0]).
Proof.
  intros Hsig Hcontract Hdenorm.
  destruct (Hcontract [NaN] 1) as (vals & idxs & Htopk & Hlen & _ & Hvals & _);
    [simpl; lia|].
  unfold decode_single, flat_scores. simpl. rewrite Hsig. simpl.
  change (Z.min (Z.of_nat 1) 1) with 1. rewrite Htopk.
  destruct idxs as [|i [|? ?]]; try discriminate.
  apply Forall2_cons_inv_r in Hvals as (v & vals' & Hv & Hvals & ->).
  apply Forall2_nil_inv_r in Hvals as ->.
  destruct i as [|i]; [|by destruct i]. injection Hv as <-.
  simpl. rewrite Hdenorm. reflexivity.
Qed.

(** C3, counterexample.  With [score_threshold = 0.0] the threshold
    mask is computed but never applied, and a NaN score is returned,
    which is not [>=] the threshold.  And with scores [NaN, 0.5] and
    [max_num = 1] the NaN is the score selected, although it is not
    [>=] the score left out. *)
Lemma nan_score_returned :
  (decode_single sigmoid_like topk_sort centers_first zero_threshold_config
                 [[NaN]] [origin_box]
   = Ok (predictions [origin_box] [NaN] [0])
   ∧ fge NaN (Fin 0) = false)
  ∧ (decode_single sigmoid_like topk_sort centers_first top1_config
                   [[NaN; Fin 0]] [origin_box]
     = Ok (predictions [origin_box] [NaN] [0])
     ∧ flat_scores sigmoid_like [[NaN; Fin 0]] = [NaN; Fin (2 # 4)]
     ∧ fge NaN (Fin (2 # 4)) = false).
Proof. repeat split; vm_compute; reflexivity. Qed.

(** C3, the rounding.  The threshold and the range are compared in
    float32: with [score_threshold = 0.7] and the bound 61.2 the coder
    returns a score of 0.699999988... and a centre at 61.20000076...,
    which as numbers are below 0.7 and above 61.2. *)
Lemma bounds_are_rounded :
  decode_single after_sigmoid topk_sort centers_first f32_config [[f32_score]] [f32_box]
  = Ok (predictions [f32_box] [f32_score] [0])
  ∧ f32 (Fin (7 # 10)) = f32_score
  ∧ fge f32_score (Fin (7 # 10)) = false
  ∧ f32 (Fin (612 # 10)) = Fin (16043213 # 262144)
  ∧ fle (Fin (16043213 # 262144)) (Fin (612 # 10)) = false.
Proof. repeat split; vm_compute; reflexivity. Qed.

Lemma predictions_keys (boxes : matrix) (scores : vec) (labels : list Z) :
  dom (predictions boxes scores labels) = ({[ "bboxes"; "scores"; "labels" ]} : gset string)
  ∧ predictions boxes scores labels !! "bboxes" = Some (Boxes boxes)
  ∧ predictions boxes scores labels !! "scores" = Some (Scores scores)
  ∧ predictions boxes scores labels !! "labels" = Some (Labels labels).
Proof.
  unfold predictions. split; [|split; [|split]].
  - rewrite !dom_insert_L, dom_singleton_L. set_solver.
  - rewrite !lookup_insert_ne by done. by rewrite lookup_singleton_eq.
  - rewrite lookup_insert_ne by done. by rewrite lookup_insert_eq.
  - by rewrite lookup_insert_eq.
Qed.

(** C7.  On inputs of the documented shapes ([cls_scores] of shape
    [num_query, cls_out_channels], one row of [bbox_preds] per query, no
    more channels than [num_classes], [max_num >= 0]) [decode_single]
    raises NotImplementedError exactly when [post_center_range] is
    [None]; otherwise it returns a dict whose keys are "bboxes",
    "scores" and "labels".  [decode] does not catch the error: raised
    for the first sample of the batch, it is the outcome of [decode]. *)
Theorem not_implemented_iff
    (sigmoid : fval → fval) (topk : vec → Z → outcome (vec * list nat))
    (denormalize_bbox : matrix → vec → matrix)
    (cfg : config) (cls_scores bbox_preds : matrix) (cls_out_channels : nat) :
  let run := decode_single sigmoid topk denormalize_bbox cfg cls_scores bbox_preds in
  topk_contract topk →
  (∀ b r, length (denormalize_bbox b r) = length b) →
  0 ≤ max_num cfg → 0 < num_classes cfg →
  shape cls_scores (length bbox_preds) cls_out_channels →
  Z.of_nat cls_out_channels ≤ num_classes cfg →
  (run = Raise (NotImplementedError not_implemented_msg) ↔ post_center_range cfg = None)
  ∧ (post_center_range cfg ≠ None →
     ∃ d boxes scores labels,
       run = Ok d
       ∧ dom d = ({[ "bboxes"; "scores"; "labels" ]} : gset string)
       ∧ d !! "bboxes" = Some (Boxes boxes)
       ∧ d !! "scores" = Some (Scores scores)
       ∧ d !! "labels" = Some (Labels labels))
  ∧ (post_center_range cfg = None →
     ∀ (preds_dicts : gmap string (list (list matrix)))
       (cls box : list (list matrix)) (cs bs : list matrix),
       preds_dicts !! "all_cls_scores" = Some cls → last cls = Some (cls_scores :: cs) →
       preds_dicts !! "all_bbox_preds" = Some box → last box = Some (bbox_preds :: bs) →
       decode sigmoid topk denormalize_bbox cfg preds_dicts
       = Raise (NotImplementedError not_implemented_msg)).
Proof.
  intros run Hcontract Hrows Hmax Hnc Hshape HC.
  pose proof (decode_single_total sigmoid topk denormalize_bbox cfg cls_scores bbox_preds
                cls_out_channels Hcontract Hrows Hmax Hnc Hshape HC) as Htotal.
  fold run in Htotal.
  destruct (post_center_range cfg) as [r|].
  - destruct Htotal as (boxes & scores & labels & Hrun). split; [|split].
    + rewrite Hrun. split; discriminate.
    + intros _. exists (predictions boxes scores labels), boxes, scores, labels.
      split; [done|]. apply predictions_keys.
    + discriminate.
  - split; [done|]. split; [done|].
    intros _ preds_dicts cls box cs bs Hcls Hlc Hbox Hlb.
    by eapply decode_propagates.
Qed.

Lemma not_implemented_iff_witness :
  topk_contract topk_sort
  ∧ shape ex_cls_scores 3 2
  ∧ (decode_single sigmoid_like topk_sort centers_first no_range_config
                   ex_cls_scores ex_bbox_preds
     = Raise (NotImplementedError not_implemented_msg)
     ↔ post_center_range no_range_config = None)
  ∧ (post_center_range no_range_config ≠ None →
     ∃ d boxes scores labels,
       decode_single sigmoid_like topk_sort centers_first no_range_config
                     ex_cls_scores ex_bbox_preds = Ok d
       ∧ dom d = ({[ "bboxes"; "scores"; "labels" ]} : gset string)
       ∧ d !! "bboxes" = Some (Boxes boxes)
       ∧ d !! "scores" = Some (Scores scores)
       ∧ d !! "labels" = Some (Labels labels))
  ∧ (post_center_range no_range_config = None →
     ∀ (preds_dicts : gmap string (list (list matrix)))
       (cls box : list (list matrix)) (cs bs : list matrix),
       preds_dicts !! "all_cls_scores" = Some cls → last cls = Some (ex_cls_scores :: cs) →
       preds_dicts !! "all_bbox_preds" = Some box → last box = Some (ex_bbox_preds :: bs) →
       decode sigmoid_like topk_sort centers_first no_range_config preds_dicts
       = Raise (NotImplementedError not_implemented_msg)).
Proof.
  assert (shape ex_cls_scores 3 2) as Hshape by (split; [reflexivity|repeat constructor]).
  split; [exact topk_sort_contract|]. split; [exact Hshape|].
  apply (not_implemented_iff sigmoid_like topk_sort centers_first no_range_config
           ex_cls_scores ex_bbox_preds 2).
  - exact topk_sort_contract.
  - intros b r. unfold centers_first. apply length_fmap.
  - simpl. lia.
  - simpl. lia.
  - exact Hshape.
  - simpl. lia.
Defined.

(** C9.  For every index chosen by topk the label is the index modulo
    [num_classes] and the box index is the floor of the index divided by
    [num_classes], so box index times [num_classes] plus label gives the
    index back; every returned label is the label of a chosen index and
    lies in [0, num_classes). *)
Theorem index_decomposition
    (sigmoid : fval → fval) (topk : vec → Z → outcome (vec * list nat))
    (denormalize_bbox : matrix → vec → matrix)
    (cfg : config) (cls_scores bbox_preds : matrix) (d : gmap string tensor) :
  let flat := flat_scores sigmoid cls_scores in
  let nc := num_classes cfg in
  0 < nc →
  decode_single sigmoid topk denormalize_bbox cfg cls_scores bbox_preds = Ok d →
  ∃ (scores : vec) (indexs : list nat) (returned : list Z),
    topk flat (Z.min (Z.of_nat (length flat)) (max_num cfg)) = Ok (scores, indexs)
    ∧ mapM (M := outcome) (λ i : nat, py_mod nc (Z.of_nat i)) indexs
      = Ok ((λ i : nat, Z.of_nat i mod nc) <$> indexs)
    ∧ mapM (M := outcome) (λ i : nat, floor_div nc (Z.of_nat i)) indexs
      = Ok ((λ i : nat, Z.of_nat i / nc) <$> indexs)
    ∧ (∀ i : nat, i ∈ indexs →
         (Z.of_nat i / nc) * nc + Z.of_nat i mod nc = Z.of_nat i
         ∧ 0 ≤ Z.of_nat i mod nc < nc)
    ∧ d !! "labels" = Some (Labels returned)
    ∧ (∀ l, l ∈ returned →
         0 ≤ l < nc ∧ ∃ i : nat, i ∈ indexs ∧ l = Z.of_nat i mod nc).
Proof.
  intros flat nc Hnc Hd.
  destruct (decode_single_Ok _ _ _ _ _ _ _ Hd)
    as (scores & idxs & labels & bidx & picked & r & Htopk & Hlabels & Hbidx
        & Hpicked & Hr & Hlb & Hls & Hll & ->).
  fold flat in Htopk. fold nc in Hlabels, Hbidx.
  set (mask := keep_mask cfg (f32 <$> r) _ _) in *.
  exists scores, idxs, (select mask labels).
  split; [done|]. split; [apply mapM_py_mod_total; lia|].
  split; [apply mapM_floor_div_total; lia|]. split; [|split].
  - intros i _. split.
    + pose proof (Z.div_mod (Z.of_nat i) nc). lia.
    + apply Z.mod_pos_bound. lia.
  - apply predictions_keys.
  - intros l Hl. apply select_elem in Hl as (p & _ & Hp).
    destruct (Forall2_lookup_r _ _ _ _ _ Hlabels Hp) as (i & Hi & _ & ->).
    split; [apply Z.mod_pos_bound; lia|].
    exists i. split; [by eapply list_elem_of_lookup_2|done].
Qed.

Lemma index_decomposition_witness :
  decode_single sigmoid_like topk_sort centers_first ex_config
                ex_cls_scores ex_bbox_preds = Ok ex_decoded
  ∧ ∃ (scores : vec) (indexs : list nat) (returned : list Z),
      topk_sort (flat_scores sigmoid_like ex_cls_scores) 4 = Ok (scores, indexs)
      ∧ mapM (M := outcome) (λ i : nat, py_mod 2 (Z.of_nat i)) indexs
        = Ok ((λ i : nat, Z.of_nat i mod 2) <$> indexs)
      ∧ mapM (M := outcome) (λ i : nat, floor_div 2 (Z.of_nat i)) indexs
        = Ok ((λ i : nat, Z.of_nat i / 2) <$> indexs)
      ∧ (∀ i : nat, i ∈ indexs →
           (Z.of_nat i / 2) * 2 + Z.of_nat i mod 2 = Z.of_nat i
           ∧ 0 ≤ Z.of_nat i mod 2 < 2)
      ∧ ex_decoded !! "labels" = Some (Labels returned)
      ∧ (∀ l, l ∈ returned →
           0 ≤ l < 2 ∧ ∃ i : nat, i ∈ indexs ∧ l = Z.of_nat i mod 2).
Proof.
  split; [vm_compute; reflexivity|].
  apply (index_decomposition sigmoid_like topk_sort centers_first ex_config
           ex_cls_scores ex_bbox_preds ex_decoded).
  - simpl. lia.
  - vm_compute. reflexivity.
Defined.

End NMSFreeClaims.

(* ===================================================================== *)
(** * Facts about MV2DFusionTransformerDecoder.forward *)
(* ===================================================================== *)

Module DecoderFacts.
Import Float Py Decoder PyFacts.

Lemma select_length_count {A} (mask : list bool) : ∀ xs : list A,
  length mask = length xs → length (select mask xs) = count_true mask.
Proof.
  induction mask as [|b mask IH]; intros [|x xs] Hlen; simpl in Hlen; try lia.
  - reflexivity.
  - rewrite count_true_cons. simpl. destruct b; simpl; rewrite IH; lia.
Qed.

Section Forward.
Variable layers : list (matrix → matrix → matrix → matrix).
Variable post_norm : option (matrix → matrix).
Variable flog : fval → fval.
Variable softmax : vec → vec.
Variable dyn_q_coords : list matrix.
Variable dyn_q_mask : list bool.
Variable dyn_q_pos_branch : matrix → matrix.
Variable dyn_q_pos_with_prob_branch : matrix → matrix → matrix.
Variable dyn_q_prob_branch : list (matrix → matrix).
Variable ref0 : matrix.

Abbreviation step_ :=
  (step post_norm true softmax dyn_q_coords dyn_q_mask
        dyn_q_pos_branch dyn_q_pos_with_prob_branch dyn_q_prob_branch).
Abbreviation run_layers_ :=
  (run_layers post_norm true softmax dyn_q_coords dyn_q_mask
              dyn_q_pos_branch dyn_q_pos_with_prob_branch dyn_q_prob_branch).
Abbreviation loop_inv_ := (loop_inv softmax dyn_q_coords dyn_q_mask ref0).

Lemma step_inv (i : nat) (layer : matrix → matrix → matrix → matrix)
    (st st' : loop_state) :
  step_ i layer st = Ok st' → loop_inv_ st →
  loop_inv_ st'
  ∧ length (intermediate_reference_points st')
    = S (length (intermediate_reference_points st))
  ∧ length (intermediate_dyn_q_logits st')
    = S (length (intermediate_dyn_q_logits st)).
Proof.
  unfold step. intros H [[Hlen Hkept] (rest & Hirp & Hrest & Hdyn & Hq)].
  destruct (NMSFree.item _ _) as [branch|]; [|discriminate]. simpl in H.
  destruct (mask_select _ _) as [selected|]; [|discriminate]. simpl in H.
  destruct (masked_put (reference_points st) _ _) as [new_ref|] eqn:Href;
    [|discriminate]. simpl in H.
  destruct (masked_put (query_pos st) _ _) as [new_pos|]; [|discriminate].
  injection H as <-. simpl.
  assert (static_kept dyn_q_mask ref0 new_ref) as Hnew.
  { split.
    - rewrite (masked_put_length _ _ _ _ Href). exact Hlen.
    - intros j Hj. rewrite (masked_put_frame _ _ _ _ j Href Hj). by apply Hkept. }
  split; [|split; (etransitivity; [apply length_app|]; simpl; lia)].
  split; [exact Hnew|].
  exists (rest ++ [new_ref]). rewrite Hirp. split; [done|].
  split; [apply Forall_app; split; [done|by constructor]|].
  split.
  - apply Forall2_app; [done|]. constructor; [|constructor].
    intros j Hj. by apply (masked_put_written _ _ _ _ j Href).
  - etransitivity; [apply length_app|]. rewrite length_app. simpl. lia.
Qed.

Lemma run_layers_inv (ls : list (matrix → matrix → matrix → matrix)) :
  ∀ (i : nat) (st st' : loop_state),
    run_layers_ i ls st = Ok st' → loop_inv_ st →
    loop_inv_ st'
    ∧ length (intermediate_reference_points st')
      = (length (intermediate_reference_points st) + length ls)%nat
    ∧ length (intermediate_dyn_q_logits st')
      = (length (intermediate_dyn_q_logits st) + length ls)%nat.
Proof.
  induction ls as [|layer ls IH]; intros i st st' H Hinv; simpl in H.
  - injection H as <-. split; [done|]. simpl. lia.
  - destruct (step_ i layer st) as [st1|] eqn:Hstep; [|discriminate]. simpl in H.
    destruct (step_inv _ _ _ _ Hstep Hinv) as (Hinv1 & Hlen1 & Hlg1).
    destruct (IH _ _ _ H Hinv1) as (Hinv' & Hlen' & Hlg').
    split; [done|]. rewrite Hlen', Hlen1, Hlg', Hlg1. simpl. lia.
Qed.

(** ** The loop runs to the end on tensors of the documented shapes *)

Variable num_dyn : nat.
Hypothesis mask_count : count_true dyn_q_mask = num_dyn.
Hypothesis coords_rows : length dyn_q_coords = num_dyn.
Hypothesis layers_rows : Forall (λ layer, ∀ q p r, length (layer q p r) = length q) layers.
Hypothesis branch_rows : Forall (λ branch, ∀ x, length (branch x) = length x)
                                dyn_q_prob_branch.
Hypothesis pos_rows : ∀ a b, length (dyn_q_pos_with_prob_branch a b) = length b.

Abbreviation loop_shapes_ := (loop_shapes dyn_q_mask num_dyn).

Lemma step_total (i : nat) (layer : matrix → matrix → matrix → matrix)
    (st : loop_state) :
  (∀ q p r, length (layer q p r) = length q) →
  is_Some (dyn_q_prob_branch !! i) → loop_shapes_ st →
  ∃ st', step_ i layer st = Ok st' ∧ loop_shapes_ st'.
Proof.
  intros Hlayer [branch Hbranch] (Hq & Hp & Hr & Hl). unfold step, NMSFree.item.
  rewrite Hbranch. simpl.
  unfold mask_select. rewrite decide_True by (by rewrite Hlayer). simpl.
  set (query_ := layer (query st) (query_pos st) (reference_points st)).
  assert (length (branch (select dyn_q_mask query_)) = num_dyn) as Hres.
  { rewrite Forall_forall in branch_rows.
    rewrite (branch_rows branch) by (by eapply list_elem_of_lookup_2).
    rewrite select_length_count; [done|]. subst query_. by rewrite Hlayer. }
  set (lg := madd (dyn_q_logits st) (branch (select dyn_q_mask query_))).
  assert (length lg = num_dyn) as Hlg.
  { subst lg. unfold madd. rewrite length_zip_with. lia. }
  destruct (masked_put_total (reference_points st) dyn_q_mask
              (weighted_coords (softmax <$> lg) dyn_q_coords)) as [new_ref Href].
  { lia. }
  { unfold weighted_coords. rewrite length_zip_with, length_fmap. lia. }
  rewrite Href. simpl.
  destruct (masked_put_total (query_pos st) dyn_q_mask
              (dyn_q_pos_with_prob_branch
                 (dyn_q_pos_branch ((λ m : matrix, concat m) <$> dyn_q_coords))
                 (softmax <$> lg))) as [new_pos Hpos].
  { lia. }
  { rewrite pos_rows, length_fmap. lia. }
  rewrite Hpos. simpl. eexists. split; [reflexivity|].
  unfold loop_shapes. simpl. split; [|split; [|split]].
  - subst query_. by rewrite Hlayer.
  - rewrite (masked_put_length _ _ _ _ Hpos). lia.
  - rewrite (masked_put_length _ _ _ _ Href). lia.
  - exact Hlg.
Qed.

Lemma run_layers_total (ls : list (matrix → matrix → matrix → matrix)) :
  ∀ (i : nat) (st : loop_state),
    Forall (λ layer, ∀ q p r, length (layer q p r) = length q) ls →
    (i + length ls ≤ length dyn_q_prob_branch)%nat → loop_shapes_ st →
    ∃ st', run_layers_ i ls st = Ok st'.
Proof.
  induction ls as [|layer ls IH]; intros i st Hls Hbr Hshape; simpl.
  - eauto.
  - apply Forall_cons in Hls as [Hlayer Hls']. simpl in Hbr.
    destruct (step_total i layer st Hlayer) as (st1 & Hstep & Hshape1); [|done|].
    { apply lookup_lt_is_Some_2. lia. }
    rewrite Hstep. simpl. apply IH; [done|lia|done].
Qed.

(** With at least one layer, a branch for every layer and rows that
    match the mask, [forward] returns its three stacks. *)
Lemma forward_total (query_ query_pos_ dyn_q_probs : matrix) :
  layers ≠ [] →
  (length layers ≤ length dyn_q_prob_branch)%nat →
  length query_ = length dyn_q_mask →
  length query_pos_ = length dyn_q_mask →
  length ref0 = length dyn_q_mask →
  length dyn_q_probs = num_dyn →
  ∃ out, forward layers post_norm true flog softmax dyn_q_coords dyn_q_mask
                 dyn_q_pos_branch dyn_q_pos_with_prob_branch dyn_q_prob_branch
                 query_ query_pos_ ref0 dyn_q_probs = Ok out.
Proof.
  intros Hlayers Hbr Hq Hp Hr Hd. unfold forward.
  set (st0 := mkLoop _ _ _ _ _ _ _).
  assert (loop_inv_ st0) as Hinv0.
  { split; [split; [done|done]|]. exists []. repeat split; constructor. }
  destruct (run_layers_total layers 0 st0 layers_rows) as [st' Hrun]; [lia| |].
  { unfold loop_shapes, st0. simpl. by rewrite length_fmap. }
  rewrite Hrun. simpl.
  destruct (run_layers_inv _ _ _ _ Hrun Hinv0)
    as ((_ & rest & Hirp & _ & Hdyn & Hint) & Hlen & Hlg).
  simpl in Hlen, Hlg. rewrite Hirp in Hlen. simpl in Hlen.
  assert (length layers ≠ 0%nat) as Hn by (by destruct layers).
  destruct (intermediate st') as [|q qs] eqn:Eq; [simpl in Hint; lia|]. simpl.
  rewrite Hirp. simpl.
  destruct (intermediate_dyn_q_logits st') as [|l ls] eqn:El; [simpl in Hlg; lia|].
  simpl. eauto.
Qed.
End Forward.
End DecoderFacts.
Module DecoderClaims.
Import Float Py Decoder PyFacts DecoderFacts.

(** C5.  [forward] returns num_layers + 1 reference-point tensors, the
    first of which is the initial [reference_points].  In every one of
    them the rows where [dyn_q_mask] is false are those of the initial
    [reference_points]; in the tensor collected at layer [i] the rows
    where the mask is true hold the combination of [dyn_q_coords]
    weighted by the softmax of the logits collected at that layer. *)
Theorem refinement_keeps_static_queries
    (layers : list (matrix → matrix → matrix → matrix))
    (post_norm : option (matrix → matrix)) (return_intermediate : bool)
    (flog : fval → fval) (softmax : vec → vec)
    (dyn_q_coords : list matrix) (dyn_q_mask : list bool)
    (dyn_q_pos_branch : matrix → matrix)
    (dyn_q_pos_with_prob_branch : matrix → matrix → matrix)
    (dyn_q_prob_branch : list (matrix → matrix))
    (query_ query_pos_ reference_points_ dyn_q_probs : matrix)
    (out_queries out_ref_points out_dyn_logits : list matrix) :
  forward layers post_norm return_intermediate flog softmax dyn_q_coords dyn_q_mask
          dyn_q_pos_branch dyn_q_pos_with_prob_branch dyn_q_prob_branch
          query_ query_pos_ reference_points_ dyn_q_probs
  = Ok (out_queries, out_ref_points, out_dyn_logits) →
  length out_ref_points = S (length layers)
  ∧ length out_dyn_logits = length layers
  ∧ out_ref_points !! 0%nat = Some reference_points_
  ∧ (∀ i r, out_ref_points !! i = Some r →
            length r = length reference_points_
            ∧ ∀ j, dyn_q_mask !! j = Some false → r !! j = reference_points_ !! j)
  ∧ (∀ i r lg, out_ref_points !! S i = Some r → out_dyn_logits !! i = Some lg →
            ∀ j, dyn_q_mask !! j = Some true →
                 r !! j = weighted_coords (softmax <$> lg) dyn_q_coords
                          !! dyn_rank dyn_q_mask j).
Proof.
  unfold forward. intros H.
  destruct return_intermediate; [|discriminate].
  set (st0 := mkLoop _ _ _ _ _ _ _) in H.
  destruct (run_layers _ _ _ _ _ _ _ _ _ _ st0) as [st'|] eqn:Hrun; [|discriminate].
  simpl in H.
  assert (loop_inv softmax dyn_q_coords dyn_q_mask reference_points_ st0) as Hinv0.
  { split; [split; [done|done]|]. exists []. repeat split; constructor. }
  eapply run_layers_inv in Hrun
    as ((_ & rest & Hirp & Hstatic & Hdyn & _) & Hlen & Hlg); [|exact Hinv0].
  simpl in Hlen, Hlg.
  unfold stack in H.
  destruct (intermediate st'); [discriminate|]. simpl in H.
  rewrite Hirp in H. simpl in H.
  destruct (intermediate_dyn_q_logits st') as [|lg0 lgs] eqn:El; [discriminate|].
  injection H as _ <- <-.
  split; [rewrite <- Hirp; lia|]. split; [lia|]. split; [done|]. split.
  - intros [|i] r Hr.
    + injection Hr as <-. by split.
    + simpl in Hr. rewrite Forall_forall in Hstatic.
      apply Hstatic. by eapply list_elem_of_lookup_2.
  - intros i r lg Hr Hlg'. simpl in Hr.
    by apply (Forall2_lookup_lr _ _ _ _ _ _ Hdyn Hr Hlg').
Qed.

Lemma refinement_keeps_static_queries_witness :
  ∃ out_queries out_ref_points out_dyn_logits,
    ex_forward = Ok (out_queries, out_ref_points, out_dyn_logits)
    ∧ length out_ref_points = 3%nat
    ∧ length out_dyn_logits = 2%nat
    ∧ out_ref_points !! 0%nat = Some ex_points
    ∧ (∀ i r, out_ref_points !! i = Some r →
              length r = length ex_points
              ∧ ∀ j, ex_mask !! j = Some false → r !! j = ex_points !! j)
    ∧ (∀ i r lg, out_ref_points !! S i = Some r → out_dyn_logits !! i = Some lg →
              ∀ j, ex_mask !! j = Some true →
                   r !! j = weighted_coords (same_row <$> lg) ex_coords
                            !! dyn_rank ex_mask j).
Proof.
  destruct ex_forward as [[[qs refs] lgs]|e] eqn:E; [|vm_compute in E; discriminate].
  exists qs, refs, lgs. split; [reflexivity|].
  exact (refinement_keeps_static_queries _ _ _ _ _ _ _ _ _ _ _ _ _ _ _ _ _ E).
Defined.

End DecoderClaims.

(* ===================================================================== *)
(** * Further facts about HungarianAssigner3D.assign *)
(* ===================================================================== *)

Module AssignMore.
Import Float Py Hungarian HungarianMore PyFacts HungarianFacts BruteForce.

(** Writing a value that passes [P] over one that does not adds one to
    the number of entries that pass. *)
Lemma count_insert {A} (P : A → Prop) `{!∀ x, Decision (P x)}
    (xs : list A) : ∀ (i : nat) (u v : A),
  xs !! i = Some u → ¬ P u → P v →
  length (filter P (<[i := v]> xs)) = S (length (filter P xs)).
Proof.
  induction xs as [|x xs IH]; intros [|i] u v Hi Hu Hv; simpl in Hi; try done.
  - injection Hi as ->. simpl.
    rewrite filter_cons_True, filter_cons_False by done. reflexivity.
  - simpl. destruct (decide (P x)).
    + rewrite !filter_cons_True by done. simpl. f_equal. by eapply IH.
    + rewrite !filter_cons_False by done. by eapply IH.
Qed.

Lemma index_put_count {A} (P : A → Prop) `{!∀ x, Decision (P x)}
    (idx : list nat) : ∀ (xs vals ys : list A),
  index_put xs idx vals = Ok ys → NoDup idx →
  (∀ i u, i ∈ idx → xs !! i = Some u → ¬ P u) → Forall P vals →
  length (filter P ys) = (length (filter P xs) + length idx)%nat.
Proof.
  induction idx as [|i idx IH]; intros xs [|v vals] ys Hput Hnd Hold Hvals;
    simpl in Hput; try done.
  - injection Hput as <-. simpl. lia.
  - case_decide as Hlt; [|done].
    apply NoDup_cons in Hnd as [Hi Hnd]. apply Forall_cons in Hvals as [Hv Hvals].
    destruct (lookup_lt_is_Some_2 xs i Hlt) as [u Hu].
    rewrite (IH _ _ _ Hput Hnd); [| |done].
    + rewrite (count_insert P xs i u v Hu); [simpl; lia| |done].
      apply (Hold i u); [left|done].
    + intros j w Hj Hw. rewrite list_lookup_insert_ne in Hw by (intros ->; done).
      apply (Hold j w); [by right|done].
Qed.

Lemma filter_replicate_none {A} (P : A → Prop) `{!∀ x, Decision (P x)}
    (n : nat) (x : A) : ¬ P x → filter P (replicate n x) = [].
Proof.
  intros Hx. induction n as [|n IH]; simpl; [done|].
  by rewrite filter_cons_False.
Qed.

(** A list of pairwise different numbers below [n], [n] of them, holds
    every number below [n]. *)
Lemma full_range (l : list nat) (n c : nat) :
  NoDup l → length l = n → Forall (λ x, (x < n)%nat) l → (c < n)%nat → c ∈ l.
Proof.
  intros Hnd Hlen Hall Hc.
  assert (l ⊆+ seq 0 n) as Hsub.
  { apply NoDup_submseteq; [done|]. intros x Hx.
    rewrite Forall_forall in Hall. apply elem_of_seq. specialize (Hall x Hx). lia. }
  assert (l ≡ₚ seq 0 n) as Hperm.
  { apply submseteq_length_Permutation; [done|]. rewrite length_seq. lia. }
  rewrite Hperm. apply elem_of_seq. lia.
Qed.

(** Everything a non-degenerate call with a conforming solver provides:
    the matched indices with the properties the contract gives them, and
    the result as the assignment step on them. *)
Lemma assign_matching
    (cls_cost_fn : matrix → list Z → matrix) (reg_cost_fn : matrix → matrix → matrix)
    (normalize_bbox : matrix → option vec → matrix)
    (lsa : matrix → outcome (list nat * list nat)) (cfg : config)
    (bbox_pred cls_pred gt_bboxes : matrix) (gt_labels : list Z)
    (code_weights : option vec) (with_velo : bool) (st : state) :
  let cost := cost_matrix cls_cost_fn reg_cost_fn normalize_bbox cfg
                          bbox_pred cls_pred gt_bboxes gt_labels code_weights with_velo in
  lsa_contract lsa →
  length gt_bboxes ≠ 0%nat → length bbox_pred ≠ 0%nat →
  shape cost (length bbox_pred) (length gt_bboxes) →
  length gt_labels = length gt_bboxes →
  ∃ (rows cols : list nat) (res : AssignResult),
    result (assign cls_cost_fn reg_cost_fn normalize_bbox (Some lsa) cfg
                   bbox_pred cls_pred gt_bboxes gt_labels None code_weights with_velo st)
    = Ok res
    ∧ fill (length gt_bboxes) (length bbox_pred) gt_labels rows cols = Ok res
    ∧ NoDup rows ∧ NoDup cols
    ∧ length rows = (length bbox_pred `min` length gt_bboxes)%nat
    ∧ length cols = (length bbox_pred `min` length gt_bboxes)%nat
    ∧ Forall (λ i, (i < length bbox_pred)%nat) rows
    ∧ Forall (λ c, (c < length gt_bboxes)%nat) cols.
Proof.
  intros cost Hlsa Hg Hb Hshape Hlabels.
  destruct (assign_nondegenerate cls_cost_fn reg_cost_fn normalize_bbox lsa cfg
              bbox_pred cls_pred gt_bboxes gt_labels code_weights with_velo st)
    as (rows & cols & res & Hrun & Hnr & Hfill & Hres); try done.
  destruct (Hlsa (sanitize_cost cost) (length bbox_pred) (length gt_bboxes))
    as (rows' & cols' & Hrun' & Hlr & Hlc & (_ & Hnc & Hrange) & _).
  { by apply sanitize_cost_shape. }
  { apply sanitize_cost_finite. }
  fold cost in Hrun. rewrite Hrun in Hrun'. injection Hrun' as <- <-.
  rewrite snd_zip in Hnc by lia.
  exists rows, cols, res. repeat split; try done.
  - apply Forall_forall. intros i Hi.
    apply list_elem_of_lookup in Hi as [k Hk].
    destruct (lookup_lt_is_Some_2 cols k) as [c Hc].
    { rewrite Hlc, <- Hlr. by eapply lookup_lt_Some. }
    rewrite Forall_forall in Hrange.
    destruct (Hrange (i, c)) as [Hi _]; [|done].
    apply list_elem_of_lookup. exists k. by apply lookup_zip_Some.
  - apply Forall_forall. intros c Hc.
    apply list_elem_of_lookup in Hc as [k Hk].
    destruct (lookup_lt_is_Some_2 rows k) as [i Hi].
    { rewrite Hlr, <- Hlc. by eapply lookup_lt_Some. }
    rewrite Forall_forall in Hrange.
    destruct (Hrange (i, c)) as [_ Hc]; [|done].
    apply list_elem_of_lookup. exists k. by apply lookup_zip_Some.
Qed.

(** X1.  On a non-degenerate input with a conforming solver, exactly
    min(num_gts, num_bboxes) predictions are foreground (their entry of
    [gt_inds] is at least 1); every entry of [gt_inds] lies between 0
    and num_gts. *)
Theorem foreground_count
    (cls_cost_fn : matrix → list Z → matrix) (reg_cost_fn : matrix → matrix → matrix)
    (normalize_bbox : matrix → option vec → matrix)
    (lsa : matrix → outcome (list nat * list nat)) (cfg : config)
    (bbox_pred cls_pred gt_bboxes : matrix) (gt_labels : list Z)
    (code_weights : option vec) (with_velo : bool) (st : state) :
  let cost := cost_matrix cls_cost_fn reg_cost_fn normalize_bbox cfg
                          bbox_pred cls_pred gt_bboxes gt_labels code_weights with_velo in
  let num_gts := length gt_bboxes in
  let num_bboxes := length bbox_pred in
  lsa_contract lsa →
  (0 < num_gts)%nat → (0 < num_bboxes)%nat →
  shape cost num_bboxes num_gts →
  length gt_labels = num_gts →
  ∃ res : AssignResult,
    result (assign cls_cost_fn reg_cost_fn normalize_bbox (Some lsa) cfg
                   bbox_pred cls_pred gt_bboxes gt_labels None code_weights with_velo st)
    = Ok res
    ∧ length (filter (λ v, 1 ≤ v) (gt_inds res)) = Nat.min num_gts num_bboxes
    ∧ Forall (λ v, 0 ≤ v ≤ Z.of_nat num_gts) (gt_inds res).
Proof.
  intros cost num_gts num_bboxes Hlsa Hg Hb Hshape Hlabels.
  destruct (assign_matching cls_cost_fn reg_cost_fn normalize_bbox lsa cfg
              bbox_pred cls_pred gt_bboxes gt_labels code_weights with_velo st)
    as (rows & cols & res & Hres & Hfill & Hnr & Hnc & Hlr & Hlc & Hrows & Hcols);
    try done; try (unfold num_gts in Hg; unfold num_bboxes in Hb; lia).
  exists res. split; [done|].
  destruct (fill_Ok _ _ _ _ _ _ Hfill) as (picked & Hi & _).
  destruct (fill_spec _ _ _ _ _ _ Hfill) as (Hli & _ & Hbg & Hfg).
  split.
  - rewrite (index_put_count (λ v, 1 ≤ v) rows _ _ _ Hi Hnr).
    + rewrite filter_replicate_none by lia. simpl. unfold num_gts, num_bboxes. lia.
    + intros i u _ Hu. apply lookup_replicate in Hu as [-> _]. lia.
    + apply Forall_fmap, Forall_true. intros c. simpl. lia.
  - apply Forall_lookup. intros i v Hv.
    destruct (decide (i ∈ rows)) as [Hin|Hout].
    + apply list_elem_of_lookup in Hin as [k Hk].
      destruct (lookup_lt_is_Some_2 cols k) as [c Hc].
      { rewrite Hlc, <- Hlr. by eapply lookup_lt_Some. }
      destruct (Hfg Hnr k i c Hk Hc) as [Hval _].
      rewrite Hval in Hv. injection Hv as <-.
      rewrite Forall_forall in Hcols.
      specialize (Hcols c (list_elem_of_lookup_2 _ _ _ Hc)).
      unfold num_gts. lia.
    + destruct (Hbg i) as [Hval _]; [|done|].
      { rewrite <- Hli. by eapply lookup_lt_Some. }
      rewrite Hval in Hv. injection Hv as <-. lia.
Qed.

Lemma foreground_count_witness :
  lsa_contract lsa_brute ∧ shape ex_cost 3 2
  ∧ ∃ res : AssignResult,
      result (ex_assign (Some lsa_brute)) = Ok res
      ∧ length (filter (λ v, 1 ≤ v) (gt_inds res)) = Nat.min 2 3
      ∧ Forall (λ v, 0 ≤ v ≤ Z.of_nat 2) (gt_inds res).
Proof.
  split; [exact lsa_brute_contract|].
  assert (shape ex_cost 3 2) as Hshape by (split; [reflexivity|repeat constructor]).
  split; [exact Hshape|].
  apply (foreground_count neg_score_cost l1_cost keep_bbox lsa_brute ex_config
           ex_bbox_pred ex_cls_pred ex_gt_bboxes ex_gt_labels None false init_state).
  - exact lsa_brute_contract.
  - simpl. lia.
  - simpl. lia.
  - exact Hshape.
  - reflexivity.
Defined.

(** X2.  When there are at least as many predictions as ground-truth
    boxes, every ground-truth box is assigned: for each ground-truth
    index [c] some prediction holds [c + 1] in [gt_inds] and the label of
    that ground truth in [labels]. *)
Theorem every_gt_assigned
    (cls_cost_fn : matrix → list Z → matrix) (reg_cost_fn : matrix → matrix → matrix)
    (normalize_bbox : matrix → option vec → matrix)
    (lsa : matrix → outcome (list nat * list nat)) (cfg : config)
    (bbox_pred cls_pred gt_bboxes : matrix) (gt_labels : list Z)
    (code_weights : option vec) (with_velo : bool) (st : state) :
  let cost := cost_matrix cls_cost_fn reg_cost_fn normalize_bbox cfg
                          bbox_pred cls_pred gt_bboxes gt_labels code_weights with_velo in
  let num_gts := length gt_bboxes in
  let num_bboxes := length bbox_pred in
  lsa_contract lsa →
  (0 < num_gts)%nat → (num_gts ≤ num_bboxes)%nat →
  shape cost num_bboxes num_gts →
  length gt_labels = num_gts →
  ∃ res : AssignResult,
    result (assign cls_cost_fn reg_cost_fn normalize_bbox (Some lsa) cfg
                   bbox_pred cls_pred gt_bboxes gt_labels None code_weights with_velo st)
    = Ok res
    ∧ ∀ (c : nat) (l : Z), gt_labels !! c = Some l →
        ∃ i : nat, gt_inds res !! i = Some (Z.of_nat c + 1)
                   ∧ labels res !! i = Some l.
Proof.
  intros cost num_gts num_bboxes Hlsa Hg Hb Hshape Hlabels.
  destruct (assign_matching cls_cost_fn reg_cost_fn normalize_bbox lsa cfg
              bbox_pred cls_pred gt_bboxes gt_labels code_weights with_velo st)
    as (rows & cols & res & Hres & Hfill & Hnr & Hnc & Hlr & Hlc & Hrows & Hcols);
    try done; try (unfold num_gts in Hg; unfold num_gts, num_bboxes in Hb; lia).
  exists res. split; [done|]. intros c l Hl.
  destruct (fill_spec _ _ _ _ _ _ Hfill) as (_ & _ & _ & Hfg).
  assert (c ∈ cols) as Hc.
  { apply (full_range cols (length gt_bboxes)); try done.
    - unfold num_gts, num_bboxes in Hb. lia.
    - apply lookup_lt_Some in Hl. unfold num_gts in Hlabels. lia. }
  apply list_elem_of_lookup in Hc as [k Hk].
  destruct (lookup_lt_is_Some_2 rows k) as [i Hi].
  { rewrite Hlr, <- Hlc. by eapply lookup_lt_Some. }
  destruct (Hfg Hnr k i c Hi Hk) as (Hval & l' & Hl' & Hlab).
  exists i. split; [done|]. congruence.
Qed.

Lemma every_gt_assigned_witness :
  lsa_contract lsa_brute ∧ shape ex_cost 3 2
  ∧ ∃ res : AssignResult,
      result (ex_assign (Some lsa_brute)) = Ok res
      ∧ ∀ (c : nat) (l : Z), ex_gt_labels !! c = Some l →
          ∃ i : nat, gt_inds res !! i = Some (Z.of_nat c + 1)
                     ∧ labels res !! i = Some l.
Proof.
  split; [exact lsa_brute_contract|].
  assert (shape ex_cost 3 2) as Hshape by (split; [reflexivity|repeat constructor]).
  split; [exact Hshape|].
  apply (every_gt_assigned neg_score_cost l1_cost keep_bbox lsa_brute ex_config
           ex_bbox_pred ex_cls_pred ex_gt_bboxes ex_gt_labels None false init_state).
  - exact lsa_brute_contract.
  - simpl. lia.
  - simpl. lia.
  - exact Hshape.
  - reflexivity.
Defined.

Lemma cols_to_mul_rows (k : nat) (t : matrix) (w : vec) :
  cols_to k (mul_rows t w) = mul_rows (cols_to k t) (take k w).
Proof.
  unfold cols_to, mul_rows. rewrite <- !list_fmap_compose.
  apply list_fmap_ext. intros _ row _. simpl. apply zip_with_take.
Qed.

(** X3.  Without [with_velo] the predicted velocity plays no part: two
    calls whose predictions have one shape (which the code weights, when
    given, fit) and agree on the first 8 code dimensions have the same
    outcome, the same log and the same final state. *)
Theorem velocity_ignored
    (cls_cost_fn : matrix → list Z → matrix) (reg_cost_fn : matrix → matrix → matrix)
    (normalize_bbox : matrix → option vec → matrix)
    (lsa : option (matrix → outcome (list nat * list nat))) (cfg : config)
    (bbox_pred bbox_pred' cls_pred gt_bboxes : matrix) (gt_labels : list Z)
    (gt_bboxes_ignore : option matrix) (code_weights : option vec) (st : state)
    (n d : nat) :
  shape bbox_pred n d → shape bbox_pred' n d →
  (∀ w, code_weights = Some w → length w = d) →
  cols_to 8 bbox_pred = cols_to 8 bbox_pred' →
  assign cls_cost_fn reg_cost_fn normalize_bbox lsa cfg
         bbox_pred cls_pred gt_bboxes gt_labels gt_bboxes_ignore code_weights false st
  = assign cls_cost_fn reg_cost_fn normalize_bbox lsa cfg
           bbox_pred' cls_pred gt_bboxes gt_labels gt_bboxes_ignore code_weights false st.
Proof.
  intros [Hlen _] [Hlen' _] _ Hcols. rewrite <- Hlen' in Hlen. clear Hlen'.
  assert (reg_inputs normalize_bbox cfg bbox_pred gt_bboxes code_weights false
          = reg_inputs normalize_bbox cfg bbox_pred' gt_bboxes code_weights false) as Hreg.
  { unfold reg_inputs. destruct code_weights as [w|]; simpl.
    - by rewrite !cols_to_mul_rows, Hcols.
    - by rewrite Hcols. }
  unfold assign, cost_matrix. by rewrite Hlen, Hreg.
Qed.

Lemma velocity_ignored_witness :
  shape slow_pred 1 10 ∧ shape fast_pred 1 10
  ∧ cols_to 8 slow_pred = cols_to 8 fast_pred
  ∧ slow_pred ≠ fast_pred
  ∧ assign neg_score_cost l1_cost keep_bbox (Some lsa_brute) ex_config
           slow_pred [[Fin 1]] one_gt [0] None None false init_state
    = assign neg_score_cost l1_cost keep_bbox (Some lsa_brute) ex_config
             fast_pred [[Fin 1]] one_gt [0] None None false init_state.
Proof.
  assert (shape slow_pred 1 10) as Hs by (split; [reflexivity|repeat constructor]).
  assert (shape fast_pred 1 10) as Hf by (split; [reflexivity|repeat constructor]).
  split; [exact Hs|]. split; [exact Hf|]. split; [reflexivity|]. split; [discriminate|].
  apply (velocity_ignored neg_score_cost l1_cost keep_bbox (Some lsa_brute) ex_config
           slow_pred fast_pred [[Fin 1]] one_gt [0] None None init_state 1%nat 10%nat
           Hs Hf).
  - discriminate.
  - reflexivity.
Defined.

(** The state and the statistics line after the matching step. *)
Lemma assign_final
    (cls_cost_fn : matrix → list Z → matrix) (reg_cost_fn : matrix → matrix → matrix)
    (normalize_bbox : matrix → option vec → matrix)
    (lsa : option (matrix → outcome (list nat * list nat))) (cfg : config)
    (bbox_pred cls_pred gt_bboxes : matrix) (gt_labels : list Z)
    (gt_bboxes_ignore : option matrix) (code_weights : option vec)
    (with_velo : bool) (st : state) :
  let run := assign cls_cost_fn reg_cost_fn normalize_bbox lsa cfg
                    bbox_pred cls_pred gt_bboxes gt_labels gt_bboxes_ignore
                    code_weights with_velo st in
  (final_state run = st ∧ Forall (λ e, is_print_stats e = false) (trace run))
  ∨ (∃ f rows cols,
       lsa = Some f ∧ gt_bboxes_ignore = None
       ∧ length gt_bboxes ≠ 0%nat ∧ length bbox_pred ≠ 0%nat
       ∧ f (sanitize_cost (cost_matrix cls_cost_fn reg_cost_fn normalize_bbox cfg
                             bbox_pred cls_pred gt_bboxes gt_labels code_weights with_velo))
         = Ok (rows, cols)
       ∧ stats_one2one_matching cfg > 0 ∧ layer_indicator st > 0
       ∧ let old := default (0, 0) (level_stats st !! layer_indicator st) in
         let q := Z.of_nat (length (filter (λ r : nat,
                     Z.of_nat r < Z.of_nat (length bbox_pred) - stats_one2one_matching cfg)
                     rows)) in
         let p := Z.of_nat (length rows) - q in
         final_state run
         = mkState (layer_indicator st + 1)
                   (<[layer_indicator st := (old.1 + q, old.2 + p)]> (level_stats st))
         ∧ PrintStats (layer_indicator st)
                      (share (old.1 + q) (old.1 + q + (old.2 + p)))
                      (share (old.2 + p) (old.1 + q + (old.2 + p))) ∈ trace run).
Proof.
  intros run. subst run.
  destruct gt_bboxes_ignore as [ign|]; [left; split; [done|constructor]|].
  unfold assign. case_decide as Hdeg; [left; split; [done|constructor]|].
  set (cost := cost_matrix _ _ _ _ _ _ _ _ _ _).
  unfold hungarian_match, update_stats, final_state, trace.
  unfold mbind, M_bind, bind, emit, raise, lift, get, put, mret, M_ret, ret.
  destruct lsa as [f|].
  2: { left. destruct (debug cfg) as [dir|]; [destruct (decide (dir = "")) as [Hdir|Hdir]|]; simpl; (split; [done|]); by repeat constructor. }
  destruct (f (sanitize_cost cost)) as [[rows cols]|e] eqn:Hf.
  2: { left. destruct (debug cfg) as [dir|]; [destruct (decide (dir = "")) as [Hdir|Hdir]|]; simpl;
         (split; [done|]); by repeat constructor. }
  destruct (decide (stats_one2one_matching cfg > 0 ∧ layer_indicator st > 0))
    as [[Hs Hl]|Hstats].
  - right. exists f, rows, cols.
    split; [done|]. split; [done|]. split; [tauto|]. split; [tauto|].
    split; [done|]. split; [done|]. split; [done|].
    destruct (debug cfg) as [dir|]; [destruct (decide (dir = "")) as [Hdir|Hdir]|]; simpl;
      (rewrite decide_True by done); simpl;
      (destruct (index_put _ _ _); simpl;
       [destruct (gather _ _); simpl; [destruct (index_put _ _ _); simpl|]|]);
      (split; [done|]); apply list_elem_of_In; simpl; tauto.
  - left.
    destruct (debug cfg) as [dir|]; [destruct (decide (dir = "")) as [Hdir|Hdir]|]; simpl;
      (rewrite decide_False by done); simpl;
      (destruct (index_put _ _ _); simpl;
       [destruct (gather _ _); simpl; [destruct (index_put _ _ _); simpl|]|]);
      (split; [done|]); by repeat constructor.
Qed.

(** X4.  An assigner whose [layer_indicator] is not positive (as
    [__init__] leaves it) or whose [stats_one2one_matching] is not
    positive never prints statistics and never changes its attributes:
    [assign] itself cannot start the statistics. *)
Theorem statistics_stay_off
    (cls_cost_fn : matrix → list Z → matrix) (reg_cost_fn : matrix → matrix → matrix)
    (normalize_bbox : matrix → option vec → matrix)
    (lsa : option (matrix → outcome (list nat * list nat))) (cfg : config)
    (bbox_pred cls_pred gt_bboxes : matrix) (gt_labels : list Z)
    (gt_bboxes_ignore : option matrix) (code_weights : option vec)
    (with_velo : bool) (st : state) :
  let run := assign cls_cost_fn reg_cost_fn normalize_bbox lsa cfg
                    bbox_pred cls_pred gt_bboxes gt_labels gt_bboxes_ignore
                    code_weights with_velo st in
  stats_one2one_matching cfg ≤ 0 ∨ layer_indicator st ≤ 0 →
  final_state run = st ∧ Forall (λ e, is_print_stats e = false) (trace run).
Proof.
  intros run Hoff.
  destruct (assign_final cls_cost_fn reg_cost_fn normalize_bbox lsa cfg
              bbox_pred cls_pred gt_bboxes gt_labels gt_bboxes_ignore
              code_weights with_velo st)
    as [Hleft|(f & rows & cols & _ & _ & _ & _ & _ & Hs & Hl & _)]; [exact Hleft|lia].
Qed.

Lemma statistics_stay_off_witness :
  final_state (assign neg_score_cost l1_cost keep_bbox (Some lsa_brute) stats_config
                 ex_bbox_pred ex_cls_pred ex_gt_bboxes ex_gt_labels None None false
                 init_state) = init_state
  ∧ Forall (λ e, is_print_stats e = false)
           (trace (assign neg_score_cost l1_cost keep_bbox (Some lsa_brute) stats_config
                     ex_bbox_pred ex_cls_pred ex_gt_bboxes ex_gt_labels None None false
                     init_state)).
Proof.
  apply (statistics_stay_off neg_score_cost l1_cost keep_bbox (Some lsa_brute) stats_config
           ex_bbox_pred ex_cls_pred ex_gt_bboxes ex_gt_labels None None false init_state).
  right. simpl. lia.
Defined.

(** X5.  With statistics on (both [stats_one2one_matching] and
    [layer_indicator] positive) a non-degenerate call with a conforming
    solver moves [layer_indicator] up by one and adds to the two counters
    of the current level non-negative amounts that sum to the number of
    matched pairs, min(num_gts, num_bboxes); the line printed gives the
    two new counters as shares of their sum (float32 quotients, shown to
    two decimals).  This happens even if the call fails afterwards. *)
Theorem statistics_count_matches
    (cls_cost_fn : matrix → list Z → matrix) (reg_cost_fn : matrix → matrix → matrix)
    (normalize_bbox : matrix → option vec → matrix)
    (lsa : matrix → outcome (list nat * list nat)) (cfg : config)
    (bbox_pred cls_pred gt_bboxes : matrix) (gt_labels : list Z)
    (code_weights : option vec) (with_velo : bool) (st : state) :
  let cost := cost_matrix cls_cost_fn reg_cost_fn normalize_bbox cfg
                          bbox_pred cls_pred gt_bboxes gt_labels code_weights with_velo in
  let num_gts := length gt_bboxes in
  let num_bboxes := length bbox_pred in
  let run := assign cls_cost_fn reg_cost_fn normalize_bbox (Some lsa) cfg
                    bbox_pred cls_pred gt_bboxes gt_labels None
                    code_weights with_velo st in
  let old := default (0, 0) (level_stats st !! layer_indicator st) in
  lsa_contract lsa →
  (0 < num_gts)%nat → (0 < num_bboxes)%nat →
  shape cost num_bboxes num_gts →
  stats_one2one_matching cfg > 0 → layer_indicator st > 0 →
  ∃ q p : Z,
    0 ≤ q ∧ 0 ≤ p ∧ q + p = Z.of_nat (Nat.min num_gts num_bboxes)
    ∧ final_state run
      = mkState (layer_indicator st + 1)
                (<[layer_indicator st := (old.1 + q, old.2 + p)]> (level_stats st))
    ∧ PrintStats (layer_indicator st)
                 (share (old.1 + q) (old.1 + q + (old.2 + p)))
                 (share (old.2 + p) (old.1 + q + (old.2 + p))) ∈ trace run.
Proof.
  intros cost num_gts num_bboxes run old Hlsa Hg Hb Hshape Hs Hl.
  destruct (assign_final cls_cost_fn reg_cost_fn normalize_bbox (Some lsa) cfg
              bbox_pred cls_pred gt_bboxes gt_labels None code_weights with_velo st)
    as [[Hst _]|(f & rows & cols & [= <-] & _ & _ & _ & Hf & _ & _ & Hfinal & Hprint)].
  - exfalso.
    destruct (Hlsa (sanitize_cost cost) num_bboxes num_gts)
      as (rows & cols & Hrun & _); [by apply sanitize_cost_shape|apply sanitize_cost_finite|].
    revert Hst. unfold assign. rewrite decide_False by (unfold num_gts, num_bboxes in *; lia).
    unfold hungarian_match, update_stats, final_state.
    unfold mbind, M_bind, bind, emit, raise, lift, get, put, mret, M_ret, ret. simpl.
    fold cost.
    destruct (debug cfg) as [dir|]; [destruct (decide (dir = "")) as [Hdir|Hdir]|]; simpl; rewrite Hrun; simpl;
      (rewrite decide_True by done); simpl;
      (destruct (index_put _ _ _); simpl;
       [destruct (gather _ _); simpl; [destruct (index_put _ _ _); simpl|]|]);
      intros Heq; apply (f_equal layer_indicator) in Heq; simpl in Heq; lia.
  - destruct (Hlsa (sanitize_cost cost) num_bboxes num_gts)
      as (rows' & cols' & Hrun & Hlr & _); [by apply sanitize_cost_shape|apply sanitize_cost_finite|].
    fold cost in Hf. rewrite Hf in Hrun. injection Hrun as <- <-.
    eexists _, _. split; [|split; [|split; [|split; [exact Hfinal|exact Hprint]]]].
    + lia.
    + pose proof (length_filter (λ r : nat,
          Z.of_nat r < Z.of_nat (length bbox_pred) - stats_one2one_matching cfg) rows).
      lia.
    + rewrite Hlr. unfold num_gts, num_bboxes. lia.
Qed.

Lemma statistics_count_matches_witness :
  lsa_contract lsa_brute ∧ shape ex_cost 3 2
  ∧ ∃ q p : Z,
      0 ≤ q ∧ 0 ≤ p ∧ q + p = Z.of_nat (Nat.min 2 3)
      ∧ final_state (assign neg_score_cost l1_cost keep_bbox (Some lsa_brute) stats_config
                       ex_bbox_pred ex_cls_pred ex_gt_bboxes ex_gt_labels None None false
                       stats_state)
        = mkState 3 (<[2 := (4 + q, 1 + p)]> {[ 2 := (4, 1) ]})
      ∧ PrintStats 2 (share (4 + q) (4 + q + (1 + p))) (share (1 + p) (4 + q + (1 + p)))
        ∈ trace (assign neg_score_cost l1_cost keep_bbox (Some lsa_brute) stats_config
                   ex_bbox_pred ex_cls_pred ex_gt_bboxes ex_gt_labels None None false
                   stats_state).
Proof.
  split; [exact lsa_brute_contract|].
  assert (shape ex_cost 3 2) as Hshape by (split; [reflexivity|repeat constructor]).
  split; [exact Hshape|].
  apply (statistics_count_matches neg_score_cost l1_cost keep_bbox lsa_brute stats_config
           ex_bbox_pred ex_cls_pred ex_gt_bboxes ex_gt_labels None false stats_state).
  - exact lsa_brute_contract.
  - simpl. lia.
  - simpl. lia.
  - exact Hshape.
  - simpl. lia.
  - simpl. lia.
Defined.

Lemma sanitize_cost_id (cost : matrix) : all_finite cost → sanitize_cost cost = cost.
Proof.
  unfold all_finite, sanitize_cost. intros H.
  induction H as [|row rows Hrow _ IH]; [done|]. csimpl. f_equal; [|exact IH].
  clear IH. induction Hrow as [|x xs Hx _ IH]; [done|]. csimpl. f_equal; [|exact IH].
  by destruct x.
Qed.

(** X6.  A cost matrix without NaN and infinities reaches the solver
    unchanged: sanitising alters nothing that is finite, and the result of
    [assign] is made from the answer of the solver on the cost matrix
    itself. *)
Theorem finite_cost_unchanged
    (cls_cost_fn : matrix → list Z → matrix) (reg_cost_fn : matrix → matrix → matrix)
    (normalize_bbox : matrix → option vec → matrix)
    (lsa : matrix → outcome (list nat * list nat)) (cfg : config)
    (bbox_pred cls_pred gt_bboxes : matrix) (gt_labels : list Z)
    (code_weights : option vec) (with_velo : bool) (st : state) :
  let cost := cost_matrix cls_cost_fn reg_cost_fn normalize_bbox cfg
                          bbox_pred cls_pred gt_bboxes gt_labels code_weights with_velo in
  all_finite cost →
  (0 < length gt_bboxes)%nat → (0 < length bbox_pred)%nat →
  sanitize_cost cost = cost
  ∧ result (assign cls_cost_fn reg_cost_fn normalize_bbox (Some lsa) cfg
                   bbox_pred cls_pred gt_bboxes gt_labels None code_weights with_velo st)
    = (p ← lsa cost;
       fill (length gt_bboxes) (length bbox_pred) gt_labels p.1 p.2).
Proof.
  intros cost Hfin Hg Hb. split; [by apply sanitize_cost_id|].
  rewrite assign_result by lia. fold cost. by rewrite (sanitize_cost_id cost Hfin).
Qed.

Lemma finite_cost_unchanged_witness :
  sanitize_cost (cost_matrix neg_score_cost l1_cost keep_bbox ex_config
                   finite_bbox_pred ex_cls_pred ex_gt_bboxes ex_gt_labels None false)
  = cost_matrix neg_score_cost l1_cost keep_bbox ex_config
                finite_bbox_pred ex_cls_pred ex_gt_bboxes ex_gt_labels None false
  ∧ result (assign neg_score_cost l1_cost keep_bbox (Some lsa_brute) ex_config
                   finite_bbox_pred ex_cls_pred ex_gt_bboxes ex_gt_labels None None false
                   init_state)
    = (p ← lsa_brute (cost_matrix neg_score_cost l1_cost keep_bbox ex_config
                        finite_bbox_pred ex_cls_pred ex_gt_bboxes ex_gt_labels None false);
       fill (length ex_gt_bboxes) (length finite_bbox_pred) ex_gt_labels p.1 p.2).
Proof.
  apply (finite_cost_unchanged neg_score_cost l1_cost keep_bbox lsa_brute ex_config
           finite_bbox_pred ex_cls_pred ex_gt_bboxes ex_gt_labels None false init_state).
  - repeat constructor.
  - simpl. lia.
  - simpl. lia.
Defined.

End AssignMore.

(* ===================================================================== *)
(** * Further facts about NMSFreeCoder *)
(* ===================================================================== *)

Module DecodeMore.
Import Float Py NMSFree NMSFreeMore PyFacts TopK NMSFreeFacts DecoderFacts.

Lemma item_last {A} (xs : list A) (x : A) :
  last xs = Some x → item xs (length xs - 1) = Ok x.
Proof.
  intros H. unfold item. rewrite last_lookup in H.
  replace (length xs - 1)%nat with (pred (length xs)) by lia. by rewrite H.
Qed.

Lemma item_last_None {A} (xs : list A) :
  last xs = None → item xs (length xs - 1) = Raise IndexError.
Proof.
  intros H. unfold item. rewrite last_lookup in H.
  replace (length xs - 1)%nat with (pred (length xs)) by lia. by rewrite H.
Qed.

Lemma mapM_seq_items {A B C} (f : A → B → outcome C) (c : list A) :
  ∀ (b : list B) (pc : list A) (pb : list B),
    length pc = length pb → (length c ≤ length b)%nat →
    mapM (M := outcome)
         (λ i : nat, x ← item (pc ++ c) i; y ← item (pb ++ b) i; f x y)
         (seq (length pc) (length c))
    = mapM (M := outcome) (λ p, f p.1 p.2) (zip c b).
Proof.
  induction c as [|x c IH]; intros b pc pb Hp Hlen; [done|].
  destruct b as [|y b]; [simpl in Hlen; lia|].
  simpl in Hlen. cbn [length seq zip zip_with mapM].
  assert (item (pc ++ x :: c) (length pc) = Ok x) as ->.
  { unfold item. by rewrite list_lookup_middle. }
  assert (item (pb ++ y :: b) (length pc) = Ok y) as ->.
  { unfold item. by rewrite list_lookup_middle. }
  specialize (IH b (pc ++ [x]) (pb ++ [y])).
  rewrite <- !(assoc_L (++)) in IH. simpl in IH.
  rewrite length_app in IH. simpl in IH.
  replace (length pc + 1)%nat with (S (length pc)) in IH by lia.
  simpl. rewrite IH; [done| |lia].
  rewrite !length_app. simpl. lia.
Qed.

Section Decode.
Variable sigmoid : fval → fval.
Variable topk : vec → Z → outcome (vec * list nat).
Variable denormalize_bbox : matrix → vec → matrix.

Abbreviation decode_single_ := (decode_single sigmoid topk denormalize_bbox).
Abbreviation decode_ := (decode sigmoid topk denormalize_bbox).

Lemma decode_zip (cfg : config) (preds_dicts : gmap string (list (list matrix)))
    (cls box : list (list matrix)) (c b : list matrix) :
  preds_dicts !! "all_cls_scores" = Some cls → last cls = Some c →
  preds_dicts !! "all_bbox_preds" = Some box → last box = Some b →
  (length c ≤ length b)%nat →
  decode_ cfg preds_dicts
  = mapM (M := outcome) (λ p, decode_single_ cfg p.1 p.2) (zip c b).
Proof.
  intros Hc Hlc Hb Hlb Hlen. unfold decode, getitem. rewrite Hc, Hb. simpl.
  rewrite (item_last _ _ Hlc). simpl. rewrite (item_last _ _ Hlb). simpl.
  exact (mapM_seq_items (decode_single_ cfg) c b [] [] eq_refl Hlen).
Qed.
End Decode.

(** X7.  [decode] looks only at the last decoder layer: whatever the
    earlier layers and the other entries of [preds_dicts] hold, the call
    is [decode_single] run on the samples of that layer in order, and a
    returned list has one prediction per sample. *)
Theorem decode_last_layer
    (sigmoid : fval → fval) (topk : vec → Z → outcome (vec * list nat))
    (denormalize_bbox : matrix → vec → matrix)
    (cfg : config) (preds_dicts : gmap string (list (list matrix)))
    (cls box : list (list matrix)) (c b : list matrix) :
  preds_dicts !! "all_cls_scores" = Some cls → last cls = Some c →
  preds_dicts !! "all_bbox_preds" = Some box → last box = Some b →
  (length c ≤ length b)%nat →
  decode sigmoid topk denormalize_bbox cfg preds_dicts
  = mapM (M := outcome)
         (λ p, decode_single sigmoid topk denormalize_bbox cfg p.1 p.2) (zip c b)
  ∧ ∀ out, decode sigmoid topk denormalize_bbox cfg preds_dicts = Ok out →
           length out = length c
           ∧ ∀ i ci bi, c !! i = Some ci → b !! i = Some bi →
               ∃ d, out !! i = Some d
                    ∧ decode_single sigmoid topk denormalize_bbox cfg ci bi = Ok d.
Proof.
  intros Hc Hlc Hb Hlb Hlen.
  pose proof (decode_zip sigmoid topk denormalize_bbox cfg preds_dicts
                cls box c b Hc Hlc Hb Hlb Hlen) as Heq.
  split; [exact Heq|]. intros out Hout. rewrite Heq in Hout.
  apply mapM_outcome_Ok in Hout.
  pose proof (Forall2_length _ _ _ Hout) as Hl. rewrite length_zip in Hl.
  split; [lia|]. intros i ci bi Hci Hbi.
  assert (zip c b !! i = Some (ci, bi)) as Hz.
  { apply lookup_zip_with_Some. eauto. }
  destruct (Forall2_lookup_l _ _ _ _ _ Hout Hz) as (d & Hd & Hrun).
  exists d. split; [exact Hd|exact Hrun].
Qed.

Lemma decode_last_layer_witness :
  decode sigmoid_like topk_sort centers_first ex_config ex_preds
  = mapM (M := outcome)
         (λ p, decode_single sigmoid_like topk_sort centers_first ex_config p.1 p.2)
         (zip [ex_cls_scores] [ex_bbox_preds])
  ∧ ∀ out, decode sigmoid_like topk_sort centers_first ex_config ex_preds = Ok out →
           length out = length [ex_cls_scores]
           ∧ ∀ i ci bi, [ex_cls_scores] !! i = Some ci → [ex_bbox_preds] !! i = Some bi →
               ∃ d, out !! i = Some d
                    ∧ decode_single sigmoid_like topk_sort centers_first ex_config ci bi
                      = Ok d.
Proof.
  apply (decode_last_layer sigmoid_like topk_sort centers_first ex_config ex_preds
           [[[[NaN]]]; [ex_cls_scores]] [[]; [ex_bbox_preds]]).
  - reflexivity.
  - reflexivity.
  - reflexivity.
  - reflexivity.
  - simpl. lia.
Defined.

(** ** The k-th box, score and label describe one query and one class *)

Lemma concat_lookup_shape {A} (C : nat) (m : list (list A)) :
  ∀ (i : nat) (v : A),
    Forall (λ row, length row = C) m → concat m !! i = Some v →
    ∃ (q c : nat) (row : list A),
      i = (q * C + c)%nat ∧ (c < C)%nat ∧ m !! q = Some row ∧ row !! c = Some v.
Proof.
  induction m as [|r m IH]; intros i v Hshape Hi; [done|].
  apply Forall_cons in Hshape as [Hr Hm]. simpl in Hi, Hr.
  destruct (decide (i < length r)%nat) as [Hlt|Hge].
  - rewrite lookup_app_l in Hi by done.
    exists 0%nat, i, r. repeat split; try done; lia.
  - rewrite lookup_app_r in Hi by lia.
    destruct (IH _ _ Hm Hi) as (q & c & row & Hq & Hc & Hrow & Hv).
    exists (S q), c, row. repeat split; try done; lia.
Qed.

Lemma gatherZ_lookup {A} (xs : list A) (idx : list Z) (ys : list A) (k : nat)
    (q : nat) (y : A) :
  gatherZ xs idx = Ok ys → idx !! k = Some (Z.of_nat q) → ys !! k = Some y →
  xs !! q = Some y.
Proof.
  intros H Hq Hy. apply mapM_outcome_Ok in H.
  destruct (Forall2_lookup_l _ _ _ _ _ H Hq) as (y' & Hy' & Hrun).
  rewrite Hy in Hy'. injection Hy' as <-. simpl in Hrun. revert Hrun.
  destruct (Z.of_nat q <? 0) eqn:E; [apply Z.ltb_lt in E; lia|]. rewrite E.
  rewrite Nat2Z.id. destruct (xs !! q); [|done]. by intros [= ->].
Qed.

Lemma select_lookup3 {A B C} (mask : list bool) (xs : list A) (ys : list B) (zs : list C)
    (k : nat) (x : A) (y : B) (z : C) :
  select mask xs !! k = Some x → select mask ys !! k = Some y →
  select mask zs !! k = Some z →
  ∃ p, xs !! p = Some x ∧ ys !! p = Some y ∧ zs !! p = Some z.
Proof.
  intros Hx Hy Hz.
  assert (select mask (zip xs (zip ys zs)) !! k = Some (x, (y, z))) as Hk.
  { rewrite !select_zip. apply lookup_zip_with_Some.
    exists x, (y, z). split; [done|]. split; [done|].
    apply lookup_zip_with_Some. eauto. }
  apply list_elem_of_lookup_2, select_elem in Hk as (p & _ & Hp).
  apply lookup_zip_with_Some in Hp as (x' & yz & [= <- <-] & Hxp & Hyz).
  apply lookup_zip_with_Some in Hyz as (y' & z' & [= <- <-] & Hyp & Hzp).
  eauto.
Qed.

(** X8.  The outputs of [decode_single] are aligned: with
    [cls_scores] of [num_classes] columns, the k-th box, score and label
    belong to one query [q] and one class [c]: the label is [c], the score
    is the sigmoid of [cls_scores[q][c]] and the box is the denormalised
    [bbox_preds[q]]. *)
Theorem detections_aligned
    (sigmoid : fval → fval) (topk : vec → Z → outcome (vec * list nat))
    (denormalize_bbox : matrix → vec → matrix) (denormalize_row : vec → vec)
    (cfg : config) (cls_scores bbox_preds : matrix) (C : nat)
    (d : gmap string tensor) :
  topk_contract topk →
  (∀ b, denormalize_bbox b (pc_range cfg) = denormalize_row <$> b) →
  0 ≤ max_num cfg → (0 < C)%nat → num_classes cfg = Z.of_nat C →
  Forall (λ row, length row = C) cls_scores →
  decode_single sigmoid topk denormalize_bbox cfg cls_scores bbox_preds = Ok d →
  ∃ (boxes : matrix) (scores : vec) (labels : list Z),
    d = predictions boxes scores labels
    ∧ length scores = length boxes ∧ length labels = length boxes
    ∧ ∀ (k : nat) (box : vec) (s : fval) (l : Z),
        boxes !! k = Some box → scores !! k = Some s → labels !! k = Some l →
        ∃ (q c : nat) (logits pred : vec) (x : fval),
          (c < C)%nat ∧ l = Z.of_nat c
          ∧ cls_scores !! q = Some logits ∧ logits !! c = Some x ∧ s = sigmoid x
          ∧ bbox_preds !! q = Some pred ∧ box = denormalize_row pred.
Proof.
  intros Htopk Hden Hmax HC Hnc Hshape Hrun.
  apply decode_single_Ok in Hrun
    as (scores & idxs & labels & bidx & picked & r & Hcall & Hlab & Hbox & Hgather
        & Hrange & Hlb & Hls & Hll & ->).
  set (flat := flat_scores sigmoid cls_scores) in *.
  destruct (Htopk flat (Z.min (Z.of_nat (length flat)) (max_num cfg)))
    as (vals & idxs' & Hcall' & _ & _ & Hvals & _); [lia|].
  rewrite Hcall in Hcall'. injection Hcall' as <- <-.
  rewrite Hden in *.
  set (mask := keep_mask cfg (f32 <$> r) (denormalize_row <$> picked) _) in *.
  eexists _, _, _. split; [reflexivity|].
  split; [by rewrite !select_length_count|]. split; [by rewrite !select_length_count|].
  intros k box s l Hk Hs Hl.
  destruct (select_lookup3 mask _ _ _ k _ _ _ Hk Hs Hl) as (p & Hbp & Hsp & Hlp).
  destruct (Forall2_lookup_l _ _ _ _ _ Hvals Hsp) as (i & Hip & Hflat).
  destruct (Forall2_lookup_l _ _ _ _ _ Hlab Hip) as (l' & Hl' & _ & Heql).
  rewrite Hlp in Hl'. injection Hl' as <-.
  destruct (Forall2_lookup_l _ _ _ _ _ Hbox Hip) as (bq & Hbq & _ & Heqb).
  apply list_lookup_fmap_Some in Hbp as (pred & -> & Hpred).
  unfold flat, flat_scores in Hflat.
  assert (Forall (λ row : vec, length row = C)
            ((λ row : vec, sigmoid <$> row) <$> cls_scores)) as Hshape'.
  { apply Forall_fmap. eapply Forall_impl; [exact Hshape|].
    intros row Hrow. simpl. by rewrite length_fmap. }
  destruct (concat_lookup_shape C _ _ _ Hshape' Hflat)
    as (q & c & row & -> & Hc & Hrow & Hv).
  apply list_lookup_fmap_Some in Hrow as (logits & -> & Hlogits).
  apply list_lookup_fmap_Some in Hv as (x & -> & Hx).
  exists q, c, logits, pred, x.
  assert (Z.of_nat (q * C + c) = Z.of_nat q * Z.of_nat C + Z.of_nat c) as Hi by lia.
  assert ((Z.of_nat q * Z.of_nat C + Z.of_nat c) mod Z.of_nat C = Z.of_nat c) as Hmod.
  { rewrite Z.add_comm, Z_mod_plus_full. apply Z.mod_small. lia. }
  assert ((Z.of_nat q * Z.of_nat C + Z.of_nat c) / Z.of_nat C = Z.of_nat q) as Hdiv.
  { rewrite Z.div_add_l by lia. rewrite Z.div_small by lia. lia. }
  rewrite Hnc, Hi, Hmod in Heql. rewrite Hnc, Hi, Hdiv in Heqb. subst bq.
  repeat split; try done.
  eapply gatherZ_lookup; eauto.
Qed.

Lemma detections_aligned_witness :
  ∃ (boxes : matrix) (scores : vec) (labels : list Z),
    ex_decoded = predictions boxes scores labels
    ∧ length scores = length boxes ∧ length labels = length boxes
    ∧ ∀ (k : nat) (box : vec) (s : fval) (l : Z),
        boxes !! k = Some box → scores !! k = Some s → labels !! k = Some l →
        ∃ (q c : nat) (logits pred : vec) (x : fval),
          (c < 2)%nat ∧ l = Z.of_nat c
          ∧ ex_cls_scores !! q = Some logits ∧ logits !! c = Some x ∧ s = sigmoid_like x
          ∧ ex_bbox_preds !! q = Some pred ∧ box = center_first pred.
Proof.
  apply (detections_aligned sigmoid_like topk_sort centers_first center_first
           ex_config ex_cls_scores ex_bbox_preds 2%nat ex_decoded).
  - exact topk_sort_contract.
  - reflexivity.
  - simpl. lia.
  - lia.
  - reflexivity.
  - repeat constructor.
  - vm_compute. reflexivity.
Defined.

(** ** Which errors can come from where *)

Lemma item_raise {A} (xs : list A) (i : nat) (e : exn) :
  item xs i = Raise e → e = IndexError.
Proof. unfold item. destruct (xs !! i); [done|]. by intros [= <-]. Qed.

Lemma mapM_raise {A B} (f : A → outcome B) (l : list A) (e : exn) :
  mapM (M := outcome) f l = Raise e → ∃ x, x ∈ l ∧ f x = Raise e.
Proof.
  induction l as [|x l IH]; [done|]. simpl.
  destruct (f x) as [y|e'] eqn:Hx; simpl.
  - destruct (mapM f l) as [k|e'']; simpl; [done|].
    intros [= ->]. destruct IH as (x' & Hin & Hx'); [done|].
    exists x'. split; [by right|done].
  - intros [= ->]. exists x. split; [by left|done].
Qed.

Section Errors.
Variable sigmoid : fval → fval.
Variable topk : vec → Z → outcome (vec * list nat).
Variable denormalize_bbox : matrix → vec → matrix.

Lemma decode_single_no_key_error (cfg : config) (cls_scores bbox_preds : matrix)
    (k : string) :
  topk_contract topk → 0 ≤ max_num cfg →
  decode_single sigmoid topk denormalize_bbox cfg cls_scores bbox_preds
  ≠ Raise (KeyError k).
Proof.
  intros Htopk Hmax H. unfold decode_single in H.
  set (flat := flat_scores sigmoid cls_scores) in H.
  destruct (Htopk flat (Z.min (Z.of_nat (length flat)) (max_num cfg)))
    as (vals & idxs & Hcall & _); [lia|].
  rewrite Hcall in H. simpl in H. unfold mbind at 1, outcome_bind in H.
  destruct (mapM _ idxs) as [labels|e] eqn:Hl in H.
  2: { injection H as ->. apply mapM_raise in Hl as (x & _ & Hx).
       unfold py_mod in Hx. by case_decide. }
  unfold mbind at 1, outcome_bind in H.
  destruct (mapM _ idxs) as [bidx|e] eqn:Hb in H.
  2: { injection H as ->. apply mapM_raise in Hb as (x & _ & Hx).
       unfold floor_div in Hx. by case_decide. }
  unfold mbind at 1, outcome_bind in H.
  destruct (gatherZ bbox_preds bidx) as [picked|e] eqn:Hg.
  2: { injection H as ->. apply mapM_raise in Hg as (x & _ & Hx). simpl in Hx.
       destruct (_ <? 0); [done|]. by destruct (bbox_preds !! _). }
  destruct (post_center_range cfg) as [r|]; [|done].
  unfold mask_select, mbind, outcome_bind in H.
  repeat (case_decide; [|done]). done.
Qed.
End Errors.

(** X9.  With a conforming [topk] and a non-negative [max_num],
    [decode] raises [KeyError] exactly when one of its two keys is
    missing, and names the first missing one: for [all_bbox_preds] that
    means after [all_cls_scores] was found and had a last layer. *)
Theorem key_error_iff
    (sigmoid : fval → fval) (topk : vec → Z → outcome (vec * list nat))
    (denormalize_bbox : matrix → vec → matrix)
    (cfg : config) (preds_dicts : gmap string (list (list matrix))) (k : string) :
  topk_contract topk → 0 ≤ max_num cfg →
  decode sigmoid topk denormalize_bbox cfg preds_dicts = Raise (KeyError k)
  ↔ (k = "all_cls_scores" ∧ preds_dicts !! "all_cls_scores" = None)
    ∨ (k = "all_bbox_preds" ∧ preds_dicts !! "all_bbox_preds" = None
       ∧ ∃ cls, preds_dicts !! "all_cls_scores" = Some cls ∧ cls ≠ []).
Proof.
  intros Htopk Hmax. unfold decode, getitem.
  destruct (preds_dicts !! "all_cls_scores") as [cls|] eqn:Hc; simpl.
  2: { split.
       - intros [= <-]. by left.
       - intros [[-> _]|(_ & _ & cls & ? & _)]; done. }
  destruct (last cls) as [c|] eqn:Hlc.
  2: { rewrite (item_last_None _ Hlc). simpl. apply last_None in Hlc as ->.
       split; [done|]. intros [[_ ?]|(_ & _ & cls & [= <-] & ?)]; done. }
  rewrite (item_last _ _ Hlc). simpl.
  assert (cls ≠ []) as Hne by (intros ->; done).
  destruct (preds_dicts !! "all_bbox_preds") as [box|] eqn:Hb; simpl.
  2: { split.
       - intros [= <-]. right. eauto.
       - intros [[_ ?]|(-> & _)]; done. }
  split; [|intros [[_ ?]|(_ & ? & _)]; done].
  intros Hrun. exfalso.
  destruct (item box (length box - 1)) as [b|e] eqn:Hib; simpl in Hrun.
  2: { by apply item_raise in Hib as ->. }
  apply mapM_raise in Hrun as (i & _ & Hi).
  destruct (item c i) as [ci|e] eqn:Hci; simpl in Hi.
  2: { by apply item_raise in Hci as ->. }
  destruct (item b i) as [bi|e] eqn:Hbi; simpl in Hi.
  2: { by apply item_raise in Hbi as ->. }
  by apply decode_single_no_key_error in Hi.
Qed.

Lemma key_error_iff_witness :
  decode sigmoid_like topk_sort centers_first ex_config (delete "all_bbox_preds" ex_preds)
  = Raise (KeyError "all_bbox_preds")
  ↔ ("all_bbox_preds" = "all_cls_scores"
     ∧ delete "all_bbox_preds" ex_preds !! "all_cls_scores" = None)
    ∨ ("all_bbox_preds" = "all_bbox_preds"
       ∧ delete "all_bbox_preds" ex_preds !! "all_bbox_preds" = None
       ∧ ∃ cls, delete "all_bbox_preds" ex_preds !! "all_cls_scores" = Some cls ∧ cls ≠ []).
Proof.
  apply (key_error_iff sigmoid_like topk_sort centers_first ex_config
           (delete "all_bbox_preds" ex_preds) "all_bbox_preds").
  - exact topk_sort_contract.
  - simpl. lia.
Defined.

(** X10.  A [score_threshold] that Python takes for false (0.0) is the
    same as no threshold at all: the mask of line 68 is computed and then
    left out at line 77. *)
Theorem falsy_threshold_is_none
    (sigmoid : fval → fval) (topk : vec → Z → outcome (vec * list nat))
    (denormalize_bbox : matrix → vec → matrix)
    (cfg : config) (t : fval) (cls_scores bbox_preds : matrix) :
  truthy t = false →
  decode_single sigmoid topk denormalize_bbox (with_threshold cfg (Some t))
                cls_scores bbox_preds
  = decode_single sigmoid topk denormalize_bbox (with_threshold cfg None)
                  cls_scores bbox_preds.
Proof.
  intros Ht. unfold decode_single, keep_mask, with_threshold. simpl. rewrite Ht.
  reflexivity.
Qed.

Lemma falsy_threshold_is_none_witness :
  decode_single sigmoid_like topk_sort centers_first
                (with_threshold ex_config (Some (Fin 0))) ex_cls_scores ex_bbox_preds
  = decode_single sigmoid_like topk_sort centers_first
                  (with_threshold ex_config None) ex_cls_scores ex_bbox_preds.
Proof.
  apply (falsy_threshold_is_none sigmoid_like topk_sort centers_first ex_config (Fin 0)
           ex_cls_scores ex_bbox_preds).
  reflexivity.
Defined.

End DecodeMore.

(* ===================================================================== *)
(** * Facts about TrackingNMSFreeCoder *)
(* ===================================================================== *)

Module TrackingFacts.
Import Float Py NMSFree NMSFreeMore TrackingNMSFree PyFacts TopK NMSFreeFacts DecoderFacts DecodeMore.

Ltac run_binds :=
  unfold mbind, answer_bind, outcome_bind, mret, answer_ret, outcome_ret, std; simpl.

Lemma mapM_std {A B} (f : A → outcome B) (g : A → answer B) (l : list A) :
  (∀ x, x ∈ l → g x = std (f x)) →
  mapM (M := answer) g l = std (mapM (M := outcome) f l).
Proof.
  induction l as [|x l IH]; intros H; [done|]. simpl.
  rewrite (H x) by by left. rewrite IH by (intros y Hy; apply H; by right).
  destruct (f x); run_binds; [|done]. by destruct (mapM f l).
Qed.

Lemma bind_Done {A B} (m : answer A) (f : A → answer B) (b : B) :
  m ≫= f = Done b → ∃ a, m = Done a ∧ f a = Done b.
Proof. destruct m as [a|e]; [|done]. intros H. by exists a. Qed.

Lemma bind_Ok {A B} (a : A) (f : A → outcome B) : Ok a ≫= f = f a.
Proof. reflexivity. Qed.

Lemma std_Done {A} (o : outcome A) (a : A) : std o = Done a → o = Ok a.
Proof. destruct o; [|done]. by intros [= ->]. Qed.

Lemma select_NoDup {A} (mask : list bool) : ∀ xs : list A,
  NoDup xs → NoDup (select mask xs).
Proof.
  induction mask as [|b mask IH]; intros [|x xs] Hnd; simpl; try constructor.
  apply NoDup_cons in Hnd as [Hx Hnd]. destruct b; [|by apply IH].
  apply NoDup_cons. split; [|by apply IH].
  intros (i & _ & Hi)%select_elem. apply Hx. by eapply list_elem_of_lookup_2.
Qed.

Lemma select_Forall2 {A B} (R : A → B → Prop) (mask : list bool) :
  ∀ (xs : list A) (ys : list B),
    Forall2 R xs ys → Forall2 R (select mask xs) (select mask ys).
Proof.
  induction mask as [|b mask IH]; intros xs ys H; destruct H; simpl; try constructor.
  destruct b; [constructor; [done|]|]; by apply IH.
Qed.

Lemma lookups_NoDup {A} (o : list A) (qs : list nat) (ids : list A) :
  NoDup qs → NoDup o → Forall2 (λ q id, o !! q = Some id) qs ids → NoDup ids.
Proof.
  intros Hqs Ho H. induction H as [|q id qs ids Hq H IH]; [constructor|].
  apply NoDup_cons in Hqs as [Hnotin Hqs]. apply NoDup_cons. split; [|by apply IH].
  intros Hin. apply list_elem_of_lookup in Hin as [k Hk].
  destruct (Forall2_lookup_r _ _ _ _ _ H Hk) as (q' & Hq' & Hoq').
  assert (q' = q) as -> by (eapply NoDup_lookup; eauto).
  apply Hnotin. by eapply list_elem_of_lookup_2.
Qed.

Lemma mask_select_Ok {A} (mask : list bool) (xs ys : list A) :
  mask_select mask xs = Ok ys → length mask = length xs ∧ ys = select mask xs.
Proof. unfold mask_select. case_decide; [|done]. by intros [= <-]. Qed.

Section Decode.
Variable sigmoid : fval → fval.
Variable topk : vec → Z → outcome (vec * list nat).
Variable max_dim : matrix → outcome (vec * list nat).
Variable denormalize_bbox : matrix → vec → matrix.

Lemma decode_single_off (cfg : config) (cls_scores bbox_preds : matrix)
    (track_scores : option vec) :
  TrackingNMSFree.decode_single sigmoid topk max_dim denormalize_bbox cfg false
    cls_scores bbox_preds None track_scores
  = std (NMSFree.decode_single sigmoid topk denormalize_bbox cfg cls_scores bbox_preds).
Proof.
  unfold TrackingNMSFree.decode_single, candidates, NMSFree.decode_single, flat_scores.
  run_binds.
  destruct (topk _ _) as [[scores idxs]|]; [|done].
  destruct (mapM _ idxs) as [labels|]; [|done].
  destruct (mapM _ idxs) as [bidx|]; [|done].
  destruct (gatherZ _ _) as [picked|]; [|done].
  destruct (post_center_range cfg) as [r|]; [|done].
  destruct (mask_select _ _); [|done].
  destruct (mask_select _ _); [|done].
  destruct (mask_select _ _); done.
Qed.

(** What a successful call with object ids went through when
    [tracking_decoding] is off. *)
Lemma tracked_Done (cfg : config) (cls_scores bbox_preds : matrix) (o : list Z)
    (track_scores : option vec) (d : gmap string tensor) :
  TrackingNMSFree.decode_single sigmoid topk max_dim denormalize_bbox cfg false
    cls_scores bbox_preds (Some o) track_scores = Done d →
  ∃ (scores : vec) (idxs : list nat) (labels bidx : list Z) (picked : matrix)
    (ids : list Z) (r : vec),
    topk (flat_scores sigmoid cls_scores)
         (Z.min (Z.of_nat (length (flat_scores sigmoid cls_scores))) (max_num cfg))
    = Ok (scores, idxs)
    ∧ mapM (M := outcome) (λ i : nat, py_mod (num_classes cfg) (Z.of_nat i)) idxs
      = Ok labels
    ∧ mapM (M := outcome) (λ i : nat, floor_div (num_classes cfg) (Z.of_nat i)) idxs
      = Ok bidx
    ∧ gatherZ bbox_preds bidx = Ok picked
    ∧ gatherZ o bidx = Ok ids
    ∧ post_center_range cfg = Some r
    ∧ let boxes := denormalize_bbox picked (pc_range cfg) in
      let mask := keep_mask cfg (f32 <$> r) boxes
                    match score_threshold cfg with
                    | Some t => Some ((λ s, fge s (f32 t)) <$> scores)
                    | None => None
                    end in
      length mask = length boxes ∧ length mask = length scores
      ∧ length mask = length labels ∧ length mask = length ids
      ∧ d = with_tracks (predictions (select mask boxes) (select mask scores)
                                     (select mask labels))
                        (select mask scores) (select mask ids).
Proof.
  unfold TrackingNMSFree.decode_single, candidates, flat_scores.
  cbn [negb]. intros H.
  apply bind_Done in H as ([[[[scores labels] picked] oids] tscores] & Hcand & H).
  apply bind_Done in Hcand as ([scores' idxs] & Htopk%std_Done & Hcand).
  apply bind_Done in Hcand as (labels' & Hlabels%std_Done & Hcand).
  apply bind_Done in Hcand as (bidx & Hbidx%std_Done & Hcand).
  apply bind_Done in Hcand as (picked' & Hpicked%std_Done & Hcand).
  apply bind_Done in Hcand as (ids & Hids%std_Done & Hcand).
  injection Hcand as <- <- <- <- <-.
  destruct (post_center_range cfg) as [r|] eqn:Hr; [|discriminate].
  apply bind_Done in H as (boxes3d & [Hlb ->]%std_Done%mask_select_Ok & H).
  apply bind_Done in H as (scores1 & [Hls ->]%std_Done%mask_select_Ok & H).
  apply bind_Done in H as (labels1 & [Hll ->]%std_Done%mask_select_Ok & H).
  apply bind_Done in H as (ts1 & [_ ->]%std_Done%mask_select_Ok & H).
  apply bind_Done in H as (ids1 & [Hli ->]%std_Done%mask_select_Ok & H).
  injection H as <-.
  exists scores', idxs, labels', bidx, picked', ids, r. done.
Qed.

(** What a successful call went through when [tracking_decoding] is on. *)
Lemma tracking_Done (cfg : config) (cls_scores bbox_preds : matrix)
    (obj_idxes : option (list Z)) (track_scores : option vec) (d : gmap string tensor) :
  TrackingNMSFree.decode_single sigmoid topk max_dim denormalize_bbox cfg true
    cls_scores bbox_preds obj_idxes track_scores = Done d →
  ∃ (o : list Z) (best : vec) (idxs : list nat) (labels : list Z) (top : vec)
    (bbox_index : list nat) (ts : vec) (ids : list Z) (picked : matrix)
    (labs : list Z) (r : vec),
    obj_idxes = Some o
    ∧ max_dim ((λ row : vec, sigmoid <$> row) <$> cls_scores) = Ok (best, idxs)
    ∧ mapM (M := outcome) (λ i : nat, py_mod (num_classes cfg) (Z.of_nat i)) idxs
      = Ok labels
    ∧ topk best (Z.min (max_num cfg) (Z.of_nat (length o))) = Ok (top, bbox_index)
    ∧ gather best bbox_index = Ok ts
    ∧ gather o bbox_index = Ok ids
    ∧ gather bbox_preds bbox_index = Ok picked
    ∧ gather labels bbox_index = Ok labs
    ∧ post_center_range cfg = Some r
    ∧ let boxes := denormalize_bbox picked (pc_range cfg) in
      let mask := keep_mask cfg (f32 <$> r) boxes
                    match score_threshold cfg with
                    | Some t => Some ((λ s, fge s (f32 t)) <$> ts)
                    | None => None
                    end in
      length mask = length boxes ∧ length mask = length ts
      ∧ length mask = length labs ∧ length mask = length ids
      ∧ d = with_tracks (predictions (select mask boxes) (select mask ts)
                                     (select mask labs))
                        (select mask ts) (select mask ids).
Proof.
  unfold TrackingNMSFree.decode_single, candidates.
  cbn [negb]. intros H.
  apply bind_Done in H as ([[[[scores labels] picked] oids] tscores] & Hcand & H).
  apply bind_Done in Hcand as ([best idxs] & Hmax%std_Done & Hcand).
  apply bind_Done in Hcand as (labels' & Hlabels%std_Done & Hcand).
  apply bind_Done in Hcand as (n & Hn & Hcand).
  destruct obj_idxes as [o|]; [|discriminate]. injection Hn as <-.
  apply bind_Done in Hcand as ([top bbox_index] & Htopk%std_Done & Hcand).
  apply bind_Done in Hcand as (ts & Hts%std_Done & Hcand).
  apply bind_Done in Hcand as (ids & Hids%std_Done & Hcand).
  apply bind_Done in Hcand as (picked' & Hpicked%std_Done & Hcand).
  apply bind_Done in Hcand as (labs & Hlabs%std_Done & Hcand).
  injection Hcand as <- <- <- <- <-.
  destruct (post_center_range cfg) as [r|] eqn:Hr; [|discriminate].
  apply bind_Done in H as (boxes3d & [Hlb ->]%std_Done%mask_select_Ok & H).
  apply bind_Done in H as (scores1 & [Hls ->]%std_Done%mask_select_Ok & H).
  apply bind_Done in H as (labels1 & [Hll ->]%std_Done%mask_select_Ok & H).
  apply bind_Done in H as (ts1 & [_ ->]%std_Done%mask_select_Ok & H).
  apply bind_Done in H as (ids1 & [Hli ->]%std_Done%mask_select_Ok & H).
  injection H as <-.
  exists o, best, idxs, labels', top, bbox_index, ts, ids, picked', labs, r. done.
Qed.

End Decode.

Lemma max_rows_length (m : matrix) (best : vec) (idxs : list nat) :
  max_rows m = Ok (best, idxs) → length best = length m.
Proof.
  unfold max_rows. destruct (mapM _ m) as [rows|] eqn:Hrows; [|done].
  intros [= <- _]. apply mapM_outcome_Ok, Forall2_length in Hrows.
  by rewrite length_fmap.
Qed.

End TrackingFacts.

Module TrackingExtras.
Import Float Py NMSFree NMSFreeMore TrackingNMSFree PyFacts TopK NMSFreeFacts DecoderFacts DecodeMore TrackingFacts.

(** X11.  With [tracking_decoding] off and no object ids the subclass
    is the base class: [decode_single] and [decode] of
    [TrackingNMSFreeCoder] return and raise what those of [NMSFreeCoder]
    do. *)
Theorem tracking_off_is_base
    (sigmoid : fval → fval) (topk : vec → Z → outcome (vec * list nat))
    (max_dim : matrix → outcome (vec * list nat))
    (denormalize_bbox : matrix → vec → matrix)
    (cfg : config) (cls_scores bbox_preds : matrix) (track_scores : option vec)
    (preds_dicts : gmap string (list (list matrix))) :
  TrackingNMSFree.decode_single sigmoid topk max_dim denormalize_bbox cfg false
    cls_scores bbox_preds None track_scores
  = std (NMSFree.decode_single sigmoid topk denormalize_bbox cfg cls_scores bbox_preds)
  ∧ TrackingNMSFree.decode sigmoid topk max_dim denormalize_bbox cfg false
      preds_dicts None
    = std (NMSFree.decode sigmoid topk denormalize_bbox cfg preds_dicts).
Proof.
  split; [apply decode_single_off|].
  unfold TrackingNMSFree.decode, NMSFree.decode.
  destruct (getitem preds_dicts "all_cls_scores") as [cls|]; [|done].
  cbn [std mbind answer_bind outcome_bind].
  destruct (item cls _) as [c|]; [|done].
  cbn [std mbind answer_bind outcome_bind].
  destruct (getitem preds_dicts "all_bbox_preds") as [box|]; [|done].
  cbn [std mbind answer_bind outcome_bind].
  destruct (item box _) as [b|]; [|done].
  cbn [std mbind answer_bind outcome_bind].
  apply mapM_std. intros i _.
  destruct (item c i); [|done].
  cbn [std mbind answer_bind outcome_bind].
  destruct (item b i); [|done].
  cbn [std mbind answer_bind outcome_bind mret answer_ret].
  apply decode_single_off.
Qed.

(** X12.  Object ids only add to the result: with [tracking_decoding]
    off, a call with [obj_idxes] returns what [NMSFreeCoder.decode_single]
    returns plus two entries, [track_scores] (the same values as
    [scores]) and [obj_idxes] (one id per returned score). *)
Theorem tracked_extends_base
    (sigmoid : fval → fval) (topk : vec → Z → outcome (vec * list nat))
    (max_dim : matrix → outcome (vec * list nat))
    (denormalize_bbox : matrix → vec → matrix)
    (cfg : config) (cls_scores bbox_preds : matrix) (o : list Z)
    (track_scores : option vec) (d : gmap string tensor) :
  TrackingNMSFree.decode_single sigmoid topk max_dim denormalize_bbox cfg false
    cls_scores bbox_preds (Some o) track_scores = Done d →
  ∃ (base : gmap string tensor) (scores : vec) (ids : list Z),
    NMSFree.decode_single sigmoid topk denormalize_bbox cfg cls_scores bbox_preds
    = Ok base
    ∧ d = with_tracks base scores ids
    ∧ base !! "scores" = Some (Scores scores)
    ∧ d !! "track_scores" = Some (Scores scores)
    ∧ d !! "obj_idxes" = Some (Labels ids)
    ∧ length ids = length scores
    ∧ dom d = dom base ∪ {["track_scores"; "obj_idxes"]}.
Proof.
  intros H.
  apply tracked_Done in H
    as (scores & idxs & labels & bidx & picked & ids & r & Htopk & Hlab & Hbidx
        & Hpicked & Hids & Hr & Hlb & Hls & Hll & Hli & ->).
  set (mask := keep_mask cfg (f32 <$> r) _ _) in *.
  exists (predictions (select mask (denormalize_bbox picked (pc_range cfg)))
                      (select mask scores) (select mask labels)),
         (select mask scores), (select mask ids).
  split.
  { unfold NMSFree.decode_single. rewrite Htopk, bind_Ok. cbv beta iota.
    rewrite Hlab, bind_Ok, Hbidx, bind_Ok, Hpicked, bind_Ok, Hr.
    fold mask. unfold mask_select.
    rewrite !decide_True by done. reflexivity. }
  split; [done|]. split; [done|]. split; [done|]. split; [done|].
  split.
  { by rewrite !select_length_count. }
  unfold with_tracks. rewrite !dom_insert_L. set_solver.
Qed.

Lemma tracked_extends_base_witness :
  ∃ (base : gmap string tensor) (scores : vec) (ids : list Z),
    NMSFree.decode_single sigmoid_like topk_sort centers_first ex_config
      ex_cls_scores ex_bbox_preds = Ok base
    ∧ with_tracks ex_decoded [Fin (6 # 8)] [7] = with_tracks base scores ids
    ∧ base !! "scores" = Some (Scores scores)
    ∧ with_tracks ex_decoded [Fin (6 # 8)] [7] !! "track_scores" = Some (Scores scores)
    ∧ with_tracks ex_decoded [Fin (6 # 8)] [7] !! "obj_idxes" = Some (Labels ids)
    ∧ length ids = length scores
    ∧ dom (with_tracks ex_decoded [Fin (6 # 8)] [7])
      = dom base ∪ {["track_scores"; "obj_idxes"]}.
Proof.
  apply (tracked_extends_base sigmoid_like topk_sort max_rows centers_first ex_config
           ex_cls_scores ex_bbox_preds ex_obj_idxes None
           (with_tracks ex_decoded [Fin (6 # 8)] [7])).
  vm_compute. reflexivity.
Defined.

(** X13.  The id returned with a box is the id of the query the box
    was decoded from: with [tracking_decoding] off and a positive
    [num_classes], the k-th entries of [obj_idxes] and [bboxes] are
    [obj_idxes[q]] and the denormalised [bbox_preds[q]] for one [q]. *)
Theorem ids_follow_boxes
    (sigmoid : fval → fval) (topk : vec → Z → outcome (vec * list nat))
    (max_dim : matrix → outcome (vec * list nat))
    (denormalize_bbox : matrix → vec → matrix) (denormalize_row : vec → vec)
    (cfg : config) (cls_scores bbox_preds : matrix) (o : list Z)
    (track_scores : option vec) (d : gmap string tensor) :
  (∀ b, denormalize_bbox b (pc_range cfg) = denormalize_row <$> b) →
  0 < num_classes cfg →
  TrackingNMSFree.decode_single sigmoid topk max_dim denormalize_bbox cfg false
    cls_scores bbox_preds (Some o) track_scores = Done d →
  ∃ (boxes : matrix) (ids : list Z),
    d !! "bboxes" = Some (Boxes boxes) ∧ d !! "obj_idxes" = Some (Labels ids)
    ∧ length ids = length boxes
    ∧ ∀ (k : nat) (id : Z) (box : vec),
        ids !! k = Some id → boxes !! k = Some box →
        ∃ (q : nat) (pred : vec),
          o !! q = Some id ∧ bbox_preds !! q = Some pred ∧ box = denormalize_row pred.
Proof.
  intros Hden Hnc H.
  apply tracked_Done in H
    as (scores & idxs & labels & bidx & picked & ids & r & Htopk & Hlab & Hbidx
        & Hpicked & Hids & Hr & Hlb & Hls & Hll & Hli & ->).
  rewrite Hden in *.
  set (mask := keep_mask cfg (f32 <$> r) _ _) in *.
  exists (select mask (denormalize_row <$> picked)), (select mask ids).
  split; [done|]. split; [done|].
  split.
  { by rewrite !select_length_count. }
  intros k id box Hid Hbox.
  destruct (select_lookup3 mask _ _ _ k _ _ _ Hid Hbox Hbox) as (p & Hip & Hbp & _).
  apply list_lookup_fmap_Some in Hbp as (pred & -> & Hpred).
  apply mapM_floor_div in Hbidx.
  pose proof (gatherZ_length _ _ _ Hpicked) as Hlen.
  destruct (lookup_lt_is_Some_2 bidx p) as [b Hb].
  { rewrite <- Hlen. by eapply lookup_lt_Some. }
  destruct (Forall2_lookup_r _ _ _ _ _ Hbidx Hb) as (i & Hi & _ & Heq).
  assert (0 ≤ b) as Hb0 by (subst b; apply Z.div_pos; lia).
  rewrite <- (Z2Nat.id b Hb0) in Hb.
  exists (Z.to_nat b), pred. split; [|split; [|done]].
  - eapply gatherZ_lookup; eauto.
  - eapply gatherZ_lookup; eauto.
Qed.

Lemma ids_follow_boxes_witness :
  ∃ (boxes : matrix) (ids : list Z),
    with_tracks ex_decoded [Fin (6 # 8)] [7] !! "bboxes" = Some (Boxes boxes)
    ∧ with_tracks ex_decoded [Fin (6 # 8)] [7] !! "obj_idxes" = Some (Labels ids)
    ∧ length ids = length boxes
    ∧ ∀ (k : nat) (id : Z) (box : vec),
        ids !! k = Some id → boxes !! k = Some box →
        ∃ (q : nat) (pred : vec),
          ex_obj_idxes !! q = Some id ∧ ex_bbox_preds !! q = Some pred
          ∧ box = center_first pred.
Proof.
  apply (ids_follow_boxes sigmoid_like topk_sort max_rows centers_first center_first
           ex_config ex_cls_scores ex_bbox_preds ex_obj_idxes None
           (with_tracks ex_decoded [Fin (6 # 8)] [7])).
  - reflexivity.
  - simpl. lia.
  - vm_compute. reflexivity.
Defined.

(** X14.  The [track_scores] argument of [decode_single] is never
    read: whatever is passed, the call returns or raises the same. *)
Theorem track_scores_argument_ignored
    (sigmoid : fval → fval) (topk : vec → Z → outcome (vec * list nat))
    (max_dim : matrix → outcome (vec * list nat))
    (denormalize_bbox : matrix → vec → matrix)
    (cfg : config) (tracking_decoding : bool) (cls_scores bbox_preds : matrix)
    (obj_idxes : option (list Z)) (track_scores track_scores' : option vec) :
  TrackingNMSFree.decode_single sigmoid topk max_dim denormalize_bbox cfg
    tracking_decoding cls_scores bbox_preds obj_idxes track_scores
  = TrackingNMSFree.decode_single sigmoid topk max_dim denormalize_bbox cfg
      tracking_decoding cls_scores bbox_preds obj_idxes track_scores'.
Proof.
  unfold TrackingNMSFree.decode_single, candidates.
  destruct tracking_decoding; cbn [negb]; [reflexivity|].
  destruct obj_idxes as [o|]; [reflexivity|].
  destruct (topk _ _) as [[scores idxs]|]; [|reflexivity].
  cbn [std mbind answer_bind].
  destruct (mapM _ idxs) as [labels|]; [|reflexivity].
  cbn [std mbind answer_bind].
  destruct (mapM _ idxs) as [bidx|]; [|reflexivity].
  cbn [std mbind answer_bind].
  destruct (gatherZ _ _) as [picked|]; [|reflexivity].
  cbn [std mbind answer_bind mret answer_ret].
  reflexivity.
Qed.

(** X15.  Tracking decoding needs object ids: with [tracking_decoding]
    on and [obj_idxes] None the call never returns a result, and once the
    row maxima and the labels are computed what it raises is the
    [TypeError] of [len(None)]. *)
Theorem tracking_needs_ids
    (sigmoid : fval → fval) (topk : vec → Z → outcome (vec * list nat))
    (max_dim : matrix → outcome (vec * list nat))
    (denormalize_bbox : matrix → vec → matrix)
    (cfg : config) (cls_scores bbox_preds : matrix) (track_scores : option vec) :
  ∃ e : raised,
    TrackingNMSFree.decode_single sigmoid topk max_dim denormalize_bbox cfg true
      cls_scores bbox_preds None track_scores = Fail e
    ∧ ∀ (best : vec) (idxs : list nat),
        max_dim ((λ row : vec, sigmoid <$> row) <$> cls_scores) = Ok (best, idxs) →
        num_classes cfg ≠ 0 →
        e = TypeError no_len_msg.
Proof.
  unfold TrackingNMSFree.decode_single, candidates. cbn [negb].
  destruct (max_dim _) as [[best idxs]|e] eqn:Hmax.
  2: { exists (Std e). split; [reflexivity|]. intros ? ? [=]. }
  cbn [std mbind answer_bind].
  destruct (mapM _ idxs) as [labels|e] eqn:Hlab.
  2: { exists (Std e). split; [reflexivity|]. intros ? ? _ Hnc.
       apply mapM_raise in Hlab as (x & _ & Hx). unfold py_mod in Hx.
       by rewrite decide_False in Hx. }
  cbn [std mbind answer_bind].
  exists (TypeError no_len_msg). split; [reflexivity|done].
Qed.

(** X16.  Tracking decoding reports a query at most once.  With
    [tracking_decoding] on, a conforming [topk], one row maximum per query
    and no more ids than queries, the returned ids and boxes are those of
    a duplicate-free list of queries, no longer than
    min(max_num, len(obj_idxes)); [scores] and [track_scores] are the same;
    and ids that were distinct on entry are distinct in the result. *)
Theorem tracking_one_per_query
    (sigmoid : fval → fval) (topk : vec → Z → outcome (vec * list nat))
    (max_dim : matrix → outcome (vec * list nat))
    (denormalize_bbox : matrix → vec → matrix) (denormalize_row : vec → vec)
    (cfg : config) (cls_scores bbox_preds : matrix) (o : list Z)
    (track_scores : option vec) (d : gmap string tensor) :
  topk_contract topk →
  (∀ m best idxs, max_dim m = Ok (best, idxs) → length best = length m) →
  (∀ b, denormalize_bbox b (pc_range cfg) = denormalize_row <$> b) →
  0 ≤ max_num cfg → (length o ≤ length cls_scores)%nat →
  TrackingNMSFree.decode_single sigmoid topk max_dim denormalize_bbox cfg true
    cls_scores bbox_preds (Some o) track_scores = Done d →
  ∃ (qs : list nat) (boxes : matrix) (scores : vec) (ids : list Z),
    NoDup qs
    ∧ Z.of_nat (length qs) ≤ Z.min (max_num cfg) (Z.of_nat (length o))
    ∧ d !! "bboxes" = Some (Boxes boxes)
    ∧ d !! "scores" = Some (Scores scores)
    ∧ d !! "track_scores" = Some (Scores scores)
    ∧ d !! "obj_idxes" = Some (Labels ids)
    ∧ Forall2 (λ q id, o !! q = Some id) qs ids
    ∧ Forall2 (λ q box, ∃ pred, bbox_preds !! q = Some pred ∧ box = denormalize_row pred)
              qs boxes
    ∧ (NoDup o → NoDup ids).
Proof.
  intros Htopk Hmax Hden Hnum Hlen H.
  apply tracking_Done in H
    as (o' & best & idxs & labels & top & bbox_index & ts & ids & picked & labs & r
        & [= <-] & Hbest & Hlab & Hcall & Hts & Hids & Hpicked & Hlabs & Hr
        & Hlb & Hls & Hll & Hli & ->).
  apply Hmax in Hbest. rewrite length_fmap in Hbest.
  destruct (Htopk best (Z.min (max_num cfg) (Z.of_nat (length o))))
    as (top' & idx' & Hcall' & Hk & Hnd & _); [lia|].
  rewrite Hcall in Hcall'. injection Hcall' as <- <-.
  rewrite Hden in *.
  set (mask := keep_mask cfg (f32 <$> r) _ _) in *.
  apply gather_Ok in Hids. apply gather_Ok in Hpicked.
  assert (Forall2 (λ q id, o !! q = Some id) (select mask bbox_index) (select mask ids))
    as Hsel by by apply select_Forall2.
  exists (select mask bbox_index), (select mask (denormalize_row <$> picked)),
         (select mask ts), (select mask ids).
  split; [by apply select_NoDup|].
  split.
  { pose proof (select_length_le mask bbox_index). lia. }
  split; [done|]. split; [done|]. split; [done|]. split; [done|].
  split; [exact Hsel|].
  split.
  { apply select_Forall2. apply Forall2_fmap_r.
    eapply Forall2_impl; [exact Hpicked|]. intros q pred Hq. by exists pred. }
  intros Ho. eapply lookups_NoDup; [|exact Ho|exact Hsel]. by apply select_NoDup.
Qed.

Lemma tracking_one_per_query_witness :
  ∃ (qs : list nat) (boxes : matrix) (scores : vec) (ids : list Z),
    NoDup qs
    ∧ Z.of_nat (length qs) ≤ Z.min (max_num ex_config) (Z.of_nat (length ex_obj_idxes))
    ∧ with_tracks ex_decoded [Fin (6 # 8)] [7] !! "bboxes" = Some (Boxes boxes)
    ∧ with_tracks ex_decoded [Fin (6 # 8)] [7] !! "scores" = Some (Scores scores)
    ∧ with_tracks ex_decoded [Fin (6 # 8)] [7] !! "track_scores" = Some (Scores scores)
    ∧ with_tracks ex_decoded [Fin (6 # 8)] [7] !! "obj_idxes" = Some (Labels ids)
    ∧ Forall2 (λ q id, ex_obj_idxes !! q = Some id) qs ids
    ∧ Forall2 (λ q box, ∃ pred, ex_bbox_preds !! q = Some pred ∧ box = center_first pred)
              qs boxes
    ∧ (NoDup ex_obj_idxes → NoDup ids).
Proof.
  apply (tracking_one_per_query sigmoid_like topk_sort max_rows centers_first
           center_first ex_config ex_cls_scores ex_bbox_preds ex_obj_idxes None
           (with_tracks ex_decoded [Fin (6 # 8)] [7])).
  - exact topk_sort_contract.
  - exact max_rows_length.
  - reflexivity.
  - simpl. lia.
  - simpl. lia.
  - vm_compute. reflexivity.
Defined.

End TrackingExtras.

(* ===================================================================== *)
(** * Further facts about MV2DFusionTransformerDecoder.forward *)
(* ===================================================================== *)

Module DecoderMore.
Import Float Py Decoder DecoderAux PyFacts DecoderFacts.

Lemma select_shape (mask : list bool) (m : matrix) (r c : nat) :
  shape m r c → length mask = r → shape (select mask m) (count_true mask) c.
Proof.
  intros [Hlen Hrows] Hmask. split; [apply select_length_count; lia|].
  rewrite Forall_forall in Hrows |- *. intros row Hrow.
  destruct (select_elem _ _ _ Hrow) as (i & _ & Hi).
  apply Hrows. by eapply list_elem_of_lookup_2.
Qed.

Lemma fmap_shape (f : vec → vec) (m : matrix) (r c : nat) :
  (∀ v, length (f v) = length v) → shape m r c → shape (f <$> m) r c.
Proof.
  intros Hf [Hlen Hrows]. split; [by rewrite length_fmap|].
  apply Forall_fmap. eapply Forall_impl; [exact Hrows|].
  intros row Hrow. simpl. by rewrite Hf.
Qed.

Lemma madd_shape (a b : matrix) (r c : nat) :
  shape a r c → shape b r c → shape (madd a b) r c.
Proof.
  intros [Ha Hra] [Hb Hrb]. unfold madd. split.
  { rewrite length_zip_with. lia. }
  clear Ha Hb. revert b Hrb.
  induction Hra as [|x a Hx Hra IH]; intros [|y b] Hrb; simpl; try constructor.
  - apply Forall_cons in Hrb as [Hy _]. rewrite length_zip_with. lia.
  - apply Forall_cons in Hrb as [_ Hrb]. by apply IH.
Qed.

Lemma vec_mat_length (p : vec) (m : matrix) (s d : nat) :
  shape m s d → (0 < s)%nat → length (vec_mat p m) = d.
Proof.
  intros [Hlen Hrows] Hs. unfold vec_mat. rewrite length_fmap, length_seq.
  destruct m as [|row m]; simpl in *; [lia|].
  by apply Forall_cons in Hrows as [Hrow _].
Qed.

Lemma weighted_coords_shape (probs : matrix) (coords : list matrix) (k s d : nat) :
  length probs = k → length coords = k → Forall (λ m, shape m s d) coords →
  (0 < s)%nat → shape (weighted_coords probs coords) k d.
Proof.
  intros Hp Hc Hcs Hs. unfold weighted_coords. split.
  { rewrite length_zip_with. lia. }
  clear Hp Hc. revert probs.
  induction Hcs as [|m coords Hm Hcs IH]; intros [|p probs]; simpl; try constructor.
  - by eapply vec_mat_length.
  - apply IH.
Qed.

Lemma masked_put_Forall {A} (P : A → Prop) (xs : list A) :
  ∀ (mask : list bool) (vals ys : list A),
    masked_put xs mask vals = Ok ys → Forall P xs → Forall P vals → Forall P ys.
Proof.
  induction xs as [|x xs IH]; intros [|b mask] vals ys H Hxs Hvals; simpl in *; try done.
  - destruct vals; [|done]. by injection H as <-.
  - apply Forall_cons in Hxs as [Hx Hxs]. destruct b.
    + destruct vals as [|v vals]; [done|].
      apply Forall_cons in Hvals as [Hv Hvals].
      destruct (masked_put xs mask vals) as [ys'|] eqn:E; [|done].
      injection H as <-. constructor; [done|]. eauto.
    + destruct (masked_put xs mask vals) as [ys'|] eqn:E; [|done].
      injection H as <-. constructor; [done|]. eauto.
Qed.

Lemma masked_put_shape (xs : matrix) (mask : list bool) (vals : matrix)
    (r c k : nat) :
  length mask = r → count_true mask = k → shape xs r c → shape vals k c →
  ∃ ys, masked_put xs mask vals = Ok ys ∧ shape ys r c.
Proof.
  intros Hmask Hcount [Hlen Hrows] [Hvlen Hvrows].
  destruct (masked_put_total xs mask vals) as [ys Hys]; [lia|lia|].
  exists ys. split; [done|]. split.
  - rewrite (masked_put_length _ _ _ _ Hys). lia.
  - by eapply masked_put_Forall.
Qed.

Section Forward.
Variable post_norm : option (matrix → matrix).
Variable softmax : vec → vec.
Variable dyn_q_coords : list matrix.
Variable dyn_q_mask : list bool.
Variable dyn_q_pos_branch : matrix → matrix.
Variable dyn_q_pos_with_prob_branch : matrix → matrix → matrix.
Variable dyn_q_prob_branch : list (matrix → matrix).

Abbreviation run_ :=
  (run_layers post_norm true softmax dyn_q_coords dyn_q_mask
              dyn_q_pos_branch dyn_q_pos_with_prob_branch dyn_q_prob_branch).

Lemma run_layers_app (l1 l2 : list (matrix → matrix → matrix → matrix)) :
  ∀ (i : nat) (st : loop_state),
    run_ i (l1 ++ l2) st
    = st' ← run_ i l1 st; run_ (i + length l1) l2 st'.
Proof.
  induction l1 as [|layer l1 IH]; intros i st; simpl.
  - by rewrite Nat.add_0_r.
  - destruct (step _ _ _ _ _ _ _ _ _ _ _) as [st1|]; simpl; [|done].
    rewrite IH. by replace (S i + length l1)%nat with (i + S (length l1))%nat by lia.
Qed.

Variables (n C D num_dyn sample_size : nat).
Variable all_layers : list (matrix → matrix → matrix → matrix).
Hypothesis documented :
  documented_shapes n C D num_dyn sample_size all_layers post_norm softmax
                    dyn_q_coords dyn_q_mask dyn_q_pos_branch
                    dyn_q_pos_with_prob_branch dyn_q_prob_branch.

Lemma step_documented (i : nat) (layer : matrix → matrix → matrix → matrix)
    (st : loop_state) :
  (∀ q p r, shape q n C → shape p n C → shape r n D → shape (layer q p r) n C) →
  is_Some (dyn_q_prob_branch !! i) →
  loop_columns n C D num_dyn sample_size st →
  ∃ st', step post_norm true softmax dyn_q_coords dyn_q_mask dyn_q_pos_branch
              dyn_q_pos_with_prob_branch dyn_q_prob_branch i layer st = Ok st'
         ∧ loop_columns n C D num_dyn sample_size st'.
Proof.
  intros Hlayer [branch Hbranch] (Hq & Hp & Hr & Hl & Hiq & Hir & Hil).
  destruct documented as [Hmask Hcount Hcoords Hcs Hpos _ Hnorm Hsoft Hbr Hpb].
  unfold step, NMSFree.item. rewrite Hbranch. simpl.
  set (query_ := layer (query st) (query_pos st) (reference_points st)).
  assert (shape query_ n C) as Hq' by (by apply Hlayer).
  unfold mask_select. rewrite decide_True by (destruct Hq'; lia). simpl.
  assert (shape (select dyn_q_mask query_) num_dyn C) as Hsel.
  { rewrite <- Hcount. by eapply select_shape. }
  assert (shape (branch (select dyn_q_mask query_)) num_dyn sample_size) as Hres.
  { rewrite Forall_forall in Hbr. apply Hbr; [|done].
    by eapply list_elem_of_lookup_2. }
  set (lg := madd (dyn_q_logits st) (branch (select dyn_q_mask query_))).
  assert (shape lg num_dyn sample_size) as Hlg by (by apply madd_shape).
  assert (shape (softmax <$> lg) num_dyn sample_size) as Hprobs.
  { by apply fmap_shape. }
  assert (shape (weighted_coords (softmax <$> lg) dyn_q_coords) num_dyn D) as Hw.
  { destruct Hprobs. by eapply weighted_coords_shape. }
  destruct (masked_put_shape (reference_points st) dyn_q_mask
              (weighted_coords (softmax <$> lg) dyn_q_coords) n D num_dyn)
    as (new_ref & Href & Hnr); [done|done|done|done|].
  rewrite Href. simpl.
  destruct (masked_put_shape (query_pos st) dyn_q_mask
              (dyn_q_pos_with_prob_branch
                 (dyn_q_pos_branch ((λ m : matrix, concat m) <$> dyn_q_coords))
                 (softmax <$> lg)) n C num_dyn)
    as (new_pos & Hnew & Hnp); [done|done|done|by apply Hpb|].
  rewrite Hnew. simpl. eexists. split; [reflexivity|].
  unfold loop_columns. simpl. repeat split; try done; try (by destruct Hq');
    try (by destruct Hnp); try (by destruct Hnr); try (by destruct Hlg).
  - apply Forall_app. split; [done|]. constructor; [|done].
    destruct post_norm as [norm|]; [by apply Hnorm|done].
  - apply Forall_app. split; [done|]. by constructor.
  - apply Forall_app. split; [done|]. by constructor.
Qed.

Lemma run_layers_documented (ls : list (matrix → matrix → matrix → matrix)) :
  ∀ (i : nat) (st : loop_state),
    Forall (λ layer, ∀ q p r, shape q n C → shape p n C → shape r n D →
                              shape (layer q p r) n C) ls →
    (i + length ls ≤ length dyn_q_prob_branch)%nat →
    loop_columns n C D num_dyn sample_size st →
    ∃ st', run_ i ls st = Ok st' ∧ loop_columns n C D num_dyn sample_size st'.
Proof.
  induction ls as [|layer ls IH]; intros i st Hls Hbr Hshape; simpl.
  - eauto.
  - apply Forall_cons in Hls as [Hlayer Hls']. simpl in Hbr.
    destruct (step_documented i layer st Hlayer) as (st1 & Hstep & Hshape1); [|done|].
    { apply lookup_lt_is_Some_2. lia. }
    rewrite Hstep. simpl. apply IH; [done|lia|done].
Qed.
End Forward.

Section PostNorm.
Variable norm : matrix → matrix.
Variable softmax : vec → vec.
Variable dyn_q_coords : list matrix.
Variable dyn_q_mask : list bool.
Variable dyn_q_pos_branch : matrix → matrix.
Variable dyn_q_pos_with_prob_branch : matrix → matrix → matrix.
Variable dyn_q_prob_branch : list (matrix → matrix).

Lemma step_normed (i : nat) (layer : matrix → matrix → matrix → matrix)
    (st : loop_state) :
  step (Some norm) true softmax dyn_q_coords dyn_q_mask dyn_q_pos_branch
       dyn_q_pos_with_prob_branch dyn_q_prob_branch i layer (normed norm st)
  = normed norm <$>
      step None true softmax dyn_q_coords dyn_q_mask dyn_q_pos_branch
           dyn_q_pos_with_prob_branch dyn_q_prob_branch i layer st.
Proof.
  unfold step. cbn [normed query query_pos reference_points dyn_q_logits
                    intermediate intermediate_reference_points
                    intermediate_dyn_q_logits].
  destruct (NMSFree.item dyn_q_prob_branch i) as [branch|]; [|reflexivity]. cbn.
  destruct (mask_select _ _) as [sel|]; [|reflexivity]. cbn.
  destruct (masked_put (reference_points st) _ _) as [r|]; [|reflexivity]. cbn.
  destruct (masked_put (query_pos st) _ _) as [p|]; [|reflexivity]. cbn.
  unfold normed. cbn. by rewrite fmap_app.
Qed.

Lemma run_layers_normed (ls : list (matrix → matrix → matrix → matrix)) :
  ∀ (i : nat) (st : loop_state),
    run_layers (Some norm) true softmax dyn_q_coords dyn_q_mask dyn_q_pos_branch
               dyn_q_pos_with_prob_branch dyn_q_prob_branch i ls (normed norm st)
    = normed norm <$>
        run_layers None true softmax dyn_q_coords dyn_q_mask dyn_q_pos_branch
                   dyn_q_pos_with_prob_branch dyn_q_prob_branch i ls st.
Proof.
  induction ls as [|layer ls IH]; intros i st; [done|].
  cbn [run_layers]. rewrite step_normed.
  destruct (step None _ _ _ _ _ _ _ _ _ _) as [st1|]; [|reflexivity]. cbn.
  apply IH.
Qed.
End PostNorm.

Lemma stack_fmap {A B} (f : A → B) (xs : list A) :
  stack (f <$> xs) = (λ l : list A, f <$> l) <$> stack xs.
Proof. by destruct xs. Qed.


Lemma example_documented (branches : list (matrix → matrix)) :
  Forall (eq no_residual) branches →
  documented_shapes 3 3 3 2 2 [same_queries; same_queries] None same_row
                    ex_coords ex_mask same_matrix zero_pos branches.
Proof.
  intros Hbr. split.
  - reflexivity.
  - reflexivity.
  - reflexivity.
  - by repeat constructor.
  - lia.
  - constructor; [|constructor; [|constructor]]; by intros q p r Hq _ _.
  - discriminate.
  - reflexivity.
  - eapply Forall_impl; [exact Hbr|]. intros branch <- x [Hx _].
    unfold no_residual. split; [by rewrite length_fmap|].
    apply Forall_fmap, Forall_true. done.
  - intros probs [Hlen _]. unfold zero_pos. split; [by rewrite length_fmap|].
    apply Forall_fmap, Forall_true. done.
Qed.




(** X19.  [post_norm] touches the collected queries and nothing else:
    a decoder with a [post_norm] returns the reference points and the
    logits of the same decoder without one, and its queries normalised;
    it raises what that decoder raises.  The query handed to the next
    layer is the one before normalisation. *)
Theorem post_norm_only_on_outputs
    (layers : list (matrix → matrix → matrix → matrix))
    (norm : matrix → matrix) (return_intermediate : bool)
    (flog : fval → fval) (softmax : vec → vec)
    (dyn_q_coords : list matrix) (dyn_q_mask : list bool)
    (dyn_q_pos_branch : matrix → matrix)
    (dyn_q_pos_with_prob_branch : matrix → matrix → matrix)
    (dyn_q_prob_branch : list (matrix → matrix))
    (query_ query_pos_ reference_points_ dyn_q_probs : matrix) :
  forward layers (Some norm) return_intermediate flog softmax dyn_q_coords dyn_q_mask
          dyn_q_pos_branch dyn_q_pos_with_prob_branch dyn_q_prob_branch
          query_ query_pos_ reference_points_ dyn_q_probs
  = norm_queries norm <$>
      forward layers None return_intermediate flog softmax dyn_q_coords dyn_q_mask
              dyn_q_pos_branch dyn_q_pos_with_prob_branch dyn_q_prob_branch
              query_ query_pos_ reference_points_ dyn_q_probs.
Proof.
  unfold forward. destruct return_intermediate; [|reflexivity].
  set (st0 := mkLoop _ _ _ _ _ _ _).
  change st0 with (normed norm st0) at 1.
  rewrite run_layers_normed.
  destruct (run_layers None _ _ _ _ _ _ _ _ _ _) as [st'|]; [|reflexivity].
  cbn [fmap outcome_fmap mbind outcome_bind normed intermediate
       intermediate_reference_points intermediate_dyn_q_logits].
  rewrite stack_fmap.
  destruct (stack (intermediate st')) as [qs|]; [|reflexivity].
  cbn [fmap outcome_fmap mbind outcome_bind].
  destruct (stack (intermediate_reference_points st')) as [rs|]; [|reflexivity].
  cbn [mbind outcome_bind].
  destruct (stack (intermediate_dyn_q_logits st')) as [ls|]; [|reflexivity].
  reflexivity.
Qed.

End DecoderMore.

(* ===================================================================== *)
(** * Facts about MV2DFusionTransformerDecoderLayer *)
(* ===================================================================== *)

Module LayerFacts.
Import Float Py DecoderLayer PyFacts DecodeMore.

Lemma count_cons (x y : string) (l : list string) :
  count x (y :: l) = ((if decide (y = x) then 1 else 0) + count x l)%nat.
Proof.
  unfold count. case_decide.
  - by rewrite filter_cons_True.
  - by rewrite filter_cons_False.
Qed.

Lemma elem_of_ops (op : string) :
  op ∈ ops ↔ op = "norm" ∨ op = "ffn" ∨ op = "self_attn" ∨ op = "cross_attn".
Proof. unfold ops, attn_ops. simpl. rewrite !elem_of_cons, elem_of_nil. tauto. Qed.

Lemma elem_of_attn_ops (op : string) :
  op ∈ attn_ops ↔ op = "self_attn" ∨ op = "cross_attn".
Proof. unfold attn_ops. rewrite !elem_of_cons, elem_of_nil. tauto. Qed.

Lemma item_Ok {A} (xs : list A) (i : nat) :
  (i < length xs)%nat → ∃ x, NMSFree.item xs i = Ok x.
Proof.
  intros Hi. destruct (lookup_lt_is_Some_2 xs i Hi) as [x Hx].
  exists x. unfold NMSFree.item. by rewrite Hx.
Qed.

Section Init.
Context {T F CA CF : Type}.
Variable build_attention : attn_cfg CA → attention T F.
Variable build_feedforward_network : ffn_cfg CF → T → option T → T.
Variable build_norm_layer : Z → T → T.
Variable order_msg : list string → string.
Variable attn_msg : nat → list string → string.

Lemma build_attentions_length (bf : bool) (attn_cfgs : list (attn_cfg CA))
    (order : list string) :
  ∀ (index : nat) (atts : list (attention T F)),
    build_attentions build_attention bf attn_cfgs order index = Ok atts →
    length atts = (count "self_attn" order + count "cross_attn" order)%nat.
Proof.
  induction order as [|op order IH]; intros index atts H; simpl in H.
  - by injection H as <-.
  - rewrite (count_cons "self_attn"), (count_cons "cross_attn"). case_decide as Hop.
    + destruct (NMSFree.item attn_cfgs index) as [cfg|]; [|discriminate].
      cbn [mbind outcome_bind] in H.
      assert (∃ others, build_attentions build_attention bf attn_cfgs order (S index)
                        = Ok others ∧ length atts = S (length others))
        as (others & Ho & ->).
      { destruct (cfg_batch_first cfg) as [b|]; [case_decide; [|discriminate]|];
          cbn [mbind outcome_bind] in H;
          (destruct (build_attentions _ _ _ order (S index)) as [others|];
           [|discriminate]);
          cbn [mbind outcome_bind] in H; injection H as <-; by exists others. }
      apply IH in Ho. rewrite Ho.
      apply elem_of_attn_ops in Hop as [-> | ->]; repeat case_decide; try done; lia.
    + apply IH in H. rewrite H.
      rewrite elem_of_attn_ops in Hop. repeat case_decide; try tauto; lia.
Qed.

Lemma build_ffns_length (d : Z) (ffn_cfgs : list (ffn_cfg CF)) (n : nat)
    (fs : list (T → option T → T)) :
  build_ffns build_feedforward_network d ffn_cfgs n = Ok fs → length fs = n.
Proof.
  unfold build_ffns. intros H. apply mapM_outcome_Ok, Forall2_length in H.
  by rewrite length_seq in H.
Qed.

(** What a successful [__init__] went through. *)
Lemma init_Ok (attn_cfgs : list (attn_cfg CA)) (ffn_cfgs : ffn_cfgs_arg CF)
    (order : list string) (bf cp : bool) (self : layer T F) :
  init build_attention build_feedforward_network build_norm_layer order_msg attn_msg
       attn_cfgs ffn_cfgs order bf cp = Ok self →
  ∃ first attention0,
    well_formed self
    ∧ operation_order self = order
    ∧ num_attn self = length attn_cfgs
    ∧ head order = Some first ∧ pre_norm self = bool_decide (first = "norm")
    ∧ head (attentions self) = Some attention0
    ∧ embed_dims self = attn_embed_dims attention0
    ∧ batch_first self = bf ∧ use_checkpoint self = cp.
Proof.
  unfold init. intros H.
  case_decide as Hops; [|discriminate]. case_decide as Hn; [|discriminate].
  destruct (NMSFree.item order 0) as [first|] eqn:Hfirst; [|discriminate].
  cbn [mbind outcome_bind] in H.
  destruct (build_attentions _ _ _ _ _) as [atts|] eqn:Hatts; [|discriminate].
  cbn [mbind outcome_bind] in H.
  destruct (NMSFree.item atts 0) as [a0|] eqn:Ha0; [|discriminate].
  cbn [mbind outcome_bind] in H.
  case_decide as Hf; [|discriminate].
  destruct (build_ffns _ _ _ _) as [fs|] eqn:Hfs; [|discriminate].
  cbn [mbind outcome_bind] in H. injection H as <-.
  exists first, a0. unfold well_formed. simpl.
  apply build_attentions_length in Hatts. apply build_ffns_length in Hfs.
  destruct order as [|op order]; [discriminate|]. injection Hfirst as ->.
  destruct atts as [|a atts]; [discriminate|]. injection Ha0 as ->.
  rewrite length_replicate. repeat split; done.
Qed.
End Init.

Section Forward.
Context {T F : Type}.
Variable transpose01 : T → T.
Variable cat0 : T → T → T.
Variable self : layer T F.
Variable query_pos : T.
Variable temp_memory : option T.
Variable features : F.
Variable attn_masks : list (option T).
Variable query_key_padding_mask : option T.
Variable prev_ref_point : option T.

Abbreviation run_ :=
  (run_ops transpose01 cat0 self query_pos temp_memory features attn_masks
           query_key_padding_mask prev_ref_point).

(** From any point of the loop with enough modules left for the
    operations left, the loop runs to the end. *)
Lemma run_ops_total (order : list string) :
  ∀ st : loop T,
    Forall (λ op, op ∈ ops) order →
    (attn_index st + (count "self_attn" order + count "cross_attn" order)
     ≤ length (attentions self))%nat →
    (attn_index st + (count "self_attn" order + count "cross_attn" order)
     ≤ length attn_masks)%nat →
    (norm_index st + count "norm" order ≤ length (norms self))%nat →
    (ffn_index st + count "ffn" order ≤ length (ffns self))%nat →
    ∃ st', run_ order st = Ok st'.
Proof.
  induction order as [|op order IH]; intros st Hops Ha Hm Hn Hf; [by eexists|].
  apply Forall_cons in Hops as [Hop Hops].
  rewrite (count_cons "self_attn"), (count_cons "cross_attn") in Ha, Hm.
  rewrite (count_cons "norm") in Hn. rewrite (count_cons "ffn") in Hf.
  cbn [run_ops]. unfold apply_op.
  apply elem_of_ops in Hop as [-> | [-> | [-> | ->]]];
    repeat (first [rewrite decide_True in * by done | rewrite decide_False in * by done]);
    simpl in Ha, Hm, Hn, Hf.
  - destruct (item_Ok (norms self) (norm_index st)) as [norm ->]; [lia|].
    cbn [mbind outcome_bind]. apply IH; simpl; try done; lia.
  - destruct (item_Ok (ffns self) (ffn_index st)) as [ffn ->]; [lia|].
    cbn [mbind outcome_bind]. apply IH; simpl; try done; lia.
  - destruct (item_Ok (attentions self) (attn_index st)) as [att ->]; [lia|].
    destruct (item_Ok attn_masks (attn_index st)) as [mask ->]; [lia|].
    cbn [mbind outcome_bind]. apply IH; simpl; try done; lia.
  - destruct (item_Ok (attentions self) (attn_index st)) as [att ->]; [lia|].
    cbn [mbind outcome_bind]. apply IH; simpl; try done; lia.
Qed.
End Forward.

Lemma forward_fit {T F} (transpose01 : T → T) (cat0 : T → T → T) (self : layer T F)
    (query_ query_pos : T) (temp : option (T * T)) (features : F) (attn_masks : masks T)
    (query_key_padding_mask prev_ref_point : option T) :
  well_formed self → masks_fit self attn_masks →
  ∃ out, _forward transpose01 cat0 self query_ query_pos temp features attn_masks
                  query_key_padding_mask prev_ref_point = Ok out.
Proof.
  intros (Hops & Hnum & Hatt & Hffn & Hnorm) Hfit. unfold _forward.
  assert (∃ l, match attn_masks with
               | NoMasks => Ok (replicate (num_attn self) None)
               | OneMask m => Ok (replicate (num_attn self) (Some m))
               | MaskList l =>
                   if decide (length l = num_attn self) then Ok l
                   else Raise (AssertionError (masks_msg (length l) (num_attn self)))
               end = Ok l ∧ length l = num_attn self) as (l & -> & Hl).
  { destruct attn_masks as [|m|l]; simpl in Hfit.
    - eexists. split; [done|]. by rewrite length_replicate.
    - eexists. split; [done|]. by rewrite length_replicate.
    - exists l. by rewrite decide_True. }
  cbn [mbind outcome_bind].
  destruct (run_ops_total transpose01 cat0 self query_pos (fst <$> temp) features l
              query_key_padding_mask prev_ref_point (operation_order self)
              (mkLoop query_ query_
                      match temp with Some (_, p) => p | None => query_pos end
                      0 0 0)) as [st' ->]; simpl; try done; try lia.
  by eexists.
Qed.

Lemma forward_unfit {T F} (transpose01 : T → T) (cat0 : T → T → T) (self : layer T F)
    (query_ query_pos : T) (temp : option (T * T)) (features : F) (l : list (option T))
    (query_key_padding_mask prev_ref_point : option T) :
  length l ≠ num_attn self →
  _forward transpose01 cat0 self query_ query_pos temp features (MaskList l)
           query_key_padding_mask prev_ref_point
  = Raise (AssertionError (masks_msg (length l) (num_attn self))).
Proof. intros Hl. unfold _forward. by rewrite decide_False. Qed.

End LayerFacts.

Module LayerExtras.
Import Float Py DecoderLayer PyFacts DecodeMore LayerFacts.

(** X20.  What [__init__] guarantees of a layer it builds: every
    operation is one of norm, ffn, self_attn and cross_attn; there is one
    attention module per attention operation, one feed-forward network per
    ffn and one norm per norm; there is at least one operation and at
    least one attention; [num_attn] is the number of attention configs and
    [pre_norm] tells whether the first operation is a norm. *)
Theorem built_layer_invariants {T F CA CF : Type}
    (build_attention : attn_cfg CA → attention T F)
    (build_feedforward_network : ffn_cfg CF → T → option T → T)
    (build_norm_layer : Z → T → T)
    (order_msg : list string → string) (attn_msg : nat → list string → string)
    (attn_cfgs : list (attn_cfg CA)) (ffn_cfgs : ffn_cfgs_arg CF)
    (order : list string) (bf cp : bool) (self : layer T F) :
  init build_attention build_feedforward_network build_norm_layer order_msg attn_msg
       attn_cfgs ffn_cfgs order bf cp = Ok self →
  operation_order self = order
  ∧ Forall (λ op, op ∈ ops) order
  ∧ length (attentions self) = (count "self_attn" order + count "cross_attn" order)%nat
  ∧ length (ffns self) = count "ffn" order
  ∧ length (norms self) = count "norm" order
  ∧ num_attn self = length attn_cfgs
  ∧ num_attn self = length (attentions self)
  ∧ (1 ≤ num_attn self)%nat
  ∧ ∃ first, head order = Some first ∧ pre_norm self = bool_decide (first = "norm").
Proof.
  intros H. apply init_Ok in H
    as (first & a0 & (Hops & Hnum & Hatt & Hffn & Hnorm) & Horder & Hcfgs & Hfirst
        & Hpre & Ha0 & _).
  rewrite Horder in *.
  split; [done|]. split; [done|]. split; [lia|]. split; [done|]. split; [done|].
  split; [done|]. split; [done|].
  split; [|by exists first].
  rewrite <- Hatt. destruct (attentions self); [discriminate|simpl; lia].
Qed.

Lemma built_layer_invariants_witness :
  operation_order ex_layer = ex_operation_order
  ∧ Forall (λ op, op ∈ ops) ex_operation_order
  ∧ length (attentions ex_layer)
    = (count "self_attn" ex_operation_order + count "cross_attn" ex_operation_order)%nat
  ∧ length (ffns ex_layer) = count "ffn" ex_operation_order
  ∧ length (norms ex_layer) = count "norm" ex_operation_order
  ∧ num_attn ex_layer = length ex_attn_cfgs
  ∧ num_attn ex_layer = length (attentions ex_layer)
  ∧ (1 ≤ num_attn ex_layer)%nat
  ∧ ∃ first, head ex_operation_order = Some first
             ∧ pre_norm ex_layer = bool_decide (first = "norm").
Proof.
  apply (built_layer_invariants ex_build_attention ex_build_ffn ex_build_norm
           ex_order_msg ex_attn_msg ex_attn_cfgs (FfnDict (mkFfnCfg None tt))
           ex_operation_order false true ex_layer).
  reflexivity.
Defined.

(** X21.  A layer that [__init__] built runs [_forward] to the end:
    with [attn_masks] None, a tensor, or a list of [num_attn] entries, no
    module index runs out of range and no operation is unknown. *)
Theorem built_layer_runs {T F CA CF : Type}
    (build_attention : attn_cfg CA → attention T F)
    (build_feedforward_network : ffn_cfg CF → T → option T → T)
    (build_norm_layer : Z → T → T)
    (order_msg : list string → string) (attn_msg : nat → list string → string)
    (attn_cfgs : list (attn_cfg CA)) (ffn_cfgs : ffn_cfgs_arg CF)
    (order : list string) (bf cp : bool) (self : layer T F)
    (transpose01 : T → T) (cat0 : T → T → T)
    (query_ query_pos : T) (temp : option (T * T)) (features : F) (attn_masks : masks T)
    (query_key_padding_mask prev_ref_point : option T) :
  init build_attention build_feedforward_network build_norm_layer order_msg attn_msg
       attn_cfgs ffn_cfgs order bf cp = Ok self →
  masks_fit self attn_masks →
  ∃ out, _forward transpose01 cat0 self query_ query_pos temp features attn_masks
                  query_key_padding_mask prev_ref_point = Ok out.
Proof.
  intros H Hfit. apply init_Ok in H as (first & a0 & Hwf & _).
  by apply forward_fit.
Qed.

Lemma built_layer_runs_witness :
  ∃ out, _forward (λ q : list string, q) (λ a _ : list string, a) ex_layer [] [] None tt
                  (OneMask ["mask"]) None None = Ok out.
Proof.
  apply (built_layer_runs ex_build_attention ex_build_ffn ex_build_norm
           ex_order_msg ex_attn_msg ex_attn_cfgs (FfnDict (mkFfnCfg None tt))
           ex_operation_order false true ex_layer).
  - reflexivity.
  - exact I.
Defined.

(** X22.  On a layer that [__init__] built, [_forward] raises
    [AssertionError] exactly when [attn_masks] is a list whose length is
    not [num_attn], and the message gives both numbers. *)
Theorem masks_assertion_iff {T F CA CF : Type}
    (build_attention : attn_cfg CA → attention T F)
    (build_feedforward_network : ffn_cfg CF → T → option T → T)
    (build_norm_layer : Z → T → T)
    (order_msg : list string → string) (attn_msg : nat → list string → string)
    (attn_cfgs : list (attn_cfg CA)) (ffn_cfgs : ffn_cfgs_arg CF)
    (order : list string) (bf cp : bool) (self : layer T F)
    (transpose01 : T → T) (cat0 : T → T → T)
    (query_ query_pos : T) (temp : option (T * T)) (features : F) (attn_masks : masks T)
    (query_key_padding_mask prev_ref_point : option T) (msg : string) :
  init build_attention build_feedforward_network build_norm_layer order_msg attn_msg
       attn_cfgs ffn_cfgs order bf cp = Ok self →
  _forward transpose01 cat0 self query_ query_pos temp features attn_masks
           query_key_padding_mask prev_ref_point = Raise (AssertionError msg)
  ↔ ∃ l, attn_masks = MaskList l ∧ length l ≠ num_attn self
         ∧ msg = masks_msg (length l) (num_attn self).
Proof.
  intros H. apply init_Ok in H as (first & a0 & Hwf & _). split.
  - intros Hrun.
    assert (masks_fit self attn_masks ∨ ¬ masks_fit self attn_masks) as [Hfit|Hfit].
    { destruct attn_masks as [| |l]; simpl; [by left|by left|].
      destruct (decide (length l = num_attn self)); [by left|by right]. }
    + destruct (forward_fit transpose01 cat0 self query_ query_pos temp features
                  attn_masks query_key_padding_mask prev_ref_point Hwf Hfit)
        as [out Hout].
      rewrite Hout in Hrun. discriminate.
    + destruct attn_masks as [| |l]; try (by destruct Hfit). simpl in Hfit.
      exists l. split; [done|]. split; [done|].
      rewrite forward_unfit in Hrun by done. by injection Hrun as <-.
  - intros (l & -> & Hl & ->). by apply forward_unfit.
Qed.

Lemma masks_assertion_iff_witness :
  _forward (λ q : list string, q) (λ a _ : list string, a) ex_layer [] [] None tt
           (MaskList [None]) None None = Raise (AssertionError (masks_msg 1 2))
  ↔ ∃ l : list (option (list string)),
      MaskList [None] = MaskList l ∧ length l ≠ num_attn ex_layer
         ∧ masks_msg 1 2 = masks_msg (length l) (num_attn ex_layer).
Proof.
  apply (masks_assertion_iff ex_build_attention ex_build_ffn ex_build_norm
           ex_order_msg ex_attn_msg ex_attn_cfgs (FfnDict (mkFfnCfg None tt))
           ex_operation_order false true ex_layer).
  reflexivity.
Defined.

(** X23.  MV2DFusionTransformer.forward hands every decoder layer the
    mask list [[attn_masks, None]], so a layer that [__init__] built runs
    under it exactly when it has two attention operations; any other
    number ends in the assertion on [attn_masks]. *)
Theorem transformer_needs_two_attentions {T F CA CF : Type}
    (build_attention : attn_cfg CA → attention T F)
    (build_feedforward_network : ffn_cfg CF → T → option T → T)
    (build_norm_layer : Z → T → T)
    (order_msg : list string → string) (attn_msg : nat → list string → string)
    (attn_cfgs : list (attn_cfg CA)) (ffn_cfgs : ffn_cfgs_arg CF)
    (order : list string) (bf cp : bool) (self : layer T F)
    (transpose01 : T → T) (cat0 : T → T → T)
    (query_ query_pos : T) (temp : option (T * T)) (features : F)
    (attn_masks : option T) (query_key_padding_mask prev_ref_point : option T) :
  init build_attention build_feedforward_network build_norm_layer order_msg attn_msg
       attn_cfgs ffn_cfgs order bf cp = Ok self →
  ((∃ out, _forward transpose01 cat0 self query_ query_pos temp features
                    (transformer_masks attn_masks)
                    query_key_padding_mask prev_ref_point = Ok out)
   ↔ num_attn self = 2%nat)
  ∧ (num_attn self ≠ 2%nat →
     _forward transpose01 cat0 self query_ query_pos temp features
              (transformer_masks attn_masks) query_key_padding_mask prev_ref_point
     = Raise (AssertionError (masks_msg 2 (num_attn self)))).
Proof.
  intros H. apply init_Ok in H as (first & a0 & Hwf & _).
  assert (num_attn self ≠ 2%nat →
          _forward transpose01 cat0 self query_ query_pos temp features
                   (transformer_masks attn_masks) query_key_padding_mask prev_ref_point
          = Raise (AssertionError (masks_msg 2 (num_attn self)))) as Hbad.
  { intros Hn. unfold transformer_masks.
    apply (forward_unfit transpose01 cat0 self query_ query_pos temp features
             [attn_masks; None]). simpl. congruence. }
  split; [|exact Hbad]. split.
  - intros [out Hout]. destruct (decide (num_attn self = 2%nat)) as [|Hn]; [done|].
    rewrite (Hbad Hn) in Hout. discriminate.
  - intros Hn. apply forward_fit; [done|]. simpl. congruence.
Qed.

Lemma transformer_needs_two_attentions_witness :
  ((∃ out, _forward (λ q : list string, q) (λ a _ : list string, a) ex_layer [] [] None tt
                    (transformer_masks (Some ["mask"])) None None = Ok out)
   ↔ num_attn ex_layer = 2%nat)
  ∧ (num_attn ex_layer ≠ 2%nat →
     _forward (λ q : list string, q) (λ a _ : list string, a) ex_layer [] [] None tt
              (transformer_masks (Some ["mask"])) None None
     = Raise (AssertionError (masks_msg 2 (num_attn ex_layer)))).
Proof.
  apply (transformer_needs_two_attentions ex_build_attention ex_build_ffn ex_build_norm
           ex_order_msg ex_attn_msg ex_attn_cfgs (FfnDict (mkFfnCfg None tt))
           ex_operation_order false true ex_layer).
  reflexivity.
Defined.

End LayerExtras.

(* ===================================================================== *)
(** * Facts about PETRMultiheadFlashAttention.forward *)
(* ===================================================================== *)

Module FlashFacts.
Import Float Py DecoderLayer FlashAttention PyFacts DecodeMore LayerFacts.

Section Masks.
Context {T Sh F : Type} `{EqDecision Sh}.
Variable shape : T → Sh.
Variable add : T → T → T.
Variable flash_transpose : T → T.
Variable transpose01 : T → T.
Variable cat0 : T → T → T.
Variable self : layer T F.
Variable query_pos : T.
Variable temp_memory : option T.
Variable features : F.
Variable prev_ref_point : option T.

Lemma attn_kinds_cons (op : string) (order : list string) :
  attn_kinds (op :: order)
  = if decide (op ∈ attn_ops) then op :: attn_kinds order else attn_kinds order.
Proof.
  unfold attn_kinds. case_decide.
  - by rewrite filter_cons_True.
  - by rewrite filter_cons_False.
Qed.

Lemma apply_op_masks (l1 l2 : list (option T)) (kpm1 kpm2 : option T)
    (op : string) (order : list string) (st : loop T) :
  length l1 = length l2 →
  flash_from shape add flash_transpose self (op :: order) (attn_index st) →
  apply_op transpose01 cat0 self query_pos temp_memory features l1 kpm1 prev_ref_point op st
  = apply_op transpose01 cat0 self query_pos temp_memory features l2 kpm2 prev_ref_point op st.
Proof.
  intros Hlen Hflash. unfold apply_op. case_decide as Hop; [|reflexivity]. subst op.
  unfold NMSFree.item.
  destruct (attentions self !! attn_index st) as [att|] eqn:Hatt; [|reflexivity].
  cbn [mbind outcome_bind].
  destruct (l1 !! attn_index st) as [m1|] eqn:H1.
  - destruct (lookup_lt_is_Some_2 l2 (attn_index st)) as [m2 H2].
    { rewrite <- Hlen. by eapply lookup_lt_Some. }
    rewrite H2. cbn [mbind outcome_bind].
    destruct (Hflash 0%nat att) as (bf & attn & dropout & Hcall).
    { rewrite attn_kinds_cons, decide_True; [done|].
      apply elem_of_attn_ops. by left. }
    { by rewrite Nat.add_0_r. }
    by rewrite !Hcall.
  - rewrite lookup_ge_None_2; [reflexivity|].
    apply lookup_ge_None_1 in H1. lia.
Qed.

Lemma apply_op_index (l : list (option T)) (kpm : option T) (op : string)
    (st st' : loop T) :
  apply_op transpose01 cat0 self query_pos temp_memory features l kpm prev_ref_point op st
  = Ok st' →
  attn_index st' = if decide (op ∈ attn_ops) then S (attn_index st) else attn_index st.
Proof.
  unfold apply_op. intros H.
  repeat case_decide; subst;
    try (match goal with Hn : ¬ _ ∈ attn_ops |- _ =>
           exfalso; apply Hn; apply elem_of_attn_ops; tauto end);
    try (match goal with Hin : ?x ∈ attn_ops |- _ =>
           apply elem_of_attn_ops in Hin as [?|?]; try done; subst end);
    try discriminate;
    repeat (match type of H with
            | context [NMSFree.item ?xs ?i] =>
                destruct (NMSFree.item xs i); cbn [mbind outcome_bind] in H;
                [|discriminate]
            end);
    by injection H as <-.
Qed.

Lemma run_ops_masks (l1 l2 : list (option T)) (kpm1 kpm2 : option T)
    (order : list string) :
  ∀ st : loop T,
    length l1 = length l2 →
    flash_from shape add flash_transpose self order (attn_index st) →
    run_ops transpose01 cat0 self query_pos temp_memory features l1 kpm1 prev_ref_point
            order st
    = run_ops transpose01 cat0 self query_pos temp_memory features l2 kpm2 prev_ref_point
              order st.
Proof.
  induction order as [|op order IH]; intros st Hlen Hflash; [reflexivity|].
  cbn [run_ops]. rewrite (apply_op_masks l1 l2 kpm1 kpm2 op order st Hlen Hflash).
  destruct (apply_op _ _ _ _ _ _ _ _ _ _ _) as [st'|] eqn:Hstep; [|reflexivity].
  cbn [mbind outcome_bind]. apply IH; [done|].
  apply apply_op_index in Hstep. rewrite Hstep.
  intros i att Hi Hatt. case_decide as Hop.
  - apply (Hflash (S i) att).
    + by rewrite attn_kinds_cons, decide_True.
    + by replace (attn_index st + S i)%nat with (S (attn_index st) + i)%nat by lia.
  - apply (Hflash i att); [|done].
    by rewrite attn_kinds_cons, decide_False.
Qed.
End Masks.

End FlashFacts.

Module FlashExtras.
Import Float Py DecoderLayer FlashAttention PyFacts DecodeMore LayerFacts FlashFacts.

(** X24.  PETRMultiheadFlashAttention drops its masks, and the decoder
    layer hands [attn_masks] and [query_key_padding_mask] to nothing else:
    in a layer whose [self_attn] operations are served by
    PETRMultiheadFlashAttention modules, [_forward] returns or raises the
    same for any two [attn_masks] that pass its length assertion and any
    two [query_key_padding_mask]. *)
Theorem masks_have_no_effect {T S F : Type} `{EqDecision S}
    (shape : T → S) (add : T → T → T) (flash_transpose : T → T)
    (transpose01 : T → T) (cat0 : T → T → T) (self : layer T F)
    (query_ query_pos : T) (temp : option (T * T)) (features : F)
    (attn_masks attn_masks' : masks T)
    (query_key_padding_mask query_key_padding_mask' prev_ref_point : option T) :
  self_attn_is_flash shape add flash_transpose self →
  masks_fit self attn_masks → masks_fit self attn_masks' →
  _forward transpose01 cat0 self query_ query_pos temp features attn_masks
           query_key_padding_mask prev_ref_point
  = _forward transpose01 cat0 self query_ query_pos temp features attn_masks'
             query_key_padding_mask' prev_ref_point.
Proof.
  intros Hflash Hfit Hfit'. unfold _forward.
  assert (∀ m : masks T, masks_fit self m →
            ∃ l, match m with
                 | NoMasks => Ok (replicate (num_attn self) None)
                 | OneMask t => Ok (replicate (num_attn self) (Some t))
                 | MaskList l =>
                     if decide (length l = num_attn self) then Ok l
                     else Raise (AssertionError (masks_msg (length l) (num_attn self)))
                 end = Ok l ∧ length l = num_attn self) as Hlist.
  { intros [|t|l] Hm; simpl in Hm.
    - eexists. split; [done|]. by rewrite length_replicate.
    - eexists. split; [done|]. by rewrite length_replicate.
    - exists l. by rewrite decide_True. }
  destruct (Hlist _ Hfit) as (l1 & -> & Hl1).
  destruct (Hlist _ Hfit') as (l2 & -> & Hl2).
  cbn [mbind outcome_bind].
  rewrite (run_ops_masks shape add flash_transpose transpose01 cat0 self query_pos
             (fst <$> temp) features prev_ref_point l1 l2
             query_key_padding_mask query_key_padding_mask' (operation_order self));
    [reflexivity|congruence|exact Hflash].
Qed.

Lemma masks_have_no_effect_witness :
  _forward (λ q : list string, q) (λ a _ : list string, a) ex_flash_layer
           ["q"] ["pos"] None tt (transformer_masks (Some ["mask"])) None None
  = _forward (λ q : list string, q) (λ a _ : list string, a) ex_flash_layer
             ["q"] ["pos"] None tt NoMasks (Some ["padding"]) None.
Proof.
  apply (masks_have_no_effect (λ t : list string, length t) (λ a b, a ++ b) (λ t, t)
           (λ q : list string, q) (λ a _ : list string, a) ex_flash_layer
           ["q"] ["pos"] None tt (transformer_masks (Some ["mask"])) NoMasks
           None (Some ["padding"]) None).
  - intros i att Hi Hatt. destruct i as [|[|i]]; try discriminate.
    injection Hatt as <-.
    exists false, (λ q _ _ : list string, q ++ ["flash"]), (λ t : list string, t).
    reflexivity.
  - reflexivity.
  - exact I.
Defined.

End FlashExtras.

(* ===================================================================== *)
(** * Facts about MixedCrossAttention.pos2posemb2d *)
(* ===================================================================== *)

Module PosEmbedFacts.
Import Float Py PosEmbed.

Lemma stride2_double {A B} (f : nat → B) (g : B → A) (m : nat) :
  ∀ s : nat,
    stride2 ((λ i, g (f i)) <$> seq s (2 * m))
    = (λ k : nat, g (f (s + 2 * k)%nat)) <$> seq 0 m.
Proof.
  induction m as [|m IH]; intros s; [reflexivity|].
  replace (2 * S m)%nat with (S (S (2 * m))) by lia. cbn [seq fmap list_fmap stride2].
  rewrite IH. rewrite Nat.add_0_r. f_equal.
  rewrite <- fmap_S_seq, <- list_fmap_compose. apply list_fmap_ext.
  intros _ k _. simpl. do 2 f_equal. lia.
Qed.

Lemma stride2_tail_double {A B} (f : nat → B) (g : B → A) (m : nat) :
  ∀ s : nat,
    stride2 (tail ((λ i, g (f i)) <$> seq s (2 * m)))
    = (λ k : nat, g (f (s + 2 * k + 1)%nat)) <$> seq 0 m.
Proof.
  induction m as [|m IH]; intros s; [reflexivity|].
  replace (2 * S m)%nat with (S (S (2 * m))) by lia. cbn [seq fmap list_fmap tail].
  destruct m as [|m'].
  - simpl. do 3 f_equal. lia.
  - specialize (IH (S (S s))).
    replace (2 * S m')%nat with (S (S (2 * m'))) in * by lia.
    cbn [seq fmap list_fmap tail stride2] in *.
    rewrite IH. rewrite Nat.add_0_r. f_equal; [do 2 f_equal; lia|].
    f_equal; [do 2 f_equal; lia|].
    rewrite <- !fmap_S_seq, <- !list_fmap_compose. apply list_fmap_ext.
    intros _ k _. simpl. do 2 f_equal. lia.
Qed.

Lemma interleave_length {A} (a : list A) : ∀ b : list A,
  length a = length b → length (interleave a b) = (2 * length a)%nat.
Proof.
  induction a as [|x a IH]; intros [|y b] H; simpl in *; try done.
  rewrite IH by lia. lia.
Qed.

Lemma interleave_lookup {A} (a : list A) : ∀ (b : list A) (k : nat),
  length a = length b →
  interleave a b !! (2 * k)%nat = a !! k
  ∧ interleave a b !! (2 * k + 1)%nat = b !! k.
Proof.
  induction a as [|x a IH]; intros [|y b] k H; try discriminate H.
  - split; reflexivity.
  - destruct k as [|k]; [split; reflexivity|].
    destruct (IH b k) as [IH1 IH2]; [simpl in H; lia|].
    replace (2 * S k)%nat with (S (S (2 * k))) by lia.
    replace (S (S (2 * k)) + 1)%nat with (S (S (2 * k + 1))) by lia.
    split; [exact IH1|exact IH2].
Qed.

Lemma stride2_length_odd {A} (m : nat) : ∀ xs : list A,
  length xs = S (2 * m) →
  length (stride2 xs) = S m ∧ length (stride2 (tail xs)) = m.
Proof.
  induction m as [|m IH]; intros xs H.
  - destruct xs as [|x [|y xs]]; simpl in *; try done; lia.
  - destruct xs as [|x [|y xs]]; simpl in H; try lia.
    destruct (IH xs) as [H1 H2]; [lia|].
    split; [simpl; lia|]. destruct xs as [|z xs]; simpl in *; lia.
Qed.

Section Pos.
Variable fsin fcos : fval → fval.
Variable mul div : fval → fval → fval.
Variable two_pi : fval.
Variable power : nat → nat → fval.

Abbreviation embed_ := (embed_coord fsin fcos div power).

Lemma embed_coord_even (p : fval) (m : nat) :
  ∃ emb, embed_ p (2 * m) = Ok emb
         ∧ length emb = (2 * m)%nat
         ∧ ∀ k, (k < m)%nat →
             emb !! (2 * k)%nat = Some (fsin (div p (power (2 * k) (2 * m))))
             ∧ emb !! (2 * k + 1)%nat = Some (fcos (div p (power (2 * k) (2 * m)))).
Proof.
  unfold embed_coord, dim_t, stack_flatten.
  rewrite <- list_fmap_compose.
  change ((λ d, div p d) ∘ (λ i : nat, power (2 * (i / 2)) (2 * m)))
    with (λ i : nat, (λ d, div p d) ((λ i : nat, power (2 * (i / 2)) (2 * m)) i)).
  rewrite stride2_double, stride2_tail_double.
  rewrite decide_True by (by rewrite !length_fmap).
  eexists. split; [reflexivity|].
  split.
  { rewrite interleave_length by (by rewrite !length_fmap).
    by rewrite !length_fmap, length_seq. }
  intros k Hk.
  destruct (interleave_lookup
              (fsin <$> ((λ k0 : nat, div p (power (2 * ((0 + 2 * k0) / 2)) (2 * m)))
                         <$> seq 0 m))
              (fcos <$> ((λ k0 : nat, div p (power (2 * ((0 + 2 * k0 + 1) / 2)) (2 * m)))
                         <$> seq 0 m)) k) as [-> ->].
  { by rewrite !length_fmap. }
  rewrite !list_lookup_fmap, lookup_seq_lt by done.
  change (0 + k)%nat with k.
  cbn [fmap option_fmap option_map]. cbv beta.
  change (0 + 2 * k)%nat with (2 * k)%nat.
  assert ((2 * k) / 2 = k)%nat as ->.
  { rewrite Nat.mul_comm. apply Nat.div_mul. lia. }
  assert ((2 * k + 1) / 2 = k)%nat as ->.
  { replace (2 * k + 1)%nat with (1 + k * 2)%nat by lia.
    rewrite Nat.div_add by lia. reflexivity. }
  done.
Qed.

Lemma embed_coord_odd (p : fval) (m : nat) :
  embed_ p (S (2 * m)) = Raise RuntimeError.
Proof.
  unfold embed_coord, stack_flatten.
  set (scaled := (λ d, div p d) <$> dim_t power (S (2 * m))).
  destruct (stride2_length_odd m scaled) as [H1 H2].
  { unfold scaled, dim_t. by rewrite !length_fmap, length_seq. }
  rewrite decide_False; [done|]. rewrite !length_fmap. lia.
Qed.
End Pos.

End PosEmbedFacts.

Module PosEmbedExtras.
Import Float Py PosEmbed PosEmbedFacts.

(** X25.  The layout of [pos2posemb2d]: for a point (x, y) and an even
    [num_pos_feats] = 2m the embedding has 2 * [num_pos_feats] entries,
    those of y first and those of x after them; within each half the
    entries 2k and 2k + 1 are the sine and the cosine of the scaled
    coordinate over one and the same power of the temperature. *)
Theorem posemb_layout
    (fsin fcos : fval → fval) (mul div : fval → fval → fval) (two_pi : fval)
    (power : nat → nat → fval) (x y : fval) (rest : vec) (m : nat) :
  ∃ emb : vec,
    pos2posemb2d fsin fcos mul div two_pi power (x :: y :: rest) (2 * m) = Ok emb
    ∧ length emb = (2 * (2 * m))%nat
    ∧ ∀ k, (k < m)%nat →
        let t := power (2 * k)%nat (2 * m)%nat in
        emb !! (2 * k)%nat = Some (fsin (div (mul y two_pi) t))
        ∧ emb !! (2 * k + 1)%nat = Some (fcos (div (mul y two_pi) t))
        ∧ emb !! (2 * m + 2 * k)%nat = Some (fsin (div (mul x two_pi) t))
        ∧ emb !! (2 * m + 2 * k + 1)%nat = Some (fcos (div (mul x two_pi) t)).
Proof.
  unfold pos2posemb2d. cbn [fmap list_fmap NMSFree.item lookup list_lookup mbind outcome_bind].
  destruct (embed_coord_even fsin fcos div power (mul x two_pi) m)
    as (ex & -> & Hlx & Hx).
  cbn [mbind outcome_bind].
  destruct (embed_coord_even fsin fcos div power (mul y two_pi) m)
    as (ey & -> & Hly & Hy).
  cbn [mbind outcome_bind].
  eexists. split; [reflexivity|]. split; [rewrite length_app; lia|].
  intros k Hk. destruct (Hx k Hk) as [Hx0 Hx1]. destruct (Hy k Hk) as [Hy0 Hy1].
  rewrite !lookup_app_l by lia.
  rewrite !lookup_app_r by lia.
  replace (2 * m + 2 * k - length ey)%nat with (2 * k)%nat by lia.
  replace (2 * m + 2 * k + 1 - length ey)%nat with (2 * k + 1)%nat by lia.
  done.
Qed.

(** X26.  An odd [num_pos_feats] cannot be embedded: the slices
    [0::2] and [1::2] differ in length by one and stacking them raises
    [RuntimeError]. *)
Theorem posemb_odd_raises
    (fsin fcos : fval → fval) (mul div : fval → fval → fval) (two_pi : fval)
    (power : nat → nat → fval) (x y : fval) (rest : vec) (m : nat) :
  pos2posemb2d fsin fcos mul div two_pi power (x :: y :: rest) (S (2 * m))
  = Raise RuntimeError.
Proof.
  unfold pos2posemb2d. cbn [fmap list_fmap NMSFree.item lookup list_lookup mbind outcome_bind].
  rewrite (embed_coord_odd fsin fcos div power (mul x two_pi) m). reflexivity.
Qed.

End PosEmbedExtras.

(* ===================================================================== *)
(** * Facts about MV2DFusionTransformerDecoder.__init__ *)
(* ===================================================================== *)

Module DecoderInitExtras.
Import Float Py DecoderInit PyFacts.

(** X27.  What [__init__] guarantees of a decoder it builds: there
    are [num_layers] layers and at least one; a single config dict is
    built once for every layer; [embed_dims] and [pre_norm] are those of
    the first layer; and there is a [post_norm] exactly when
    [post_norm_cfg] is given. *)
Theorem built_decoder_invariants {C L N NC : Type}
    (build_transformer_layer : C → outcome L)
    (layer_embed_dims : L → Z) (layer_pre_norm : L → bool)
    (build_norm_layer : NC → Z → N)
    (transformerlayers : layers_cfg C) (n : Z)
    (post_norm_cfg : option NC) (ri : bool) (self : decoder L N) :
  init build_transformer_layer layer_embed_dims layer_pre_norm build_norm_layer
       transformerlayers n post_norm_cfg ri = Ok self →
  num_layers self = n
  ∧ 1 ≤ n
  ∧ Z.of_nat (length (layers self)) = n
  ∧ (∃ first, head (layers self) = Some first
              ∧ embed_dims self = layer_embed_dims first
              ∧ pre_norm self = layer_pre_norm first)
  ∧ (∀ c, transformerlayers = CfgDict c →
          Forall (λ layer, build_transformer_layer c = Ok layer) (layers self))
  ∧ (∀ l, transformerlayers = CfgList l →
          Forall2 (λ cfg layer, build_transformer_layer cfg = Ok layer) l (layers self))
  ∧ return_intermediate self = ri
  ∧ (post_norm self = None ↔ post_norm_cfg = None).
Proof.
  unfold init. intros H.
  destruct (match transformerlayers with CfgDict _ => _ | _ => _ end)
    as [cfgs|] eqn:Hcfgs; [|discriminate].
  cbn [mbind outcome_bind] in H.
  destruct (mapM _ _) as [ls|] eqn:Hls; [|discriminate].
  cbn [mbind outcome_bind] in H.
  destruct (NMSFree.item ls 0) as [first|] eqn:Hfirst; [|discriminate].
  cbn [mbind outcome_bind] in H. injection H as <-. cbn.
  apply mapM_outcome_Ok in Hls.
  pose proof (Forall2_length _ _ _ Hls) as Hlen. rewrite length_seq in Hlen.
  destruct ls as [|l0 ls]; [discriminate|]. injection Hfirst as ->.
  simpl in Hlen.
  assert (∀ i layer, (first :: ls) !! i = Some layer →
            ∃ cfg, cfgs !! i = Some cfg ∧ build_transformer_layer cfg = Ok layer) as Hbuilt.
  { intros i layer Hi.
    destruct (Forall2_lookup_r _ _ _ _ _ Hls Hi) as (j & Hj & Hrun).
    apply lookup_seq in Hj as [-> _]. simpl in Hrun.
    unfold NMSFree.item in Hrun. destruct (cfgs !! i) as [cfg|]; [|discriminate].
    by exists cfg. }
  split; [done|]. split; [lia|]. split; [simpl; lia|].
  split; [by exists first|].
  split; [|split; [|split; [done|]]].
  - intros c ->. injection Hcfgs as <-. apply Forall_lookup. intros i layer Hi.
    destruct (Hbuilt i layer Hi) as (cfg & Hcfg & Hrun).
    apply lookup_replicate in Hcfg as [-> _]. done.
  - intros l ->. case_decide as Hl; [|discriminate]. injection Hcfgs as <-.
    apply Forall2_same_length_lookup. split; [simpl; lia|].
    intros i cfg layer Hcfg Hi.
    destruct (Hbuilt i layer Hi) as (cfg' & Hcfg' & Hrun). congruence.
  - by destruct post_norm_cfg.
Qed.

Lemma built_decoder_invariants_witness :
  num_layers ex_decoder = 2
  ∧ 1 ≤ 2
  ∧ Z.of_nat (length (layers ex_decoder)) = 2
  ∧ (∃ first, head (layers ex_decoder) = Some first
              ∧ embed_dims ex_decoder = Z.of_nat (String.length first)
              ∧ pre_norm ex_decoder = false)
  ∧ (∀ c, CfgDict "layer" = CfgDict c →
          Forall (λ layer, ex_build c = Ok layer) (layers ex_decoder))
  ∧ (∀ l, CfgDict "layer" = CfgList l →
          Forall2 (λ cfg layer, ex_build cfg = Ok layer) l (layers ex_decoder))
  ∧ return_intermediate ex_decoder = true
  ∧ (post_norm ex_decoder = None ↔ Some tt = None).
Proof.
  apply (built_decoder_invariants ex_build (λ l, Z.of_nat (String.length l))
           (λ _, false) (λ (_ : unit) d, d) (CfgDict "layer") 2 (Some tt) true ex_decoder).
  reflexivity.
Defined.

End DecoderInitExtras.
